(** * betterproto / cbproto: the wire codec, the message base and the plugin driver

    A shallow embedding of
    - [src/src/cbproto/__init__.py]: varints, zig-zag, [parse_fields],
      [Message.__setattr__], [which_one_of], [serialize_to_bytes],
      [deserialize_from_bytes], and the other methods of [Message] and
      [ProtoClassMetadata] that these rest on;
    - [src/cbiproto/plugin/parser.py]: [traverse], [generate_code],
      [read_protobuf_type], [read_protobuf_service];
    - [src/cbiproto/plugin/models.py]: [is_map], [is_oneof],
      [FieldCompiler.py_type], and of the compilers of fields and methods
      the exceptions that making them can raise;
    - [src/cbiproto/plugin/options.py]: [PluginOptions.parse_args];
    - [src/cbiproto/plugin/utils.py]: [TypeManager],
      [parse_source_type_name], [Formatter].

    Python integers are [Z]; [bytes] are lists of [Byte.byte]; a raised
    exception is a value of [exn]. *)

From Stdlib Require Import ZArith List String Bool Lia Permutation Sorted.
From Stdlib Require Import Strings.Byte Strings.Ascii.
From stdpp Require Import gmap strings.
Import ListNotations.
Open Scope Z_scope.

(** ** Python exceptions and results *)

Inductive exn : Type :=
| IndexError
| ValueError (msg : string)
| KeyError
| TypeError
| StructError
| NotImplementedError
| AttributeError
| AssertionError
| UnicodeDecodeError
| RecursionError   (* the bound on nested calls was reached *)
| Unmodelled      (* a value of a kind this development leaves out (floats, dates) *)
| OutOfFuel.      (* the bound of a modelled loop was reached: proved not to happen *)

Inductive outcome (A : Type) : Type :=
| Ok (a : A)
| Raise (e : exn).
Arguments Ok {A} a.
Arguments Raise {A} e.

#[global] Instance outcome_ret : MRet outcome := fun A a => Ok a.

#[global] Instance outcome_fmap : FMap outcome := fun A B f r =>
  match r with
  | Ok a => Ok (f a)
  | Raise e => Raise e
  end.

#[global] Instance outcome_bind : MBind outcome := fun A B k r =>
  match r with
  | Ok a => k a
  | Raise e => Raise e
  end.

(** ** Bytes *)

Abbreviation bytes := (list byte).

#[global] Instance byte_eq_dec : EqDecision byte := Byte.byte_eq_dec.

Definition byte_val (b : byte) : Z := Z.of_N (Byte.to_N b).

Definition byte_of (z : Z) : byte :=
  match Byte.of_N (Z.to_N z) with
  | Some b => b
  | None => x00
  end.

(** [buffer[pos]]: a negative index counts from the end, an index out of
    range raises [IndexError]. *)
Definition getitem (buffer : bytes) (pos : Z) : option byte :=
  let n := Z.of_nat (length buffer) in
  if 0 <=? pos then nth_error buffer (Z.to_nat pos)
  else if - n <=? pos then nth_error buffer (Z.to_nat (n + pos))
  else None.

(** [value[lo:hi]]: negative bounds count from the end and both bounds are
    clamped to the buffer, so a slice never raises. *)
Definition clamp_index (n i : Z) : Z :=
  let i := if i <? 0 then i + n else i in
  Z.max 0 (Z.min n i).

Definition slice (value : bytes) (lo hi : Z) : bytes :=
  let n := Z.of_nat (length value) in
  let lo := clamp_index n lo in
  let hi := clamp_index n hi in
  firstn (Z.to_nat (hi - lo)) (skipn (Z.to_nat lo) value).

Definition len (value : bytes) : Z := Z.of_nat (length value).

Module Wire.

(** *** [encode_varint]

    The loop [while value:] is run with a bound; [encode_varint] picks a bound
    that a non-negative value never reaches, and a value that is still
    negative after [value += 1 << 64] reaches every bound (in Python the
    loop does not end: [-1 >> 7 == -1]). *)
Fixpoint encode_varint_loop (fuel : nat) (bits value : Z) (b : list Z) : outcome (list Z) :=
  if value =? 0 then Ok (b ++ [bits])
  else
    match fuel with
    | O => Raise OutOfFuel
    | S fuel =>
        let b := b ++ [Z.lor 0x80 bits] in
        let bits := Z.land value 0x7F in
        let value := Z.shiftr value 7 in
        encode_varint_loop fuel bits value b
    end.

Definition encode_varint (value : Z) : outcome bytes :=
  let value := if value <? 0 then value + Z.shiftl 1 64 else value in
  let fuel := S (Z.to_nat (Z.log2 value)) in
  let bits := Z.land value 0x7F in
  let value := Z.shiftr value 7 in
  b ← encode_varint_loop fuel bits value [];
  Ok (map byte_of b).

(** *** [decode_varint]

    At most ten bytes are read: after the tenth continuation byte [shift]
    is 70 and the function raises. *)
Definition too_many_bytes : string := "Too many bytes when decoding varint.".

Fixpoint decode_varint_loop (fuel : nat) (buffer : bytes) (result shift pos : Z)
  : outcome (Z * Z) :=
  match fuel with
  | O => Raise OutOfFuel
  | S fuel =>
      match getitem buffer pos with
      | None => Raise IndexError
      | Some b =>
          let b := byte_val b in
          let result := Z.lor result (Z.shiftl (Z.land b 0x7F) shift) in
          let pos := pos + 1 in
          if Z.land b 0x80 =? 0 then Ok (result, pos)
          else
            let shift := shift + 7 in
            if shift >=? 64 then Raise (ValueError too_many_bytes)
            else decode_varint_loop fuel buffer result shift pos
      end
  end.

Definition decode_varint (buffer : bytes) (pos : Z) : outcome (Z * Z) :=
  decode_varint_loop 10 buffer 0 0 pos.

(** *** [ParsedField] and [parse_fields] *)

(** Modelled from the spec: [const.py] is not among the sources; the
    wire-type constants are [VARINT=0], [FIXED_64=1], [LEN_DELIM=2],
    [FIXED_32=5]. *)
Definition WIRE_VARINT : Z := 0.
Definition WIRE_FIXED_64 : Z := 1.
Definition WIRE_LEN_DELIM : Z := 2.
Definition WIRE_FIXED_32 : Z := 5.

(** [ParsedField.value] is [None], an [int] or a [bytes] slice. *)
Inductive decoded : Type :=
| DNone
| DInt (z : Z)
| DBytes (b : bytes).

Record ParsedField : Type := Build_ParsedField {
  number : Z;
  wire_type : Z;
  value : decoded;
  raw : bytes
}.

(** The payload of one field, read at [i] after the key. *)
Definition parse_payload (value : bytes) (wire_type i : Z) : outcome (decoded * Z) :=
  if wire_type =? WIRE_VARINT then
    '(decoded, i) ← decode_varint value i; Ok (DInt decoded, i)
  else if wire_type =? WIRE_FIXED_64 then
    Ok (DBytes (slice value i (i + 8)), i + 8)
  else if wire_type =? WIRE_LEN_DELIM then
    '(length, i) ← decode_varint value i;
    Ok (DBytes (slice value i (i + length)), i + length)
  else if wire_type =? WIRE_FIXED_32 then
    Ok (DBytes (slice value i (i + 4)), i + 4)
  else Ok (DNone, i).

(** One turn of the [while i < len(value)] loop. *)
Definition parse_field (value : bytes) (i : Z) : outcome (ParsedField * Z) :=
  let start := i in
  '(num_wire, i) ← decode_varint value i;
  let number := Z.shiftr num_wire 3 in
  let wire_type := Z.land num_wire 0x7 in
  '(decoded, i) ← parse_payload value wire_type i;
  Ok (Build_ParsedField number wire_type decoded (slice value start i), i).

(** The generator: the fields it yields, in order, and the exception that
    ended it, if one did. Every turn reads at least one byte, so
    [length value] turns are enough. *)
Fixpoint parse_fields_loop (fuel : nat) (value : bytes) (i : Z)
  : list ParsedField * option exn :=
  if i <? len value then
    match fuel with
    | O => ([], Some OutOfFuel)
    | S fuel =>
        match parse_field value i with
        | Raise e => ([], Some e)
        | Ok (f, i) =>
            let '(rest, e) := parse_fields_loop fuel value i in
            (f :: rest, e)
        end
    end
  else ([], None).

Definition parse_fields (value : bytes) : list ParsedField * option exn :=
  parse_fields_loop (length value) value 0.

End Wire.

Module Runtime.
Import Wire.

(** *** Field types and metadata ([const.py], [fields.py]) *)

Inductive proto_type : Type :=
| TYPE_ENUM | TYPE_BOOL
| TYPE_INT32 | TYPE_INT64 | TYPE_UINT32 | TYPE_UINT64
| TYPE_SINT32 | TYPE_SINT64
| TYPE_FLOAT | TYPE_DOUBLE
| TYPE_FIXED32 | TYPE_SFIXED32 | TYPE_FIXED64 | TYPE_SFIXED64
| TYPE_STRING | TYPE_BYTES | TYPE_MESSAGE | TYPE_MAP.

#[global] Instance proto_type_eq_dec : EqDecision proto_type.
Proof. solve_decision. Defined.

Definition type_in (t : proto_type) (ts : list proto_type) : bool :=
  existsb (fun u => bool_decide (t = u)) ts.

(** Modelled from the spec: [const.py] is not among the sources. The
    groups follow the encoder's table: ENUM, BOOL, INT32, INT64, UINT32,
    UINT64, SINT32 and SINT64 are varints; FIXED32, SFIXED32 and FLOAT take
    four bytes; FIXED64, SFIXED64 and DOUBLE take eight; STRING, BYTES,
    MESSAGE and map entries are length-delimited; the packed types are the
    varint and the fixed ones. *)
Definition WIRE_VARINT_TYPES : list proto_type :=
  [TYPE_ENUM; TYPE_BOOL; TYPE_INT32; TYPE_INT64; TYPE_UINT32; TYPE_UINT64;
   TYPE_SINT32; TYPE_SINT64].
Definition WIRE_FIXED_32_TYPES : list proto_type :=
  [TYPE_FLOAT; TYPE_FIXED32; TYPE_SFIXED32].
Definition WIRE_FIXED_64_TYPES : list proto_type :=
  [TYPE_DOUBLE; TYPE_FIXED64; TYPE_SFIXED64].
Definition WIRE_LEN_DELIM_TYPES : list proto_type :=
  [TYPE_STRING; TYPE_BYTES; TYPE_MESSAGE; TYPE_MAP].
Definition FIXED_TYPES : list proto_type :=
  [TYPE_FLOAT; TYPE_DOUBLE; TYPE_FIXED32; TYPE_SFIXED32; TYPE_FIXED64;
   TYPE_SFIXED64].
Definition PACKED_TYPES : list proto_type :=
  [TYPE_ENUM; TYPE_BOOL; TYPE_INT32; TYPE_INT64; TYPE_UINT32; TYPE_UINT64;
   TYPE_SINT32; TYPE_SINT64; TYPE_FLOAT; TYPE_DOUBLE; TYPE_FIXED32;
   TYPE_SFIXED32; TYPE_FIXED64; TYPE_SFIXED64].

Record FieldMetadata : Type := Build_FieldMetadata {
  number : Z;
  proto_type_of : proto_type;
  map_types : option (proto_type * proto_type);
  group : option string;
  wraps : option proto_type;
  optional : bool
}.

(** [proto_field(number, proto_type, ...)] with its keyword defaults. *)
Definition proto_field (number : Z) (t : proto_type) : FieldMetadata :=
  Build_FieldMetadata number t None None None false.

(** [map_field(number, key_type, value_type)] *)
Definition map_field (number : Z) (key_type value_type : proto_type) : FieldMetadata :=
  Build_FieldMetadata number TYPE_MAP (Some (key_type, value_type)) None None false.

(** [proto_field(number, proto_type, group=group)] *)
Definition oneof_field (number : Z) (t : proto_type) (group : string) : FieldMetadata :=
  Build_FieldMetadata number t None (Some group) None false.

(** Truth of an [Optional[str]]: [None] and the empty string are false. *)
Definition truthy (s : option string) : bool :=
  match s with
  | Some s => negb (String.eqb s "")
  | None => false
  end.

(** *** Classes and values

    A message class is its name and its dataclass fields in declaration
    order, each with its metadata and its type hint. Floats, [datetime] and
    [timedelta] values are left out; a class that refers to itself has no
    representation here. A [str] is held as its UTF-8 encoding. *)
#[local] Unset Elimination Schemes.
Inductive py_type : Type :=
| t_int | t_bool | t_str | t_bytes | t_float
| t_Enum
| t_List (a : py_type)
| t_Dict (k v : py_type)
| t_Optional (a : py_type)
| t_Class (c : MessageClass)
with MessageClass : Type :=
| Build_MessageClass (cls_name : string)
    (cls_fields : list (string * FieldMetadata * py_type)).

Definition cls_name (c : MessageClass) : string :=
  let 'Build_MessageClass n _ := c in n.
Definition cls_fields (c : MessageClass) : list (string * FieldMetadata * py_type) :=
  let 'Build_MessageClass _ fs := c in fs.

Inductive py_value : Type :=
| UNSET
| VNone
| VInt (z : Z)
| VBool (b : bool)
| VStr (s : bytes)
| VBytes (b : bytes)
| VList (l : list py_value)
| VDict (d : list (py_value * py_value))
| VMsg (m : Message)
with Message : Type :=
| Build_Message (cls : MessageClass)
    (slots : list (string * py_value))
    (_serialized_on_wire : bool)
    (_unknown_fields : bytes)
    (_group_current : gmap string (option string)).

#[local] Set Elimination Schemes.

Definition cls (m : Message) : MessageClass :=
  let 'Build_Message c _ _ _ _ := m in c.
Definition slots (m : Message) : list (string * py_value) :=
  let 'Build_Message _ s _ _ _ := m in s.
Definition _serialized_on_wire (m : Message) : bool :=
  let 'Build_Message _ _ b _ _ := m in b.
Definition _unknown_fields (m : Message) : bytes :=
  let 'Build_Message _ _ _ u _ := m in u.
Definition _group_current (m : Message) : gmap string (option string) :=
  let 'Build_Message _ _ _ _ g := m in g.

Definition set_slots (m : Message) (s : list (string * py_value)) : Message :=
  Build_Message (cls m) s (_serialized_on_wire m) (_unknown_fields m) (_group_current m).
Definition set_serialized_on_wire (m : Message) (b : bool) : Message :=
  Build_Message (cls m) (slots m) b (_unknown_fields m) (_group_current m).
Definition set_unknown_fields (m : Message) (u : bytes) : Message :=
  Build_Message (cls m) (slots m) (_serialized_on_wire m) u (_group_current m).
Definition set_group_current (m : Message) (g : gmap string (option string)) : Message :=
  Build_Message (cls m) (slots m) (_serialized_on_wire m) (_unknown_fields m) g.

(** *** [ProtoClassMetadata] *)

Definition meta_by_field_name (c : MessageClass) : list (string * FieldMetadata) :=
  map (fun '(n, meta, _) => (n, meta)) (cls_fields c).

Definition lookup_meta (c : MessageClass) (field_name : string) : option FieldMetadata :=
  snd <$> find (fun '(n, _) => String.eqb n field_name) (meta_by_field_name c).

(** [meta.group] where [if meta.group:] holds. *)
Definition oneof_group (meta : FieldMetadata) : option string :=
  if truthy (group meta) then group meta else None.

(** [oneof_group_by_field]: the fields with a true [meta.group]. *)
Definition oneof_group_by_field (c : MessageClass) (attr : string) : option string :=
  meta ← lookup_meta c attr;
  oneof_group meta.

(** [oneof_field_by_group[group]]: the names of the fields of the group. *)
Definition oneof_field_by_group (c : MessageClass) (g : string) : list string :=
  map fst (List.filter (fun '(_, meta) => bool_decide (group meta = Some g))
             (meta_by_field_name c)).

(** [field_name_by_number.get(number)]: a later field with the same number
    replaces an earlier one. *)
Definition field_name_by_number (c : MessageClass) (n : Z) : option string :=
  fst <$> find (fun '(_, meta) => number meta =? n) (rev (meta_by_field_name c)).

Definition type_hint (c : MessageClass) (field_name : string) : option py_type :=
  snd <$> find (fun '(n, _, _) => String.eqb n field_name) (cls_fields c).

(** [_cls_for]: the hint, or its argument [index] when it has arguments. *)
Definition _cls_for (t : py_type) (index : nat) : py_type :=
  match t, index with
  | t_List a, O => a
  | t_Optional a, O => a
  | t_Dict k _, O => k
  | t_Dict _ v, S O => v
  | _, _ => t
  end.

(** The [Entry] dataclass that [_get_cls_by_field] makes for a map field. *)
Definition entry_class (t : py_type) (meta : FieldMetadata) : option MessageClass :=
  '(pk, pv) ← map_types meta;
  Some (Build_MessageClass "Entry"
          [("key"%string, proto_field 1 pk, _cls_for t 0);
           ("value"%string, proto_field 2 pv, _cls_for t 1)]).

Definition cls_by_field (c : MessageClass) (field_name : string) : option py_type :=
  meta ← lookup_meta c field_name;
  t ← type_hint c field_name;
  if bool_decide (proto_type_of meta = TYPE_MAP) then
    t_Class <$> entry_class t meta
  else Some (_cls_for t 0).

(** *** Construction: the dataclass [__init__] and [__post_init__] *)

Definition assoc {A} (l : list (string * A)) (k : string) : option A :=
  snd <$> find (fun '(n, _) => String.eqb n k) l.

(** The slot a field gets from [__init__]: the keyword argument, or the
    default of [proto_field]: [None] when optional, [UNSET] otherwise. *)
Definition init_value (kwargs : list (string * py_value)) (n : string) (meta : FieldMetadata) : py_value :=
  match assoc kwargs n with
  | Some v => v
  | None => if optional meta then VNone else UNSET
  end.

(** [value != UNSET and not (meta.optional and value is None)] *)
Definition non_sentinel (meta : FieldMetadata) (v : py_value) : bool :=
  match v with
  | UNSET => false
  | VNone => negb (optional meta)
  | _ => true
  end.

(** One turn of the loop of [__post_init__]. *)
Definition post_init_step (kwargs : list (string * py_value))
    (st : bool * gmap string (option string)) (f : string * FieldMetadata)
  : bool * gmap string (option string) :=
  let '(all_sentinel, group_current) := st in
  let '(field_name, meta) := f in
  let group_current :=
    match oneof_group meta with
    | Some g =>
        match group_current !! g with
        | Some _ => group_current
        | None => <[g := None]> group_current
        end
    | None => group_current
    end in
  if non_sentinel meta (init_value kwargs field_name meta) then
    (false,
     match oneof_group meta with
     | Some g => <[g := Some field_name]> group_current
     | None => group_current
     end)
  else (all_sentinel, group_current).

(** The call of the class with keyword arguments [kwargs]. *)
Definition construct (c : MessageClass) (kwargs : list (string * py_value)) : Message :=
  let '(all_sentinel, group_current) :=
    fold_left (post_init_step kwargs) (meta_by_field_name c) (true, ∅) in
  Build_Message c
    (map (fun '(n, meta) => (n, init_value kwargs n meta)) (meta_by_field_name c))
    (negb all_sentinel) [] group_current.

(** *** Attribute access *)

(** [__raw_get]: [object.__getattribute__] on a declared field. *)
Definition raw_get (m : Message) (name : string) : outcome py_value :=
  match assoc (slots m) name with
  | Some v => Ok v
  | None => Raise AttributeError
  end.

(** [default_gen[field_name]()] *)
Definition get_field_default (c : MessageClass) (field_name : string) : outcome py_value :=
  match type_hint c field_name with
  | None => Raise KeyError
  | Some t =>
      match t with
      | t_Dict _ _ => Ok (VDict [])
      | t_List _ => Ok (VList [])
      | t_Optional _ => Ok VNone
      | t_Enum => Ok (VInt 0)
      | t_int => Ok (VInt 0)
      | t_bool => Ok (VBool false)
      | t_str => Ok (VStr [])
      | t_bytes => Ok (VBytes [])
      | t_float => Raise Unmodelled
      | t_Class c' => Ok (VMsg (construct c' []))
      end
  end.

(** [object.__setattr__]: the instance dictionary takes any name. *)
Fixpoint set_slot (s : list (string * py_value)) (name : string) (v : py_value)
  : list (string * py_value) :=
  match s with
  | [] => [(name, v)]
  | (n, w) :: s' =>
      if String.eqb n name then (n, v) :: s' else (n, w) :: set_slot s' name v
  end.

(** [Message.__getattribute__] on a declared field: an unset slot reads
    as the default, which the instance keeps from then on. *)
Definition getattr (m : Message) (name : string) : outcome (py_value * Message) :=
  value ← raw_get m name;
  match value with
  | UNSET =>
      value ← get_field_default (cls m) name;
      Ok (value, set_slots m (set_slot (slots m) name value))
  | _ => Ok (value, m)
  end.

(** One turn of the loop of [__setattr__] over the fields of the group. *)
Definition reset_siblings (attr group : string) (m : Message) (field_name : string)
  : Message :=
  if String.eqb field_name attr then
    set_group_current m (<[group := Some field_name]> (_group_current m))
  else set_slots m (set_slot (slots m) field_name UNSET).

(** [Message.__setattr__] on a declared field of a message whose
    [__post_init__] has run. *)
Definition setattr (m : Message) (attr : string) (v : py_value) : Message :=
  let m := set_serialized_on_wire m true in
  let m :=
    match oneof_group_by_field (cls m) attr with
    | Some group =>
        fold_left (reset_siblings attr group) (oneof_field_by_group (cls m) group) m
    | None => m
    end in
  set_slots m (set_slot (slots m) attr v).

(** [message._serialized_on_wire = b]: the one attribute whose assignment
    does not raise the flag first. *)
Definition setattr_serialized_on_wire (m : Message) (b : bool) : Message :=
  set_serialized_on_wire m b.

(** [message._unknown_fields += raw] *)
Definition add_unknown_fields (m : Message) (raw : bytes) : Message :=
  set_unknown_fields (set_serialized_on_wire m true) (_unknown_fields m ++ raw).

Definition which_one_of (message : Message) (group_name : string)
  : outcome (string * py_value * Message) :=
  match _group_current message !! group_name with
  | Some (Some field_name) =>
      if String.eqb field_name "" then Ok (""%string, VNone, message)
      else
        '(v, message) ← getattr message field_name;
        Ok (field_name, v, message)
  | _ => Ok (""%string, VNone, message)
  end.

(** [_include_default_value_for_oneof] *)
Definition _include_default_value_for_oneof (m : Message) (field_name : string)
    (meta : FieldMetadata) : bool :=
  match group meta with
  | Some g => bool_decide (default None (_group_current m !! g) = Some field_name)
  | None => false
  end.

(** *** Equality: [==] on values and [Message.__eq__]

    [depth] bounds the nesting of calls, as the interpreter's recursion
    limit does. *)

Definition bytes_eqb (a b : bytes) : bool := bool_decide (a = b).

(** [==] on the hashable scalars ([True == 1] holds). *)
Definition scalar_eqb (a b : py_value) : bool :=
  match a, b with
  | UNSET, UNSET => true
  | VNone, VNone => true
  | VInt x, VInt y => x =? y
  | VInt x, VBool y => x =? (if y then 1 else 0)
  | VBool x, VInt y => (if x then 1 else 0) =? y
  | VBool x, VBool y => Bool.eqb x y
  | VStr x, VStr y => bytes_eqb x y
  | VBytes x, VBytes y => bytes_eqb x y
  | _, _ => false
  end.

Section Equality.
Variable eq : py_value -> py_value -> outcome bool.

Fixpoint list_eq (x y : list py_value) : outcome bool :=
  match x, y with
  | [], [] => Ok true
  | a :: x, b :: y =>
      e ← eq a b;
      if (e : bool) then list_eq x y else Ok false
  | _, _ => Ok false
  end.

Definition dict_get (d : list (py_value * py_value)) (k : py_value) : option py_value :=
  snd <$> find (fun '(k', _) => scalar_eqb k' k) d.

Fixpoint dict_items_eq (x y : list (py_value * py_value)) : outcome bool :=
  match x with
  | [] => Ok true
  | (k, v) :: x =>
      match dict_get y k with
      | None => Ok false
      | Some w =>
          e ← eq v w;
          if (e : bool) then dict_items_eq x y else Ok false
      end
  end.

(** The loop of [Message.__eq__] over [meta_by_field_name]. *)
Fixpoint fields_eq (self other : Message) (names : list string) : outcome bool :=
  match names with
  | [] => Ok true
  | field_name :: names =>
      self_val ← raw_get self field_name;
      other_val ← raw_get other field_name;
      match self_val, other_val with
      | UNSET, UNSET => fields_eq self other names
      | _, _ =>
          self_val ← match self_val with
                      | UNSET => get_field_default (cls self) field_name
                      | _ => Ok self_val
                      end;
          other_val ← match other_val with
                       | UNSET => get_field_default (cls other) field_name
                       | _ => Ok other_val
                       end;
          e ← eq self_val other_val;
          if (e : bool) then fields_eq self other names else Ok false
      end
  end.
End Equality.

Fixpoint value_eq (depth : nat) (a b : py_value) : outcome bool :=
  match depth with
  | O => Raise RecursionError
  | S depth =>
      match a, b with
      | VList x, VList y => list_eq (value_eq depth) x y
      | VDict x, VDict y =>
          if Nat.eqb (length x) (length y)
          then dict_items_eq (value_eq depth) x y else Ok false
      | VMsg self, VMsg other =>
          if negb (String.eqb (cls_name (cls self)) (cls_name (cls other)))
          then Ok false
          else fields_eq (value_eq depth) self other
                 (map fst (meta_by_field_name (cls self)))
      | _, _ => Ok (scalar_eqb a b)
      end
  end.

(** [self == other] for two messages. *)
Definition Message_eq (depth : nat) (self other : Message) : outcome bool :=
  value_eq depth (VMsg self) (VMsg other).

(** *** Serialization *)

(** An [int] operand; [True] and [False] are the integers 1 and 0. *)
Definition as_int (v : py_value) : outcome Z :=
  match v with
  | VInt z => Ok z
  | VBool b => Ok (if b then 1 else 0)
  | _ => Raise TypeError
  end.

(** [value << 1 if value >= 0 else (value << 1) ^ (~0)] *)
Definition zigzag (value : Z) : Z :=
  if value >=? 0 then Z.shiftl value 1
  else Z.lxor (Z.shiftl value 1) (Z.lnot 0).

Fixpoint le_bytes (n : nat) (z : Z) : bytes :=
  match n with
  | O => []
  | S n => byte_of (Z.land z 0xFF) :: le_bytes n (Z.shiftr z 8)
  end.

Fixpoint le_int (b : bytes) : Z :=
  match b with
  | [] => 0
  | x :: b => Z.lor (byte_val x) (Z.shiftl (le_int b) 8)
  end.

(** [struct.pack(_pack_fmt(proto_type), value)] for the integer formats
    [<I], [<i], [<Q], [<q]; the float formats are left out. *)
Definition struct_pack (t : proto_type) (v : Z) : outcome bytes :=
  let pack (n : nat) (lo hi : Z) :=
    if (lo <=? v) && (v <? hi) then Ok (le_bytes n (v mod 2 ^ (8 * Z.of_nat n)))
    else Raise StructError in
  match t with
  | TYPE_FIXED32 => pack 4%nat 0 (2 ^ 32)
  | TYPE_SFIXED32 => pack 4%nat (- 2 ^ 31) (2 ^ 31)
  | TYPE_FIXED64 => pack 8%nat 0 (2 ^ 64)
  | TYPE_SFIXED64 => pack 8%nat (- 2 ^ 63) (2 ^ 63)
  | TYPE_FLOAT | TYPE_DOUBLE => Raise Unmodelled
  | _ => Raise KeyError
  end.

(** [struct.unpack(_pack_fmt(proto_type), value)[0]] *)
Definition struct_unpack (t : proto_type) (b : bytes) : outcome Z :=
  let unpack (n : nat) (signed : bool) :=
    if Nat.eqb (length b) n then
      let u := le_int b in
      let half := 2 ^ (8 * Z.of_nat n - 1) in
      Ok (if signed && (half <=? u) then u - 2 * half else u)
    else Raise StructError in
  match t with
  | TYPE_FIXED32 => unpack 4%nat false
  | TYPE_SFIXED32 => unpack 4%nat true
  | TYPE_FIXED64 => unpack 8%nat false
  | TYPE_SFIXED64 => unpack 8%nat true
  | TYPE_FLOAT | TYPE_DOUBLE => Raise Unmodelled
  | _ => Raise KeyError
  end.

(** Modelled from the spec: [lib/google/protobuf] is not among the
    sources. A wrapper message boxes one scalar, its field [value] with
    number 1; [EnumValue] and the float wrappers are left out. *)
Definition _get_wrapper (t : proto_type) : outcome MessageClass :=
  let box (name : string) (hint : py_type) :=
    Ok (Build_MessageClass name [("value"%string, proto_field 1 t, hint)]) in
  match t with
  | TYPE_BOOL => box "BoolValue"%string t_bool
  | TYPE_BYTES => box "BytesValue"%string t_bytes
  | TYPE_INT32 => box "Int32Value"%string t_int
  | TYPE_INT64 => box "Int64Value"%string t_int
  | TYPE_STRING => box "StringValue"%string t_str
  | TYPE_UINT32 => box "UInt32Value"%string t_int
  | TYPE_UINT64 => box "UInt64Value"%string t_int
  | TYPE_DOUBLE | TYPE_FLOAT | TYPE_ENUM => Raise Unmodelled
  | _ => Raise KeyError
  end.

Definition is_true (o : option proto_type) : bool :=
  match o with Some _ => true | None => false end.

Section Serialize.
(** [bytes(value)] on a nested message, and [==]. *)
Variable to_bytes : Message -> outcome bytes.
Variable eq : py_value -> py_value -> outcome bool.

Definition _preprocess_single (t : proto_type) (wraps : option proto_type)
    (value : py_value) : outcome bytes :=
  if type_in t [TYPE_ENUM; TYPE_BOOL; TYPE_INT32; TYPE_INT64; TYPE_UINT32; TYPE_UINT64]
  then z ← as_int value; encode_varint z
  else if type_in t [TYPE_SINT32; TYPE_SINT64]
  then z ← as_int value; encode_varint (zigzag z)
  else if type_in t FIXED_TYPES
  then z ← as_int value; struct_pack t z
  else if bool_decide (t = TYPE_STRING)
  then match value with
       | VStr s => Ok s
       | _ => Raise AttributeError
       end
  else if bool_decide (t = TYPE_MESSAGE)
  then match wraps, value with
       | Some _, VNone => Ok []
       | Some w, _ =>
           c ← _get_wrapper w;
           to_bytes (construct c [("value"%string, value)])
       | None, VMsg m => to_bytes m
       | None, _ => Raise Unmodelled
       end
  else match value with
       | VBytes b => Ok b
       | _ => Raise TypeError
       end.

Definition _serialize_single (field_number : Z) (t : proto_type) (value : py_value)
    (serialize_empty : bool) (wraps : option proto_type) : outcome bytes :=
  value ← _preprocess_single t wraps value;
  if type_in t WIRE_VARINT_TYPES then
    key ← encode_varint (Z.shiftl field_number 3);
    Ok (key ++ value)
  else if type_in t WIRE_FIXED_32_TYPES then
    key ← encode_varint (Z.lor (Z.shiftl field_number 3) 5);
    Ok (key ++ value)
  else if type_in t WIRE_FIXED_64_TYPES then
    key ← encode_varint (Z.lor (Z.shiftl field_number 3) 1);
    Ok (key ++ value)
  else if type_in t WIRE_LEN_DELIM_TYPES then
    if negb (Nat.eqb (length value) 0) || serialize_empty || is_true wraps then
      key ← encode_varint (Z.lor (Z.shiftl field_number 3) 2);
      n ← encode_varint (len value);
      Ok (key ++ n ++ value)
    else Ok []
  else Raise NotImplementedError.

Definition concat_mapM {A} (f : A -> outcome bytes) (l : list A) : outcome bytes :=
  chunks ← mapM f l; Ok (concat chunks).

(** One turn of the loop of [serialize_to_bytes]: what it appends to
    [output]. The default that [getattr] leaves in an unset slot is not
    kept: no later turn reads that slot. *)
Definition serialize_field (message : Message) (f : string * FieldMetadata)
  : outcome bytes :=
  let '(field_name, meta) := f in
  '(value, _) ← getattr message field_name;
  match value with
  | VNone => Ok []
  | _ =>
      selected_in_group ←
        match oneof_group meta with
        | Some g =>
            match _group_current message !! g with
            | Some current => Ok (bool_decide (current = Some field_name))
            | None => Raise KeyError
            end
        | None => Ok false
        end;
      let serialize_empty :=
        match value with
        | VMsg v => _serialized_on_wire v
        | _ => false
        end in
      let include_default_value_for_oneof :=
        _include_default_value_for_oneof message field_name meta in
      default ← get_field_default (cls message) field_name;
      is_default ← eq value default;
      if (is_default : bool)
         && negb ((selected_in_group : bool) || serialize_empty
                  || include_default_value_for_oneof)
      then Ok []
      else
        match value with
        | VList items =>
            if type_in (proto_type_of meta) PACKED_TYPES then
              buf ← concat_mapM (_preprocess_single (proto_type_of meta) None) items;
              _serialize_single (number meta) TYPE_BYTES (VBytes buf) false None
            else
              concat_mapM
                (fun item =>
                   b ← _serialize_single (number meta) (proto_type_of meta) item
                         false (wraps meta);
                   Ok (match b with [] => [x0a; x00] | _ => b end))
                items
        | VDict d =>
            concat_mapM
              (fun '(k, v) =>
                 match map_types meta with
                 | None => Raise AssertionError
                 | Some (kt, vt) =>
                     sk ← _serialize_single 1 kt k false None;
                     sv ← _serialize_single 2 vt v false None;
                     _serialize_single (number meta) (proto_type_of meta)
                       (VBytes (sk ++ sv)) false None
                 end)
              d
        | _ =>
            let serialize_empty :=
              match value with
              | VStr [] => serialize_empty || include_default_value_for_oneof
              | _ => serialize_empty
              end in
            _serialize_single (number meta) (proto_type_of meta) value
              (serialize_empty || selected_in_group) (wraps meta)
        end
  end.

Definition serialize_fields (message : Message) : outcome bytes :=
  output ← concat_mapM (serialize_field message) (meta_by_field_name (cls message));
  Ok (output ++ _unknown_fields message).
End Serialize.

Fixpoint serialize_to_bytes (depth : nat) (message : Message) : outcome bytes :=
  match depth with
  | O => Raise RecursionError
  | S depth => serialize_fields (serialize_to_bytes depth) (value_eq depth) message
  end.

(** *** Deserialization *)

(** Whether a byte string is well-formed UTF-8, which [str(value, "utf-8")]
    requires. *)
Fixpoint utf8_valid (b : list Z) : bool :=
  let cont (x : Z) := (0x80 <=? x) && (x <=? 0xBF) in
  match b with
  | [] => true
  | x :: r1 =>
      if x <? 0x80 then utf8_valid r1
      else
        match r1 with
        | [] => false
        | y :: r2 =>
            if (0xC2 <=? x) && (x <=? 0xDF) then cont y && utf8_valid r2
            else
              match r2 with
              | [] => false
              | z :: r3 =>
                  if (0xE0 <=? x) && (x <=? 0xEF) then
                    (if x =? 0xE0 then (0xA0 <=? y) && (y <=? 0xBF)
                     else if x =? 0xED then (0x80 <=? y) && (y <=? 0x9F)
                     else cont y)
                    && cont z && utf8_valid r3
                  else
                    match r3 with
                    | [] => false
                    | w :: r4 =>
                        (0xF0 <=? x) && (x <=? 0xF4)
                        && (if x =? 0xF0 then (0x90 <=? y) && (y <=? 0xBF)
                            else if x =? 0xF4 then (0x80 <=? y) && (y <=? 0x8F)
                            else cont y)
                        && cont z && cont w && utf8_valid r4
                    end
              end
        end
  end.

Definition of_decoded (d : decoded) : py_value :=
  match d with
  | DNone => VNone
  | DInt z => VInt z
  | DBytes b => VBytes b
  end.

(** The integer branch of [_postprocess_single] for [int32] and [int64]:
    [bits] is the number in the type's name. *)
Definition sign_extend (bits : Z) (value : Z) : Z :=
  let value := Z.land value (Z.shiftl 1 bits - 1) in
  let signbit := Z.shiftl 1 (bits - 1) in
  Z.lxor value signbit - signbit.

(** [(value >> 1) ^ (-(value & 1))] *)
Definition unzigzag (value : Z) : Z :=
  Z.lxor (Z.shiftr value 1) (- Z.land value 1).

(** [_postprocess_single] on a varint. *)
Definition postprocess_varint (t : proto_type) (value : Z) : py_value :=
  match t with
  | TYPE_INT32 => VInt (sign_extend 32 value)
  | TYPE_INT64 => VInt (sign_extend 64 value)
  | TYPE_SINT32 | TYPE_SINT64 => VInt (unzigzag value)
  | TYPE_BOOL => VBool (value >? 0)
  | _ => VInt value
  end.

(** [current[key] = v] on a dictionary. *)
Fixpoint dict_set (d : list (py_value * py_value)) (k v : py_value) : list (py_value * py_value) :=
  match d with
  | [] => [(k, v)]
  | (k', w) :: d' =>
      if scalar_eqb k' k then (k', v) :: d' else (k', w) :: dict_set d' k v
  end.

Fixpoint foldM {A B} (f : A -> B -> outcome A) (a : A) (l : list B) : outcome A :=
  match l with
  | [] => Ok a
  | b :: l => a ← f a b; foldM f a l
  end.

Section Deserialize.
(** [deserialize_from_bytes(cls, data)] on a nested class. *)
Variable from_bytes : MessageClass -> bytes -> outcome Message.

Definition _postprocess_single (proto_meta : MessageClass) (wire_type : Z)
    (meta : FieldMetadata) (field_name : string) (value : py_value) : outcome py_value :=
  let t := proto_type_of meta in
  if wire_type =? WIRE_VARINT then
    match value with
    | VInt z => Ok (postprocess_varint t z)
    | _ => Raise TypeError
    end
  else if (wire_type =? WIRE_FIXED_32) || (wire_type =? WIRE_FIXED_64) then
    match value with
    | VBytes b => VInt <$> struct_unpack t b
    | _ => Raise TypeError
    end
  else if wire_type =? WIRE_LEN_DELIM then
    match value with
    | VBytes b =>
        if bool_decide (t = TYPE_STRING) then
          if utf8_valid (map byte_val b) then Ok (VStr b)
          else Raise UnicodeDecodeError
        else if bool_decide (t = TYPE_MESSAGE) then
          match cls_by_field proto_meta field_name with
          | None => Raise KeyError
          | Some field_cls =>
              match wraps meta with
              | Some w =>
                  c ← _get_wrapper w;
                  m ← from_bytes c b;
                  fst <$> getattr m "value"
              | None =>
                  match field_cls with
                  | t_Class c =>
                      m ← from_bytes c b;
                      Ok (VMsg (setattr_serialized_on_wire m true))
                  | _ => Raise Unmodelled
                  end
              end
          end
        else if bool_decide (t = TYPE_MAP) then
          match cls_by_field proto_meta field_name with
          | Some (t_Class c) => VMsg <$> from_bytes c b
          | _ => Raise KeyError
          end
        else Ok value
    | _ => Raise TypeError
    end
  else Ok value.

(** The loop over a packed payload: one element per turn. *)
Fixpoint unpack_loop (fuel : nat) (proto_meta : MessageClass) (meta : FieldMetadata)
    (field_name : string) (payload : bytes) (pos : Z) : outcome (list py_value) :=
  if pos <? len payload then
    match fuel with
    | O => Raise OutOfFuel
    | S fuel =>
        let t := proto_type_of meta in
        '(decoded, pos, wire_type) ←
          (if type_in t [TYPE_FLOAT; TYPE_FIXED32; TYPE_SFIXED32] then
             Ok (VBytes (slice payload pos (pos + 4)), pos + 4, WIRE_FIXED_32)
           else if type_in t [TYPE_DOUBLE; TYPE_FIXED64; TYPE_SFIXED64] then
             Ok (VBytes (slice payload pos (pos + 8)), pos + 8, WIRE_FIXED_64)
           else
             '(decoded, pos) ← decode_varint payload pos;
             Ok (VInt decoded, pos, WIRE_VARINT));
        decoded ← _postprocess_single proto_meta wire_type meta field_name decoded;
        rest ← unpack_loop fuel proto_meta meta field_name payload pos;
        Ok (decoded :: rest)
    end
  else Ok [].

(** One turn of the loop of [deserialize_from_bytes]. *)
Definition deserialize_field (message : Message) (parsed : ParsedField)
  : outcome Message :=
  let proto_meta := cls message in
  match field_name_by_number proto_meta (Wire.number parsed) with
  | None => Ok (add_unknown_fields message (raw parsed))
  | Some field_name =>
      if String.eqb field_name "" then Ok (add_unknown_fields message (raw parsed))
      else
        match lookup_meta proto_meta field_name with
        | None => Raise KeyError
        | Some meta =>
            value ←
              match Wire.value parsed with
              | DBytes payload =>
                  if (wire_type parsed =? WIRE_LEN_DELIM)
                     && type_in (proto_type_of meta) PACKED_TYPES
                  then VList <$> unpack_loop (length payload) proto_meta meta
                                   field_name payload 0
                  else _postprocess_single proto_meta (wire_type parsed) meta
                         field_name (VBytes payload)
              | d => _postprocess_single proto_meta (wire_type parsed) meta
                       field_name (of_decoded d)
              end;
            '(current, message) ← getattr message field_name;
            if bool_decide (proto_type_of meta = TYPE_MAP) then
              match value, current with
              | VMsg entry, VDict d =>
                  '(v, entry) ← getattr entry "value";
                  '(k, _) ← getattr entry "key";
                  Ok (set_slots message
                        (set_slot (slots message) field_name (VDict (dict_set d k v))))
              | VMsg _, _ => Raise TypeError
              | _, _ => Raise AttributeError
              end
            else
              match current, value with
              | VList _, VList _ => Ok (setattr message field_name value)
              | VList l, _ =>
                  Ok (set_slots message
                        (set_slot (slots message) field_name (VList (l ++ [value]))))
              | _, _ => Ok (setattr message field_name value)
              end
        end
  end.

(** The body of [deserialize_from_bytes] on an instance: the fields that
    the generator yields are consumed one by one, and an exception that
    ends the generator is raised after them. *)
Definition deserialize_fields (message : Message) (data : bytes) : outcome Message :=
  let message := setattr_serialized_on_wire message true in
  let '(fields, e) := parse_fields data in
  message ← foldM deserialize_field message fields;
  match e with
  | Some e => Raise e
  | None => Ok message
  end.
End Deserialize.

(** [deserialize_from_bytes] on an instance. *)
Fixpoint deserialize_into (depth : nat) (message : Message) (data : bytes)
  : outcome Message :=
  match depth with
  | O => Raise RecursionError
  | S depth =>
      deserialize_fields (fun c b => deserialize_into depth (construct c []) b)
        message data
  end.

(** [deserialize_from_bytes] on a class: [message = cls()] first. *)
Definition deserialize_from_bytes (depth : nat) (c : MessageClass) (data : bytes)
  : outcome Message :=
  deserialize_into depth (construct c []) data.

(** *** Further methods of [Message] and [ProtoClassMetadata] *)

(** [ProtoClassMetadata.get_field_number] *)
Definition get_field_number (c : MessageClass) (field_name : string) : outcome Z :=
  match lookup_meta c field_name with
  | None => Raise (ValueError ("Unknown field " ++ field_name))
  | Some meta => Ok (number meta)
  end.

(** [serialized_on_wire] *)
Definition serialized_on_wire (message : Message) : bool :=
  _serialized_on_wire message.

(** [Message.is_set]: [is not] compares identities, and [UNSET] and [None]
    are single objects. *)
Definition is_set (m : Message) (name : string) : outcome bool :=
  match lookup_meta (cls m) name with
  | None => Raise KeyError
  | Some meta =>
      value ← raw_get m name;
      Ok (match value, optional meta with
          | UNSET, false => false
          | VNone, true => false
          | _, _ => true
          end)
  end.

(** The [any(...)] of [Message.__bool__]: the first field whose slot is
    not in [(UNSET, default)] ends it. The membership test compares the
    items of the tuple, on the left of [==], with the slot. *)
Fixpoint fields_any (eq : py_value -> py_value -> outcome bool) (self : Message)
    (names : list string) : outcome bool :=
  match names with
  | [] => Ok false
  | field_name :: names =>
      value ← raw_get self field_name;
      default ← get_field_default (cls self) field_name;
      match value with
      | UNSET => fields_any eq self names
      | _ =>
          e ← eq default value;
          if (e : bool) then fields_any eq self names else Ok true
      end
  end.

(** [bool(self)] *)
Definition Message_bool (depth : nat) (self : Message) : outcome bool :=
  match depth with
  | O => Raise RecursionError
  | S depth =>
      fields_any (value_eq depth) self (map fst (meta_by_field_name (cls self)))
  end.

End Runtime.


Module Plugin.

(** *** Descriptors ([lib/google/protobuf], read through their fields) *)

Record FieldDescriptorProto : Type := Build_FieldDescriptorProto {
  field_name : string;
  extendee : string;
  type : Z;                          (* a number of [FieldDescriptorProto.Type] *)
  field_type_name : string;          (* [type_name] *)
  oneof_index : option Z             (* [None]: not set *)
}.

Record EnumDescriptorProto : Type := Build_EnumDescriptorProto {
  enum_name : string;
  enum_value : list (string * Z)
}.

#[local] Unset Elimination Schemes.
Inductive DescriptorProto : Type :=
| Build_DescriptorProto (name : string)
    (field : list FieldDescriptorProto)
    (nested_type : list DescriptorProto)
    (enum_type : list EnumDescriptorProto)
    (map_entry : bool).
#[local] Set Elimination Schemes.

Definition name (m : DescriptorProto) : string :=
  let 'Build_DescriptorProto n _ _ _ _ := m in n.
Definition field (m : DescriptorProto) : list FieldDescriptorProto :=
  let 'Build_DescriptorProto _ f _ _ _ := m in f.
Definition nested_type (m : DescriptorProto) : list DescriptorProto :=
  let 'Build_DescriptorProto _ _ n _ _ := m in n.
Definition enum_type (m : DescriptorProto) : list EnumDescriptorProto :=
  let 'Build_DescriptorProto _ _ _ e _ := m in e.
Definition map_entry (m : DescriptorProto) : bool :=
  let 'Build_DescriptorProto _ _ _ _ b := m in b.

Record MethodDescriptorProto : Type := Build_MethodDescriptorProto {
  method_name : string;
  input_type : string;
  output_type : string
}.

Record ServiceDescriptorProto : Type := Build_ServiceDescriptorProto {
  service_name : string;
  method : list MethodDescriptorProto
}.

Record FileDescriptorProto : Type := Build_FileDescriptorProto {
  file_name : string;
  package : string;
  file_message_type : list DescriptorProto;
  file_enum_type : list EnumDescriptorProto;
  service : list ServiceDescriptorProto;
  extension : list FieldDescriptorProto
}.

Record CodeGeneratorRequest : Type := Build_CodeGeneratorRequest {
  parameter : string;
  proto_file : list FileDescriptorProto
}.

Record File : Type := Build_File {
  name_of : string;
  content : string
}.

Record CodeGeneratorResponse : Type := Build_CodeGeneratorResponse {
  supported_features : Z;
  file : list File
}.

(** Modelled from the spec: the [Feature] enumeration of the response is
    not among the sources; [FEATURE_PROTO3_OPTIONAL] has bit value 1. *)
Definition FEATURE_PROTO3_OPTIONAL : Z := 1.

(** *** [traverse] *)

Inductive item : Type :=
| ItemEnum (e : EnumDescriptorProto)
| ItemMessage (m : DescriptorProto).

(** [".".join(filter(None, [prefix, item.name]))] *)
Definition next_prefix (prefix name : string) : string :=
  if String.eqb prefix "" then name
  else if String.eqb name "" then prefix
  else (prefix ++ "." ++ name)%string.

Abbreviation yielded := (item * list Z * string)%type.

(** [_traverse(path, items, prefix)] over a list of enumerations, from
    index [i] on. *)
Fixpoint _traverse_enums (path : list Z) (i : Z) (items : list EnumDescriptorProto)
    (prefix : string) : list yielded :=
  match items with
  | [] => []
  | e :: items =>
      (ItemEnum e, path ++ [i], next_prefix prefix (enum_name e))
        :: _traverse_enums path (i + 1) items prefix
  end.

(** What [_traverse] yields for the message at index [i]: the message, its
    enumerations, then its nested messages. *)
Fixpoint _traverse_message (path : list Z) (i : Z) (m : DescriptorProto)
    (prefix : string) : list yielded :=
  let 'Build_DescriptorProto n _ nested enums _ := m in
  let next := next_prefix prefix n in
  (ItemMessage m, path ++ [i], next)
    :: _traverse_enums (path ++ [i; 4]) 0 enums next
    ++ (fix _traverse (j : Z) (items : list DescriptorProto) : list yielded :=
          match items with
          | [] => []
          | x :: items =>
              _traverse_message (path ++ [i; 3]) j x next ++ _traverse (j + 1) items
          end) 0 nested.

Fixpoint _traverse_messages (path : list Z) (i : Z) (items : list DescriptorProto)
    (prefix : string) : list yielded :=
  match items with
  | [] => []
  | m :: items =>
      _traverse_message path i m prefix ++ _traverse_messages path (i + 1) items prefix
  end.

Definition traverse (proto_file : FileDescriptorProto) : list yielded :=
  _traverse_enums [5] 0 (file_enum_type proto_file) ""
  ++ _traverse_messages [4] 0 (file_message_type proto_file) "".

(** *** The order in which [generate_code] reads the types of a file *)

(** [d[k] = v] on a dictionary with string keys: a key keeps the place of
    its first insertion. *)
Fixpoint dict_insert {A} (d : list (string * A)) (k : string) (v : A) : list (string * A) :=
  match d with
  | [] => [(k, v)]
  | (k', w) :: d' =>
      if String.eqb k' k then (k', v) :: d' else (k', w) :: dict_insert d' k v
  end.

(** [{qualname: (item, path) for item, path, qualname in traverse(f)}] *)
Definition items_of (ys : list yielded) : list (string * (item * list Z)) :=
  fold_left (fun d '(it, path, qualname) => dict_insert d qualname (it, path)) ys [].

(** [x.count(".")] *)
Fixpoint count_dots (x : string) : nat :=
  match x with
  | EmptyString => O
  | String c x => ((if Ascii.eqb c "."%char then 1 else 0) + count_dots x)%nat
  end.

(** [sorted(keys, key=...)]: the sort is stable. *)
Fixpoint insert_sorted (key : string -> nat) (x : string) (l : list string) : list string :=
  match l with
  | [] => [x]
  | y :: l' =>
      if (key x <=? key y)%nat then x :: l else y :: insert_sorted key x l'
  end.

Definition sorted (key : string -> nat) (l : list string) : list string :=
  fold_right (insert_sorted key) [] l.

Definition sorted_keys (proto_input_file : FileDescriptorProto) : list string :=
  sorted count_dots (map fst (items_of (traverse proto_input_file))).

(** The calls of [read_protobuf_type] for one input file, in order: the
    qualified name with the item and the path it is called with. *)
Definition read_order (proto_input_file : FileDescriptorProto)
  : list (string * (item * list Z)) :=
  let items := items_of (traverse proto_input_file) in
  omap (fun key => (fun v => (key, v)) <$> Runtime.assoc items key)
    (sorted_keys proto_input_file).

(** *** [PluginOptions.parse_args] *)

Record PluginOptions : Type := Build_PluginOptions {
  mode : string;
  include_google : bool
}.

(** [s.split(c)] *)
Fixpoint split_on (c : ascii) (s : string) : list string :=
  match s with
  | EmptyString => [EmptyString]
  | String a s' =>
      if Ascii.eqb a c then EmptyString :: split_on c s'
      else
        match split_on c s' with
        | [] => [String a EmptyString]
        | h :: t => String a h :: t
        end
  end.

(** [s.lower()] on ASCII letters. *)
Definition lower_ascii (a : ascii) : ascii :=
  let n := nat_of_ascii a in
  if ((65 <=? n) && (n <=? 90))%nat then ascii_of_nat (n + 32) else a.

Fixpoint lower (s : string) : string :=
  match s with
  | EmptyString => EmptyString
  | String a s' => String (lower_ascii a) (lower s')
  end.

(** [option.split("=", 1)] when ["=" in option]. *)
Fixpoint split_eq (s : string) : option (string * string) :=
  match s with
  | EmptyString => None
  | String a s' =>
      if Ascii.eqb a "="%char then Some (EmptyString, s')
      else '(k, v) ← split_eq s'; Some (String a k, v)
  end.

(** A value of the [options] dictionary: a string, or [True]. *)
Inductive option_value : Type :=
| OptStr (s : string)
| OptTrue.

Definition options_of (args : string) : list (string * option_value) :=
  fold_left
    (fun options option =>
       match split_eq option with
       | Some (key, value) => dict_insert options key (OptStr value)
       | None => dict_insert options option OptTrue
       end)
    (map lower (split_on ","%char args)) [].

(** *** Paths ([pathlib]): a relative path is its list of parts *)

Definition path_of_package (pkg_name : string) : list string :=
  List.filter (fun part => negb (String.eqb part "")) (split_on "."%char pkg_name)
  ++ ["__init__.py"%string].

(** [path.parents], nearest first, down to the empty path. *)
Fixpoint parents (path : list string) : list (list string) :=
  match path with
  | [] => []
  | part :: rest => map (cons part) (parents rest) ++ [[]]
  end.

Definition parents_of (path : list string) : list (list string) :=
  parents (removelast path).

Definition str_path (path : list string) : string :=
  match path with
  | [] => "."%string
  | _ => String.concat "/" path
  end.

Definition path_eqb (a b : list string) : bool := bool_decide (a = b).

Definition path_in (a : list string) (s : list (list string)) : bool :=
  existsb (path_eqb a) s.

(** [s.add(x)] on a set held as the list of its elements. *)
Definition path_add (s : list (list string)) (a : list string) : list (list string) :=
  if path_in a s then s else s ++ [a].

(** *** [generate_code] *)

(** What [read_protobuf_type] builds for one type: a [MessageCompiler] or
    an [EnumDefinitionCompiler], by the arguments it is made from. *)
Record compiled_type : Type := Build_compiled_type {
  qualname : string;
  type_name : string;
  proto_obj : item;
  path_to : list Z;
  parent : option string;            (* [None]: the output package itself *)
  fields : list FieldDescriptorProto
}.

(** What the reading creates in an output package, in order: the type
    compilers of [read_protobuf_type] and the [ServiceCompiler]s of
    [read_protobuf_service]. *)
Inductive entity : Type :=
| EType (c : compiled_type)
| EService (s : ServiceDescriptorProto) (path : list Z).

Record OutputTemplate : Type := Build_OutputTemplate {
  package_proto_obj : FileDescriptorProto;
  template_mode : string;
  input_files : list FileDescriptorProto;
  created : list entity
}.

Definition compiled (t : OutputTemplate) : list compiled_type :=
  omap (fun e => match e with EType c => Some c | EService _ _ => None end) (created t).

(** [output_file.services] *)
Definition services (t : OutputTemplate) : list (ServiceDescriptorProto * list Z) :=
  omap (fun e => match e with EService s path => Some (s, path) | EType _ => None end)
    (created t).

Definition is_enum (c : compiled_type) : bool :=
  match proto_obj c with ItemEnum _ => true | ItemMessage _ => false end.

Definition is_top_level (c : compiled_type) : bool :=
  match parent c with None => true | Some _ => false end.

(** [output_file.enums] and [output_file.messages]: what
    [MessageCompiler.__post_init__] appends when the parent is the output
    package. *)
Definition enums (t : OutputTemplate) : list compiled_type :=
  List.filter (fun c => is_top_level c && is_enum c) (compiled t).
Definition messages (t : OutputTemplate) : list compiled_type :=
  List.filter (fun c => is_top_level c && negb (is_enum c)) (compiled t).

(** ["." in qualname] and [qualname.rsplit(".", 1)[0]] *)
Fixpoint rsplit_head (s : string) : option string :=
  match s with
  | EmptyString => None
  | String a s' =>
      match rsplit_head s' with
      | Some h => Some (String a h)
      | None => if Ascii.eqb a "."%char then Some EmptyString else None
      end
  end.

(** *** The compilers of the fields and of the methods ([models.py])

    Of a compiler the model keeps the arguments it is made from, and of
    its [__post_init__] the exception that it may raise; what is added to
    the import sets of the output file is not kept. *)

(** The tuples of [FieldDescriptorProto.Type] values, by the numbers that
    [models.py] notes beside the names. *)
Definition PROTO_FLOAT_TYPES : list Z := [1; 2].
Definition PROTO_INT_TYPES : list Z := [3; 4; 5; 6; 7; 13; 15; 16; 17; 18].
Definition PROTO_BOOL_TYPES : list Z := [8].
Definition PROTO_STR_TYPES : list Z := [9].
Definition PROTO_BYTES_TYPES : list Z := [12].
Definition PROTO_MESSAGE_TYPES : list Z := [11; 14].

(** [FieldDescriptorProto.Type.TYPE_MESSAGE] *)
Definition Type_TYPE_MESSAGE : Z := 11.

(** [name.replace("_", "")] *)
Fixpoint remove_underscores (s : string) : string :=
  match s with
  | EmptyString => EmptyString
  | String a s' =>
      if Ascii.eqb a "_"%char then remove_underscores s'
      else String a (remove_underscores s')
  end.

(** [f"{name.replace('_', '').lower()}entry"] *)
Definition map_entry_name (name : string) : string :=
  (lower (remove_underscores name) ++ "entry")%string.

(** [is_map(proto_field_obj, parent_message)] for a [DescriptorProto] as
    the parent. *)
Definition is_map (proto_field_obj : FieldDescriptorProto)
    (parent_message : DescriptorProto) : bool :=
  if type proto_field_obj =? Type_TYPE_MESSAGE then
    let message_type :=
      lower (List.last (split_on "."%char (field_type_name proto_field_obj))
               EmptyString) in
    let map_entry_ := map_entry_name (field_name proto_field_obj) in
    if String.eqb message_type map_entry_ then
      existsb
        (fun nested =>
           String.eqb (lower (remove_underscores (name nested))) map_entry_
           && map_entry nested)
        (nested_type parent_message)
    else false
  else false.

(** [is_oneof]: whether [oneof_index] was set. *)
Definition is_oneof (proto_field_obj : FieldDescriptorProto) : bool :=
  match oneof_index proto_field_obj with
  | Some _ => true
  | None => false
  end.

(** [l[i]] on a list *)
Definition list_getitem {A} (l : list A) (i : nat) : outcome A :=
  match nth_error l i with
  | Some x => Ok x
  | None => Raise IndexError
  end.

Section Compilers.
(** [get_type_reference] of [cbiproto.plugin.importing], a module that is
    not among the sources (it is not the method of [TypeManager]): the
    reference that it returns, or the exception that it raises, for a
    package, a source type and [unwrap]. A call that leaves [unwrap] out
    is written with [true]. *)
Variable get_type_reference : string -> string -> bool -> outcome string.

(** [FieldCompiler.py_type] *)
Definition py_type (output_file : OutputTemplate) (proto_obj : FieldDescriptorProto)
  : outcome string :=
  if existsb (Z.eqb (type proto_obj)) PROTO_FLOAT_TYPES then Ok "float"%string
  else if existsb (Z.eqb (type proto_obj)) PROTO_INT_TYPES then Ok "int"%string
  else if existsb (Z.eqb (type proto_obj)) PROTO_BOOL_TYPES then Ok "bool"%string
  else if existsb (Z.eqb (type proto_obj)) PROTO_STR_TYPES then Ok "str"%string
  else if existsb (Z.eqb (type proto_obj)) PROTO_BYTES_TYPES then Ok "bytes"%string
  else if existsb (Z.eqb (type proto_obj)) PROTO_MESSAGE_TYPES then
    get_type_reference (package (package_proto_obj output_file))
      (field_type_name proto_obj) true
  else Raise NotImplementedError.

(** [FieldCompiler(...)]: [__post_init__] calls [add_imports_to], which
    asks for [py_type], through [annotation] and [use_builtins]. The
    other steps do not raise: [repeated] and [optional] read the
    descriptor, [py_name] goes through [safe_snake_case] of the casing
    module, which is not among the sources and is taken to return, and
    [MessageCompiler.__post_init__] appends the compiler to the fields of
    its parent. *)
Definition FieldCompiler (output_file : OutputTemplate) (proto_obj : FieldDescriptorProto)
  : outcome unit :=
  _ ← py_type output_file proto_obj; Ok ().

(** [OneOfFieldCompiler(...)]: the [__post_init__] is the inherited one. *)
Definition OneOfFieldCompiler (output_file : OutputTemplate)
    (proto_obj : FieldDescriptorProto) : outcome unit :=
  FieldCompiler output_file proto_obj.

(** [MapEntryCompiler(...)]: for every nested type that is the entry of
    the map, a [FieldCompiler] of its first and of its second field, each
    asked for its [py_type] ([nested.field[0]] and [nested.field[1]] raise
    [IndexError] when the entry has no such field); then the inherited
    [__post_init__], where [use_builtins] asks for the [py_type] of the
    map field itself. *)
Definition MapEntryCompiler (output_file : OutputTemplate) (parent : DescriptorProto)
    (proto_obj : FieldDescriptorProto) : outcome unit :=
  let map_entry_ := map_entry_name (field_name proto_obj) in
  _ ← Runtime.foldM
        (fun _ nested =>
           if String.eqb (lower (remove_underscores (name nested))) map_entry_
              && map_entry nested
           then
             key ← list_getitem (field nested) 0;
             _ ← FieldCompiler output_file key;
             _ ← py_type output_file key;
             value ← list_getitem (field nested) 1;
             _ ← FieldCompiler output_file value;
             _ ← py_type output_file value;
             Ok ()
           else Ok ())
        () (nested_type parent);
  FieldCompiler output_file proto_obj.

(** One turn of the loop over the fields of a message. *)
Definition read_field (output_package : OutputTemplate) (item : DescriptorProto)
    (field : FieldDescriptorProto) : outcome unit :=
  if is_map field item then MapEntryCompiler output_package item field
  else if is_oneof field then OneOfFieldCompiler output_package field
  else FieldCompiler output_package field.

(** [read_protobuf_type]: [proto_types] holds the qualified names read so
    far; the result is the type compiler made, if one is. Making the
    [MessageCompiler] itself does not raise; making the
    [EnumDefinitionCompiler] goes through [sanitize_name] of the casing
    module, which is not among the sources and is taken to return. *)
Definition read_protobuf_type (it : item) (path : list Z) (qualname : string)
    (source_file : FileDescriptorProto) (output_package : OutputTemplate)
    (extensions : list (string * list FieldDescriptorProto))
    (proto_types : list string) : outcome (option compiled_type) :=
  let type_name := ("." ++ package source_file ++ "." ++ qualname)%string in
  parent ←
    match rsplit_head qualname with
    | None => Ok None
    | Some p =>
        if existsb (String.eqb p) proto_types then Ok (Some p) else Raise KeyError
    end;
  match it with
  | ItemMessage m =>
      if map_entry m then Ok None
      else
        fields ←
          match Runtime.assoc extensions type_name with
          | None => Ok (field m)
          | Some [x] => Ok (field m ++ [x])
          | Some _ => Raise TypeError
          end;
        _ ← Runtime.foldM (fun _ field => read_field output_package m field) () fields;
        Ok (Some (Build_compiled_type qualname type_name it path parent fields))
  | ItemEnum _ =>
      Ok (Some (Build_compiled_type qualname type_name it path parent []))
  end.

(** The loop over the sorted keys of one input file. *)
Definition read_types (source_file : FileDescriptorProto)
    (extensions : list (string * list FieldDescriptorProto))
    (output_package : OutputTemplate) : outcome OutputTemplate :=
  '(_, made) ←
    Runtime.foldM
      (fun '(proto_types, made) '(key, (it, path)) =>
         c ← read_protobuf_type it path key source_file output_package extensions
               proto_types;
         match c with
         | Some c => Ok (proto_types ++ [key], made ++ [c])
         | None => Ok (proto_types, made)
         end)
      ([], []) (read_order source_file);
  Ok (Build_OutputTemplate (package_proto_obj output_package)
        (template_mode output_package) (input_files output_package)
        (created output_package ++ map EType made)).

(** [ServiceMethodCompiler(...)]: [__post_init__] asks for
    [py_output_message_type], a reference that is not unwrapped. *)
Definition ServiceMethodCompiler (output_file : OutputTemplate)
    (proto_obj : MethodDescriptorProto) : outcome unit :=
  _ ← get_type_reference (package (package_proto_obj output_file))
        (output_type proto_obj) false;
  Ok ().

(** [read_protobuf_service] *)
Definition read_protobuf_service (service : ServiceDescriptorProto) (index : Z)
    (output_package : OutputTemplate) (source_file : FileDescriptorProto)
  : outcome OutputTemplate :=
  _ ← Runtime.foldM (fun _ method => ServiceMethodCompiler output_package method)
        () (method service);
  Ok (Build_OutputTemplate (package_proto_obj output_package)
        (template_mode output_package) (input_files output_package)
        (created output_package ++ [EService service [6; index]])).

(** [read_protobuf_service] for every service of one input file. *)
Definition read_services (source_file : FileDescriptorProto)
    (output_package : OutputTemplate) : outcome OutputTemplate :=
  Runtime.foldM
    (fun output_package '(index, service) =>
       read_protobuf_service service index output_package source_file)
    output_package
    (imap (fun index service => (Z.of_nat index, service)) (service source_file)).
End Compilers.

Definition add_input_file (t : OutputTemplate) (proto : FileDescriptorProto)
  : OutputTemplate :=
  Build_OutputTemplate (package_proto_obj t) (template_mode t)
    (input_files t ++ [proto]) (created t).

(** [extensions.setdefault(extendee, []).append(extension)] *)
Definition add_extension (extensions : list (string * list FieldDescriptorProto))
    (e : FieldDescriptorProto) : list (string * list FieldDescriptorProto) :=
  dict_insert extensions (extendee e)
    (default [] (Runtime.assoc extensions (extendee e)) ++ [e]).

Section GenerateCode.
(** [get_type_reference] of the module that is not among the sources,
    the validation that the options model applies to the dictionary
    (it raises on a value the model does not accept), the renderer
    [outputfile_compiler], the file system test [Path.exists], and the
    order in which a set of paths is iterated. *)
Variable get_type_reference : string -> string -> bool -> outcome string.
Variable validate : list (string * option_value) -> outcome PluginOptions.
Variable outputfile_compiler : OutputTemplate -> string.
Variable path_exists : list string -> bool.
Variable set_iter : list (list string) -> list (list string).

Definition parse_args (args : string) : outcome PluginOptions :=
  validate (options_of args).

(** One turn of the first loop: the output packages, by package name in
    the order of their first file, and the extensions. *)
Definition collect_step (plugin_options : PluginOptions)
    (st : list (string * OutputTemplate) * list (string * list FieldDescriptorProto))
    (proto : FileDescriptorProto)
  : list (string * OutputTemplate) * list (string * list FieldDescriptorProto) :=
  let '(output_packages, extensions) := st in
  if String.eqb (package proto) "google.protobuf"
     && negb (include_google plugin_options)
  then (output_packages, extensions)
  else
    let extensions := fold_left add_extension (extension proto) extensions in
    match file_message_type proto, file_enum_type proto, service proto with
    | [], [], [] => (output_packages, extensions)
    | _, _, _ =>
        let pkg_name := package proto in
        let t :=
          default (Build_OutputTemplate proto (mode plugin_options) [] [])
            (Runtime.assoc output_packages pkg_name) in
        (dict_insert output_packages pkg_name (add_input_file t proto), extensions)
    end.

Definition collect (plugin_options : PluginOptions) (protos : list FileDescriptorProto)
  : list (string * OutputTemplate) * list (string * list FieldDescriptorProto) :=
  fold_left (collect_step plugin_options) protos ([], []).

Definition init_files (output_paths : list (list string)) : list (list string) :=
  let candidates :=
    flat_map
      (fun path =>
         flat_map
           (fun directory =>
              let init := directory ++ ["__init__.py"%string] in
              if path_exists init then [] else [init])
           (parents_of path))
      output_paths in
  List.filter (fun p => negb (path_in p output_paths)) (fold_left path_add candidates []).

(** The reading loops of [generate_code]: the types of every output
    package, then the services of every output package. *)
Definition read_request (plugin_options : PluginOptions) (request : CodeGeneratorRequest)
  : outcome (list (string * OutputTemplate)) :=
  let '(output_packages, extensions) := collect plugin_options (proto_file request) in
  output_packages ←
    mapM (fun '(pkg_name, output_package) =>
            t ← Runtime.foldM
                  (fun t f => read_types get_type_reference f extensions t)
                  output_package (input_files output_package);
            Ok (pkg_name, t))
      output_packages;
  mapM (fun '(pkg_name, output_package) =>
          t ← Runtime.foldM (fun t f => read_services get_type_reference f t)
                output_package (input_files output_package);
          Ok (pkg_name, t))
    output_packages.

(** Writes to the standard error stream are left out. *)
Definition generate_code (request : CodeGeneratorRequest)
  : outcome CodeGeneratorResponse :=
  let response := Build_CodeGeneratorResponse FEATURE_PROTO3_OPTIONAL [] in
  plugin_options ← parse_args (parameter request);
  output_packages ← read_request plugin_options request;
  let output_paths :=
    fold_left path_add (map (fun '(pkg_name, _) => path_of_package pkg_name)
                          output_packages) [] in
  let response :=
    fold_left
      (fun response '(pkg_name, output_package) =>
         Build_CodeGeneratorResponse (supported_features response)
           (file response
            ++ [Build_File (str_path (path_of_package pkg_name))
                  (outputfile_compiler output_package)]))
      output_packages response in
  let response :=
    fold_left
      (fun response init_file =>
         Build_CodeGeneratorResponse (supported_features response)
           (file response ++ [Build_File (str_path init_file) ""]))
      (set_iter (init_files output_paths)) response in
  Ok response.
End GenerateCode.

(** *** [TypeManager] ([utils.py])

    A set of strings is the list of its elements without repetition; the
    order in which Python iterates it depends on the hashes of the strings
    and is a parameter, [iter_set], of which only that it lists the
    elements is known. *)
Record TypeManager : Type := Build_TypeManager {
  tm_package : list string;
  _imports : list string;
  _from_imports : list (string * list string)
}.

Definition new_TypeManager (package : string) : TypeManager :=
  Build_TypeManager (split_on "."%char package) [] [].

Definition set_add (s : list string) (x : string) : list string :=
  if existsb (String.eqb x) s then s else s ++ [x].

(** [self._imports.add(line)], as [module_import] and
    [get_type_reference] do. *)
Definition add_import (tm : TypeManager) (line : string) : TypeManager :=
  Build_TypeManager (tm_package tm) (set_add (_imports tm) line) (_from_imports tm).

Definition from_import (tm : TypeManager) (module name : string) : string * TypeManager :=
  (name,
   Build_TypeManager (tm_package tm) (_imports tm)
     (dict_insert (_from_imports tm) module
        (set_add (default [] (Runtime.assoc (_from_imports tm) module)) name))).

Definition module_import (tm : TypeManager) (module name : string) : string * TypeManager :=
  ((module ++ "." ++ name)%string, add_import tm ("import " ++ module)%string).

Definition typing_import (tm : TypeManager) (typ : string) : string * TypeManager :=
  from_import tm "typing" typ.

Definition from_line (iter_set : list string -> list string)
    (entry : string * list string) : string :=
  let '(module, names) := entry in
  ("from " ++ module ++ " import " ++ String.concat ", " (iter_set names))%string.

Definition get_all_imports (iter_set : list string -> list string) (tm : TypeManager)
  : list string :=
  iter_set (_imports tm) ++ map (from_line iter_set) (_from_imports tm).

(** A reference recorded in the manager. *)
Inductive reference : Type :=
| ModuleImport (module name : string)
| FromImport (module name : string)
| ImportLine (line : string).

Definition record_reference (tm : TypeManager) (r : reference) : TypeManager :=
  match r with
  | ModuleImport module name => snd (module_import tm module name)
  | FromImport module name => snd (from_import tm module name)
  | ImportLine line => add_import tm line
  end.

Definition record_all (package : string) (rs : list reference) : TypeManager :=
  fold_left record_reference rs (new_TypeManager package).

(** *** [parse_source_type_name] ([utils.py])

    The regular expression [^\.?([^A-Z]+)\.(.+)] by hand: the first group
    is greedy, so it is the longest run of characters outside [A-Z] that a
    dot and one more character, not a line feed, follow; the second group
    runs to the end of the line. *)
Definition is_upper (c : ascii) : bool :=
  let n := nat_of_ascii c in ((65 <=? n) && (n <=? 90))%nat.

Fixpoint upto_newline (s : string) : string :=
  match s with
  | EmptyString => EmptyString
  | String c r => if Ascii.eqb c "010"%char then EmptyString else String c (upto_newline r)
  end.

(** The rest of the first group, the dot and the second group. *)
Fixpoint package_tail (r : string) : option (string * string) :=
  match r with
  | EmptyString => None
  | String c r' =>
      let longer :=
        if is_upper c then None
        else '(g1, g2) ← package_tail r'; Some (String c g1, g2) in
      match longer with
      | Some m => Some m
      | None =>
          if Ascii.eqb c "."%char then
            match r' with
            | String d _ =>
                if Ascii.eqb d "010"%char then None
                else Some (EmptyString, upto_newline r')
            | EmptyString => None
            end
          else None
      end
  end.

(** [([^A-Z]+)\.(.+)] matched at the start of [s]. *)
Definition package_match (s : string) : option (string * string) :=
  match s with
  | EmptyString => None
  | String c r =>
      if is_upper c then None
      else '(g1, g2) ← package_tail r; Some (String c g1, g2)
  end.

(** [s.lstrip(".")] *)
Fixpoint lstrip_dots (s : string) : string :=
  match s with
  | String c r => if Ascii.eqb c "."%char then lstrip_dots r else s
  | EmptyString => EmptyString
  end.

Definition parse_source_type_name (field_type_name : string) : string * string :=
  let package_match_ :=
    match field_type_name with
    | String c r =>
        if Ascii.eqb c "."%char then
          match package_match r with
          | Some m => Some m
          | None => package_match field_type_name
          end
        else package_match field_type_name
    | EmptyString => None
    end in
  match package_match_ with
  | Some (package, name) => (package, name)
  | None => (EmptyString, lstrip_dots field_type_name)
  end.

(** *** [TypeManager.get_type_reference] ([utils.py]) *)

(** [s * n] on strings: empty when [n] is not positive. *)
Definition repeat_str (s : string) (n : Z) : string :=
  String.concat "" (repeat s (Z.to_nat n)).

(** [b[:len(a)] == a] on tuples. *)
Definition starts_with (b a : list string) : bool :=
  bool_decide (firstn (length a) b = a).

(** [os.path.commonprefix([a, b])] on two tuples. *)
Fixpoint commonprefix (a b : list string) : list string :=
  match a, b with
  | x :: a', y :: b' => if String.eqb x y then x :: commonprefix a' b' else []
  | _, _ => []
  end.

Section TypeReference.
(** [pascal_case] and [safe_snake_case] come from [_casing.py], and the
    scalar that a wrapper type boxes from [lib/google/protobuf]; neither is
    among the sources. [wrapped_type_name] is the name of that scalar for
    the keys of [WRAPPER_TYPES], and [None] for any other type. *)
Variable pascal_case : string -> string.
Variable safe_snake_case : string -> string.
Variable wrapped_type_name : string -> option string.

Definition pythonize_class_name (name : string) : string :=
  String.concat "." (map pascal_case (split_on "."%char name)).

Definition reference_absolute (tm : TypeManager) (py_package : list string)
    (py_type : string) : string * TypeManager :=
  let string_import := String.concat "." py_package in
  let string_alias := safe_snake_case string_import in
  ((string_alias ++ "." ++ py_type)%string,
   add_import tm ("import " ++ string_import ++ " as " ++ string_alias)%string).

Definition reference_sibling (tm : TypeManager) (py_type : string)
  : string * TypeManager :=
  (py_type, tm).

(** [get_type_reference] calls [reference_descendent] and
    [reference_cousin] with a package that has a last part, so the index
    [-1] does not raise there. *)
Definition reference_descendent (tm : TypeManager) (py_package : list string)
    (py_type : string) : string * TypeManager :=
  let importing_descendent := skipn (length (tm_package tm)) py_package in
  let string_from := String.concat "." (removelast importing_descendent) in
  let string_import := List.last importing_descendent EmptyString in
  if negb (String.eqb string_from "") then
    let string_alias := String.concat "_" importing_descendent in
    ((string_alias ++ "." ++ py_type)%string,
     add_import tm
       ("from ." ++ string_from ++ " import " ++ string_import ++ " as "
        ++ string_alias)%string)
  else
    ((string_import ++ "." ++ py_type)%string,
     add_import tm ("from . import " ++ string_import)%string).

Definition reference_ancestor (tm : TypeManager) (py_package : list string)
    (py_type : string) : string * TypeManager :=
  let distance_up := Z.of_nat (length (tm_package tm)) - Z.of_nat (length py_package) in
  match py_package with
  | _ :: _ =>
      let string_import := List.last py_package EmptyString in
      let string_alias := ("_" ++ repeat_str "_" distance_up ++ string_import)%string in
      let string_from := (".." ++ repeat_str "." distance_up)%string in
      ((String "034"%char (string_alias ++ "." ++ py_type ++ String "034"%char EmptyString))%string,
       add_import tm
         ("from " ++ string_from ++ " import " ++ string_import ++ " as "
          ++ string_alias)%string)
  | [] =>
      let string_alias := (repeat_str "_" distance_up ++ py_type)%string in
      (string_alias,
       add_import tm
         ("from ." ++ repeat_str "." distance_up ++ " import " ++ py_type ++ " as "
          ++ string_alias)%string)
  end.

Definition reference_cousin (tm : TypeManager) (py_package : list string)
    (py_type : string) : string * TypeManager :=
  let shared_ancestry := commonprefix (tm_package tm) py_package in
  let distance_up :=
    Z.of_nat (length (tm_package tm)) - Z.of_nat (length shared_ancestry) in
  let string_from :=
    ("." ++ repeat_str "." distance_up
     ++ String.concat "." (removelast (skipn (length shared_ancestry) py_package)))%string in
  let string_import := List.last py_package EmptyString in
  let string_alias :=
    (repeat_str "_" distance_up
     ++ safe_snake_case
          (String.concat "." (skipn (length shared_ancestry) py_package)))%string in
  ((string_alias ++ "." ++ py_type)%string,
   add_import tm
     ("from " ++ string_from ++ " import " ++ string_import ++ " as "
      ++ string_alias)%string).

Definition get_type_reference (tm : TypeManager) (source_type : string) (unwrap : bool)
  : string * TypeManager :=
  let resolve :=
    let '(source_package, source_type) := parse_source_type_name source_type in
    let py_package :=
      if String.eqb source_package "" then []
      else split_on "."%char source_package in
    let py_type := pythonize_class_name source_type in
    let compiling_google_protobuf :=
      bool_decide (tm_package tm = ["google"; "protobuf"]%string) in
    let importing_google_protobuf :=
      bool_decide (py_package = ["google"; "protobuf"]%string) in
    let py_package :=
      if importing_google_protobuf && negb compiling_google_protobuf
      then "cbiproto"%string :: "lib"%string :: py_package
      else py_package in
    if bool_decide (firstn 1 py_package = ["cbiproto"%string])
    then reference_absolute tm py_package py_type
    else if bool_decide (py_package = tm_package tm)
    then reference_sibling tm py_type
    else if starts_with py_package (tm_package tm)
    then reference_descendent tm py_package py_type
    else if starts_with (tm_package tm) py_package
    then reference_ancestor tm py_package py_type
    else reference_cousin tm py_package py_type in
  if unwrap then
    match wrapped_type_name source_type with
    | Some scalar => (("Optional[" ++ scalar ++ "]")%string, tm)
    | None =>
        if String.eqb source_type ".google.protobuf.Duration"
        then ("timedelta"%string, tm)
        else if String.eqb source_type ".google.protobuf.Timestamp"
        then ("datetime"%string, tm)
        else resolve
    end
  else resolve.
End TypeReference.

(** *** [Formatter] ([utils.py], [formatter.py]) *)

Record Formatter : Type := Build_Formatter {
  _indent_level : Z;
  _indent_str : string;
  _buffer : string
}.

(** [Formatter(indent_level, indent_str)] *)
Definition new_Formatter (indent_level : Z) (indent_str : string) : Formatter :=
  Build_Formatter indent_level indent_str "".

Definition write (f : Formatter) (s : string) : Formatter :=
  Build_Formatter (_indent_level f) (_indent_str f) (_buffer f ++ s).

Definition indent (f : Formatter) : Formatter :=
  write f (repeat_str (_indent_str f) (_indent_level f)).

Definition newline (f : Formatter) : Formatter :=
  write f (String "010"%char EmptyString).

Definition writeline (f : Formatter) (s : string) : Formatter :=
  newline (write (indent f) s).

Definition writelines (f : Formatter) (s : string) : Formatter :=
  fold_left writeline (split_on "010"%char s) f.

(** [with self.block(delta): body], for a body that ends without an
    exception. *)
Definition block (f : Formatter) (delta : Z) (body : Formatter -> Formatter) : Formatter :=
  let f := Build_Formatter (_indent_level f + delta) (_indent_str f) (_buffer f) in
  let f := body f in
  Build_Formatter (_indent_level f - delta) (_indent_str f) (_buffer f).

(** [with self.block_with_comment(comment): body] *)
Definition block_with_comment (f : Formatter) (comment : option string)
    (body : Formatter -> Formatter) : Formatter :=
  block f 1
    (fun f =>
       body (match comment with
             | Some c => if String.eqb c "" then f else writelines f c
             | None => f
             end)).

End Plugin.

(** * Example classes *)

Module Examples.
Import Runtime.

(** [message Foo { int32 x = 1; }] *)
Definition Foo : MessageClass :=
  Build_MessageClass "Foo" [("x"%string, proto_field 1 TYPE_INT32, t_int)].

(** [message M { oneof o { string a = 1; int32 b = 2; } }] *)
Definition M : MessageClass :=
  Build_MessageClass "M"
    [("a"%string, oneof_field 1 TYPE_STRING "o", t_str);
     ("b"%string, oneof_field 2 TYPE_INT32 "o", t_int)].

(** [message Tagged { string name = 1; repeated string tags = 2; }] *)
Definition Tagged : MessageClass :=
  Build_MessageClass "Tagged"
    [("name"%string, proto_field 1 TYPE_STRING, t_str);
     ("tags"%string, proto_field 2 TYPE_STRING, t_List t_str)].

(** [message Counts { map<string, int32> m = 1; }] *)
Definition Counts : MessageClass :=
  Build_MessageClass "Counts"
    [("m"%string, map_field 1 TYPE_STRING TYPE_INT32, t_Dict t_str t_int)].

(** [message Labels { map<string, string> labels = 1; }] *)
Definition Labels : MessageClass :=
  Build_MessageClass "Labels"
    [("labels"%string, map_field 1 TYPE_STRING TYPE_STRING, t_Dict t_str t_str)].

(** [Tagged(tags=[""])]: one tag, the empty string. *)
Definition tagged_empty : Message :=
  construct Tagged [("tags"%string, VList [VStr []])].

(** [Counts(m={"k": 3})] *)
Definition counts_k3 : Message :=
  construct Counts [("m"%string, VDict [(VStr ["k"%byte], VInt 3)])].

(** [Labels(labels={"": ""})] *)
Definition labels_empty : Message :=
  construct Labels [("labels"%string, VDict [(VStr [], VStr [])])].

(** A file of package [p] with [message A { enum E {} message B {} }],
    an enumeration [Z] and a service. *)
Definition nested_file : Plugin.FileDescriptorProto :=
  Plugin.Build_FileDescriptorProto "a.proto" "p"
    [Plugin.Build_DescriptorProto "A" []
       [Plugin.Build_DescriptorProto "B" [] [] [] false]
       [Plugin.Build_EnumDescriptorProto "E" []] false]
    [Plugin.Build_EnumDescriptorProto "Z" []]
    [Plugin.Build_ServiceDescriptorProto "S" []]
    [].

End Examples.

(** * Notions used in the statements *)

(** The byte at [pos] exists and has its continuation bit set, or clear. *)
Definition continues (buffer : bytes) (pos : Z) : Prop :=
  exists b, getitem buffer pos = Some b /\ Z.land (byte_val b) 0x80 <> 0.

Definition ends (buffer : bytes) (pos : Z) : Prop :=
  exists b, getitem buffer pos = Some b /\ Z.land (byte_val b) 0x80 = 0.

(** The field is the selected one of its one-of group. *)
Definition selected_in_group (m : Runtime.Message) (field_name : string)
    (meta : Runtime.FieldMetadata) : Prop :=
  exists g, Runtime.group meta = Some g
            /\ Runtime._group_current m !! g = Some (Some field_name).

(** The group of the field has its entry in [_group_current], as it has
    from [__post_init__] on. *)
Definition group_known (m : Runtime.Message) (meta : Runtime.FieldMetadata) : Prop :=
  forall g, Runtime.oneof_group meta = Some g ->
            is_Some (Runtime._group_current m !! g).

(** The lines that a sequence of references adds to [_imports]. *)
Definition import_lines (rs : list Plugin.reference) : list string :=
  flat_map
    (fun r =>
       match r with
       | Plugin.ModuleImport module _ => [("import " ++ module)%string]
       | Plugin.ImportLine line => [line]
       | Plugin.FromImport _ _ => []
       end)
    rs.

(** An order in which the interpreter may iterate a set: some listing of
    its elements. *)
Definition iteration_order (iter_set : list string -> list string) : Prop :=
  forall s, Permutation (iter_set s) s.

(** [x] stands before [y] in [l]. *)
Definition precedes {A} (x y : A) (l : list A) : Prop :=
  exists l1 l2 l3, l = l1 ++ x :: l2 ++ y :: l3.

Definition reads_enum (r : string * (Plugin.item * list Z)) : Prop :=
  match r with
  | (_, (Plugin.ItemEnum _, _)) => True
  | (_, (Plugin.ItemMessage _, _)) => False
  end.

Definition reads_message (r : string * (Plugin.item * list Z)) : Prop :=
  match r with
  | (_, (Plugin.ItemMessage _, _)) => True
  | (_, (Plugin.ItemEnum _, _)) => False
  end.

(** The order "enumerations, then messages". *)
Definition enums_then_messages (l : list (string * (Plugin.item * list Z))) : Prop :=
  exists l1 l2, l = l1 ++ l2 /\ Forall reads_enum l1 /\ Forall reads_message l2.

(** In what an output package holds, the types come before the services. *)
Definition types_then_services (t : Plugin.OutputTemplate) : Prop :=
  exists cs ss,
    Plugin.created t
    = map Plugin.EType cs ++ map (fun '(s, path) => Plugin.EService s path) ss.


(** ** Notions of the further properties *)

Definition fixed_layout (t : Runtime.proto_type) : option (nat * Z * Z * Z) :=
  match t with
  | Runtime.TYPE_FIXED32 => Some (4%nat, 0, 2 ^ 32, Wire.WIRE_FIXED_32)
  | Runtime.TYPE_SFIXED32 => Some (4%nat, - 2 ^ 31, 2 ^ 31, Wire.WIRE_FIXED_32)
  | Runtime.TYPE_FIXED64 => Some (8%nat, 0, 2 ^ 64, Wire.WIRE_FIXED_64)
  | Runtime.TYPE_SFIXED64 => Some (8%nat, - 2 ^ 63, 2 ^ 63, Wire.WIRE_FIXED_64)
  | _ => None
  end.

(** The shape of a parsed field: the payload kind follows the wire type. *)
Definition well_shaped (f : Wire.ParsedField) : Prop :=
  0 <= Wire.number f /\ 0 <= Wire.wire_type f < 8
  /\ match Wire.value f with
     | Wire.DInt z => Wire.wire_type f = Wire.WIRE_VARINT /\ 0 <= z
     | Wire.DBytes p =>
         (Wire.wire_type f = Wire.WIRE_FIXED_64 /\ (length p <= 8)%nat)
         \/ Wire.wire_type f = Wire.WIRE_LEN_DELIM
         \/ (Wire.wire_type f = Wire.WIRE_FIXED_32 /\ (length p <= 4)%nat)
     | Wire.DNone =>
         Wire.wire_type f <> Wire.WIRE_VARINT /\ Wire.wire_type f <> Wire.WIRE_FIXED_64
         /\ Wire.wire_type f <> Wire.WIRE_LEN_DELIM
         /\ Wire.wire_type f <> Wire.WIRE_FIXED_32
     end.

(** The field belongs to the one-of group [g]. *)
Definition in_group (g : string) (f : string * Runtime.FieldMetadata) : bool :=
  bool_decide (Runtime.oneof_group (snd f) = Some g).

(** The field was given a value that is not a sentinel. *)
Definition given (kwargs : list (string * Runtime.py_value))
    (f : string * Runtime.FieldMetadata) : bool :=
  Runtime.non_sentinel (snd f) (Runtime.init_value kwargs (fst f) (snd f)).

(** The class declares a field, with a name that is not empty, for this
    number. *)
Definition known_number (c : Runtime.MessageClass) (n : Z) : bool :=
  match Runtime.field_name_by_number c n with
  | Some f => negb (String.eqb f "")
  | None => false
  end.

Definition unknown_raw (c : Runtime.MessageClass) (fields : list Wire.ParsedField) : bytes :=
  concat (map Wire.raw
            (List.filter (fun p => negb (known_number c (Wire.number p))) fields)).

(** Every field declared [optional] has an [Optional] type hint, as in
    generated classes. *)
Definition optional_hints (c : Runtime.MessageClass) : Prop :=
  forall n meta t, In (n, meta, t) (Runtime.cls_fields c) ->
    Runtime.optional meta = true -> exists a, t = Runtime.t_Optional a.

(** What holds of a type compiler [c] made after the compilers [pre]: its
    parent was made before it, and it is no map entry. *)
Definition well_parented (pre : list Plugin.compiled_type) (c : Plugin.compiled_type)
  : Prop :=
  Plugin.rsplit_head (Plugin.qualname c) = Plugin.parent c
  /\ (forall p, Plugin.parent c = Some p -> In p (map Plugin.qualname pre))
  /\ ~ In (Plugin.qualname c) (map Plugin.qualname pre)
  /\ (forall m, Plugin.proto_obj c = Plugin.ItemMessage m -> Plugin.map_entry m = false).

(** A loop over [fields] that makes the type compiler [c] when every turn
    passes: [result] is [c] when no turn raises, and otherwise the
    exception of the first turn that raises. *)
Definition made_unless_raised (step : Plugin.FieldDescriptorProto -> outcome unit)
    (fields : list Plugin.FieldDescriptorProto)
    (result : outcome (option Plugin.compiled_type)) (c : Plugin.compiled_type) : Prop :=
  (List.Forall (fun x => step x = Ok ()) fields -> result = Ok (Some c))
  /\ (forall e,
        result = Raise e
        <-> exists pre x post,
              fields = pre ++ x :: post
              /\ List.Forall (fun y => step y = Ok ()) pre
              /\ step x = Raise e).

(** The field types for which [py_type] has an answer. *)
Definition mapped_types : list Z :=
  Plugin.PROTO_FLOAT_TYPES ++ Plugin.PROTO_INT_TYPES ++ Plugin.PROTO_BOOL_TYPES
  ++ Plugin.PROTO_STR_TYPES ++ Plugin.PROTO_BYTES_TYPES ++ Plugin.PROTO_MESSAGE_TYPES.

(** The file is one that [generate_code] puts in an output package: not a
    skipped [google.protobuf] file, and with a message, an enumeration or
    a service. *)
Definition kept (plugin_options : Plugin.PluginOptions)
    (proto : Plugin.FileDescriptorProto) : bool :=
  negb (String.eqb (Plugin.package proto) "google.protobuf"
        && negb (Plugin.include_google plugin_options))
  && negb (match Plugin.file_message_type proto, Plugin.file_enum_type proto,
                 Plugin.service proto with
           | [], [], [] => true
           | _, _, _ => false
           end).

(** No character of the string is in [A-Z]. *)
Fixpoint no_upper (s : string) : bool :=
  match s with
  | EmptyString => true
  | String c r => negb (Plugin.is_upper c) && no_upper r
  end.

(** The string has no line feed. *)
Fixpoint one_line (s : string) : bool :=
  match s with
  | EmptyString => true
  | String c r => negb (Ascii.eqb c "010"%char) && one_line r
  end.

(** The integers that a varint field of the type holds and reads back. *)
Definition varint_range (t : Runtime.proto_type) (n : Z) : Prop :=
  match t with
  | Runtime.TYPE_INT64 | Runtime.TYPE_SINT64 | Runtime.TYPE_SINT32 =>
      - 2 ^ 63 <= n < 2 ^ 63
  | Runtime.TYPE_INT32 => - 2 ^ 31 <= n < 2 ^ 31
  | Runtime.TYPE_UINT32 | Runtime.TYPE_UINT64 | Runtime.TYPE_ENUM => 0 <= n < 2 ^ 64
  | _ => False
  end.

(** * Properties *)

(** ** Bytes and slices *)

Lemma byte_val_range (b : byte) : 0 <= byte_val b < 256.
Proof.
  unfold byte_val. pose proof (Byte.to_N_bounded b). lia.
Qed.

Lemma byte_val_of (z : Z) : 0 <= z < 256 -> byte_val (byte_of z) = z.
Proof.
  intros Hz. unfold byte_val, byte_of.
  destruct (Byte.of_N (Z.to_N z)) as [b|] eqn:E.
  - apply Byte.to_of_N in E. rewrite E. lia.
  - apply Byte.of_N_None_iff in E. lia.
Qed.

Lemma getitem_app (pre post : bytes) (b : byte) :
  getitem (pre ++ b :: post) (len pre) = Some b.
Proof.
  unfold getitem, len.
  destruct (Z.leb_spec 0 (Z.of_nat (length pre))); [|lia].
  rewrite Nat2Z.id.
  rewrite nth_error_app2 by lia.
  replace (length pre - length pre)%nat with 0%nat by lia. reflexivity.
Qed.

Lemma len_app (a b : bytes) : len (a ++ b) = len a + len b.
Proof. unfold len. rewrite length_app. lia. Qed.

Lemma len_nonneg (a : bytes) : 0 <= len a.
Proof. unfold len. lia. Qed.

(** ** Arithmetic of the seven-bit groups *)

Lemma land_127 (v : Z) : Z.land v 0x7F = v mod 128.
Proof. change 0x7F with (Z.ones 7). rewrite Z.land_ones by lia. reflexivity. Qed.

Lemma shiftr_7 (v : Z) : Z.shiftr v 7 = v / 128.
Proof. rewrite Z.shiftr_div_pow2 by lia. reflexivity. Qed.

Lemma lor_shiftl_add (r x s : Z) :
  0 <= s -> 0 <= r < 2 ^ s -> Z.lor r (Z.shiftl x s) = r + x * 2 ^ s.
Proof.
  intros Hs Hr.
  assert (H0 : Z.land r (Z.shiftl x s) = 0).
  { apply Z.bits_inj'. intros n Hn.
    rewrite Z.land_spec, Z.bits_0.
    destruct (Z.lt_ge_cases n s) as [Hlt|Hge].
    - rewrite Z.shiftl_spec_low by assumption. apply andb_false_r.
    - replace (Z.testbit r n) with false; [reflexivity|].
      symmetry. rewrite <- (Z.mod_small r (2 ^ s)) by assumption.
      apply Z.mod_pow2_bits_high. lia. }
  rewrite <- Z.lxor_lor by assumption.
  rewrite <- Z.add_nocarry_lxor by assumption.
  rewrite Z.shiftl_mul_pow2 by assumption. reflexivity.
Qed.

Lemma group_low (bits : Z) : 0 <= bits < 128 -> Z.land bits 0x7F = bits.
Proof. intros H. rewrite land_127. apply Z.mod_small. assumption. Qed.

Lemma group_last (bits : Z) : 0 <= bits < 128 -> Z.land bits 0x80 = 0.
Proof.
  intros H. apply Z.bits_inj'. intros n Hn.
  rewrite Z.land_spec, Z.bits_0.
  change 0x80 with (2 ^ 7). rewrite Z.pow2_bits_eqb by lia.
  destruct (Z.eqb_spec 7 n) as [<-|Hne]; [|apply andb_false_r].
  replace (Z.testbit bits 7) with false; [reflexivity|].
  symmetry. rewrite <- (Z.mod_small bits (2 ^ 7)) by (change (2 ^ 7) with 128; lia).
  apply Z.mod_pow2_bits_high. lia.
Qed.

Lemma group_more (bits : Z) :
  0 <= bits < 128 ->
  0 <= Z.lor 0x80 bits < 256
  /\ Z.land (Z.lor 0x80 bits) 0x7F = bits
  /\ Z.land (Z.lor 0x80 bits) 0x80 <> 0.
Proof.
  intros H.
  assert (E : Z.lor 0x80 bits = bits + 128).
  { rewrite Z.lor_comm.
    pose proof (lor_shiftl_add bits 1 7) as L. change (Z.shiftl 1 7) with 128 in L.
    change (2 ^ 7) with 128 in L. rewrite L; lia. }
  rewrite E. split; [lia|]. split.
  - rewrite land_127. replace (bits + 128) with (bits + 1 * 128) by lia.
    rewrite Z.mod_add by lia. apply Z.mod_small. assumption.
  - intros H0.
    assert (Hb : Z.testbit (Z.land (bits + 128) 0x80) 7 = false)
      by (rewrite H0; apply Z.bits_0).
    rewrite Z.land_spec in Hb. change (Z.testbit 0x80 7) with true in Hb.
    rewrite andb_true_r in Hb.
    assert (Ht : Z.testbit (bits + 128) 7 = true).
    { apply Z.testbit_true; [lia|]. change (2 ^ 7) with 128.
      replace (bits + 128) with (bits + 1 * 128) by lia.
      rewrite Z.div_add by lia. rewrite Z.div_small by lia. reflexivity. }
    congruence.
Qed.

(** ** [encode_varint] and [decode_varint] *)

Section VarintFacts.
Import Wire.

Lemma encode_varint_loop_acc (fuel : nat) : forall bits value b,
  encode_varint_loop fuel bits value b
  = (fun out => b ++ out) <$> encode_varint_loop fuel bits value [].
Proof.
  induction fuel as [|fuel IH]; intros bits value b; simpl.
  - destruct (value =? 0); reflexivity.
  - destruct (value =? 0); [reflexivity|].
    rewrite (IH _ _ (b ++ _)), (IH _ _ [_]).
    destruct (encode_varint_loop fuel _ _ []) as [out|e]; simpl; [|reflexivity].
    rewrite <- app_assoc. reflexivity.
Qed.

(** A non-negative value never reaches the bound of the loop. *)
Lemma encode_varint_loop_enough (fuel : nat) : forall bits value,
  0 <= value -> value = 0 \/ Z.log2 value < Z.of_nat fuel ->
  exists out, encode_varint_loop fuel bits value [] = Ok out.
Proof.
  induction fuel as [|fuel IH]; intros bits value Hv Hf; simpl.
  - destruct (Z.eqb_spec value 0) as [->|Hne]; [eauto|].
    destruct Hf as [?|Hf]; [contradiction|].
    pose proof (Z.log2_nonneg value). lia.
  - destruct (Z.eqb_spec value 0) as [->|Hne]; [eauto|].
    rewrite encode_varint_loop_acc.
    destruct (IH (Z.land value 0x7F) (Z.shiftr value 7)) as [out Hout].
    + apply Z.shiftr_nonneg. assumption.
    + destruct Hf as [?|Hf]; [contradiction|].
      destruct (Z.eq_dec (Z.shiftr value 7) 0) as [E|E]; [left; assumption|right].
      rewrite Z.log2_shiftr by lia.
      assert (0 < Z.log2 (Z.shiftr value 7) \/ Z.log2 (Z.shiftr value 7) = 0) as [H|H]
        by (pose proof (Z.log2_nonneg (Z.shiftr value 7)); lia).
      * rewrite Z.log2_shiftr in H by lia. lia.
      * rewrite Z.log2_shiftr in H by lia.
        assert (Hs : 0 < Z.shiftr value 7)
          by (pose proof (Z.shiftr_nonneg value 7); lia).
        rewrite shiftr_7 in Hs.
        assert (128 <= value).
        { destruct (Z.lt_ge_cases value 128) as [Hlt|]; [|assumption].
          rewrite Z.div_small in Hs by lia. lia. }
        assert (Z.log2 128 <= Z.log2 value) by (apply Z.log2_le_mono; lia).
        change (Z.log2 128) with 7 in *. lia.
    + rewrite Hout. simpl. eauto.
Qed.

(** A value still negative after the adjustment reaches every bound. *)
Lemma encode_varint_loop_negative (fuel : nat) : forall bits value b,
  value < 0 -> encode_varint_loop fuel bits value b = Raise OutOfFuel.
Proof.
  induction fuel as [|fuel IH]; intros bits value b Hv; simpl.
  - destruct (Z.eqb_spec value 0); [lia|reflexivity].
  - destruct (Z.eqb_spec value 0); [lia|].
    apply IH. apply Z.shiftr_neg. assumption.
Qed.

Lemma encode_varint_loop_length (fuel : nat) : forall (k : nat) bits value out,
  0 <= value < 2 ^ (7 * Z.of_nat k) ->
  encode_varint_loop fuel bits value [] = Ok out ->
  (length out <= k + 1)%nat.
Proof.
  induction fuel as [|fuel IH]; intros k bits value out Hv; simpl.
  - destruct (Z.eqb_spec value 0); [|discriminate].
    intros [= <-]. simpl. lia.
  - destruct (Z.eqb_spec value 0) as [->|Hne].
    + intros [= <-]. simpl. lia.
    + rewrite encode_varint_loop_acc.
      destruct (encode_varint_loop fuel _ _ []) as [out'|e] eqn:E; simpl; [|discriminate].
      intros [= <-]. simpl.
      destruct k as [|k]; [simpl in Hv; lia|].
      apply (IH k) in E; [lia|].
      rewrite shiftr_7. split; [apply Z.div_pos; lia|].
      apply Z.div_lt_upper_bound; [lia|].
      replace (7 * Z.of_nat (S k)) with (7 + 7 * Z.of_nat k) in Hv by lia.
      rewrite Z.pow_add_r in Hv by lia. change (2 ^ 7) with 128 in Hv. lia.
Qed.

(** Decoding what the loop of the encoder wrote, in the middle of a buffer
    and with [result] and [shift] as a previous group left them. *)
Lemma decode_encode_loop (fuel : nat) : forall bits value out,
  0 <= bits < 128 -> 0 <= value ->
  encode_varint_loop fuel bits value [] = Ok out ->
  forall (dfuel : nat) (pre post : bytes) (r s : Z),
    0 <= s -> 0 <= r < 2 ^ s ->
    (length out <= dfuel)%nat ->
    s + 7 * Z.of_nat (length out) < 71 ->
    decode_varint_loop dfuel (pre ++ map byte_of out ++ post) r s (len pre)
    = Ok (r + (bits + 128 * value) * 2 ^ s, len pre + Z.of_nat (length out)).
Proof.
  induction fuel as [|fuel IH]; intros bits value out Hb Hv Henc dfuel pre post r s Hs Hr Hd Hsh.
  - simpl in Henc. destruct (Z.eqb_spec value 0) as [->|]; [|discriminate].
    injection Henc as <-. simpl in *.
    destruct dfuel as [|dfuel]; [lia|]. simpl.
    rewrite getitem_app. rewrite byte_val_of by lia.
    rewrite group_low, group_last by assumption. simpl.
    rewrite lor_shiftl_add by assumption. f_equal. f_equal; lia.
  - simpl in Henc. destruct (Z.eqb_spec value 0) as [->|Hne].
    + injection Henc as <-. simpl in *.
      destruct dfuel as [|dfuel]; [lia|]. simpl.
      rewrite getitem_app. rewrite byte_val_of by lia.
      rewrite group_low, group_last by assumption. simpl.
      rewrite lor_shiftl_add by assumption. f_equal. f_equal; lia.
    + rewrite encode_varint_loop_acc in Henc.
      destruct (encode_varint_loop fuel _ _ []) as [out'|e] eqn:E; simpl in Henc; [|discriminate].
      injection Henc as <-. simpl in Hd, Hsh.
      destruct (group_more bits Hb) as (Hrange & Hlow & Hhigh).
      destruct dfuel as [|dfuel]; [lia|].
      cbn [decode_varint_loop map app].
      rewrite getitem_app. rewrite byte_val_of by assumption.
      rewrite Hlow. destruct (Z.eqb_spec (Z.land (Z.lor 0x80 bits) 0x80) 0); [contradiction|].
      assert (Hlen : (1 <= length out')%nat).
      { destruct fuel; simpl in E; destruct (Z.shiftr value 7 =? 0);
          try discriminate; try (injection E as <-; simpl; lia).
        rewrite encode_varint_loop_acc in E.
        destruct (encode_varint_loop fuel _ _ []); simpl in E; [|discriminate].
        injection E as <-. simpl. lia. }
      destruct (s + 7 >=? 64) eqn:Es; [lia|].
      replace (pre ++ byte_of (Z.lor 0x80 bits) :: map byte_of out' ++ post)
        with ((pre ++ [byte_of (Z.lor 0x80 bits)]) ++ map byte_of out' ++ post)
        by (rewrite <- app_assoc; reflexivity).
      replace (len pre + 1) with (len (pre ++ [byte_of (Z.lor 0x80 bits)]))
        by (rewrite len_app; reflexivity).
      rewrite lor_shiftl_add by assumption.
      assert (Hp : 2 ^ (s + 7) = 2 ^ s * 128)
        by (rewrite Z.pow_add_r by lia; reflexivity).
      assert (Hm : 0 <= value mod 128 < 128) by (apply Z.mod_pos_bound; lia).
      assert (Hq : 0 <= Z.shiftr value 7) by (apply Z.shiftr_nonneg; assumption).
      rewrite land_127 in E.
      rewrite (IH _ _ _ Hm Hq E).
      * rewrite len_app. rewrite shiftr_7, Hp.
        pose proof (Z.div_mod value 128 ltac:(lia)) as Hdm.
        f_equal. f_equal.
        -- nia.
        -- unfold len. simpl. lia.
      * lia.
      * rewrite Hp. nia.
      * lia.
      * lia.
Qed.

End VarintFacts.
Section VarintRoundTrip.
Import Wire Runtime.

(** What [decode_varint] reads back from [encode_varint n]: [n] as an
    unsigned 64-bit number. *)
Lemma encode_decode_raw (n : Z) :
  - 2 ^ 64 <= n < 2 ^ 64 ->
  exists b, encode_varint n = Ok b
    /\ forall pre post,
         decode_varint (pre ++ b ++ post) (len pre)
         = Ok (n mod 2 ^ 64, len pre + len b).
Proof.
  intros Hn. unfold encode_varint.
  change (Z.shiftl 1 64) with (2 ^ 64).
  set (v := if n <? 0 then n + 2 ^ 64 else n).
  assert (Hv : 0 <= v < 2 ^ 64 /\ v = n mod 2 ^ 64).
  { subst v. destruct (Z.ltb_spec n 0).
    - split; [lia|]. apply Z.mod_unique with (q := -1); lia.
    - split; [lia|]. symmetry. apply Z.mod_small. lia. }
  destruct Hv as [Hv Hmod].
  assert (Hq : 0 <= Z.shiftr v 7) by (apply Z.shiftr_nonneg; lia).
  destruct (encode_varint_loop_enough (S (Z.to_nat (Z.log2 v))) (Z.land v 0x7F)
              (Z.shiftr v 7) Hq) as [out Hout].
  { right.
    assert (Z.log2 (Z.shiftr v 7) <= Z.log2 v).
    { apply Z.log2_le_mono. rewrite shiftr_7.
      apply Z.div_le_upper_bound; lia. }
    pose proof (Z.log2_nonneg v). lia. }
  rewrite Hout. simpl. exists (map byte_of out). split; [reflexivity|].
  intros pre post.
  assert (Hlen : (length out <= 9 + 1)%nat).
  { apply (encode_varint_loop_length _ 9 _ _ _) in Hout; [assumption|].
    split; [assumption|]. rewrite shiftr_7.
    apply Z.div_lt_upper_bound; [lia|]. simpl. lia. }
  assert (Hg : 0 <= Z.land v 0x7F < 128)
    by (rewrite land_127; apply Z.mod_pos_bound; lia).
  unfold decode_varint.
  rewrite (decode_encode_loop _ _ _ _ Hg Hq Hout 10 pre post 0 0); try lia.
  f_equal. f_equal.
    + rewrite land_127, shiftr_7, <- Hmod.
      pose proof (Z.div_mod v 128 ltac:(lia)). simpl. lia.
    + unfold len. rewrite length_map. reflexivity.
Qed.

Lemma lxor_shiftl_add (r x s : Z) :
  0 <= s -> 0 <= r < 2 ^ s -> Z.lxor r (Z.shiftl x s) = r + x * 2 ^ s.
Proof.
  intros Hs Hr. rewrite <- lor_shiftl_add by assumption.
  apply Z.lxor_lor.
  apply Z.bits_inj'. intros n Hn.
  rewrite Z.land_spec, Z.bits_0.
  destruct (Z.lt_ge_cases n s) as [Hlt|Hge].
  - rewrite Z.shiftl_spec_low by assumption. apply andb_false_r.
  - replace (Z.testbit r n) with false; [reflexivity|].
    symmetry. rewrite <- (Z.mod_small r (2 ^ s)) by assumption.
    apply Z.mod_pow2_bits_high. lia.
Qed.

(** The sign extension of [_postprocess_single] is the two's-complement
    reading of the low [bits] bits. *)
Lemma sign_extend_spec (bits x : Z) :
  1 <= bits ->
  sign_extend bits x
  = if x mod 2 ^ bits <? 2 ^ (bits - 1) then x mod 2 ^ bits
    else x mod 2 ^ bits - 2 ^ bits.
Proof.
  intros Hb. unfold sign_extend.
  rewrite Z.shiftl_1_l.
  replace (2 ^ bits - 1) with (Z.ones bits) by (rewrite Z.ones_equiv; lia).
  rewrite Z.land_ones by lia.
  set (v := x mod 2 ^ bits).
  assert (Hv : 0 <= v < 2 ^ bits) by (apply Z.mod_pos_bound; lia).
  assert (Hp : 2 ^ bits = 2 * 2 ^ (bits - 1)).
  { replace bits with (1 + (bits - 1)) at 1 by lia.
    rewrite Z.pow_add_r by lia. reflexivity. }
  destruct (Z.ltb_spec v (2 ^ (bits - 1))) as [Hlt|Hge].
  - rewrite lxor_shiftl_add by lia. rewrite Z.shiftl_1_l. lia.
  - set (r := v - 2 ^ (bits - 1)).
    assert (Hr : 0 <= r < 2 ^ (bits - 1)) by (subst r; lia).
    replace v with (Z.lxor r (Z.shiftl 1 (bits - 1)))
      by (rewrite lxor_shiftl_add by lia; subst r; lia).
    rewrite Z.lxor_assoc, Z.lxor_nilpotent, Z.lxor_0_r.
    rewrite lxor_shiftl_add by lia. rewrite Z.shiftl_1_l. subst r. lia.
Qed.

Lemma zigzag_spec (n : Z) : zigzag n = if n >=? 0 then 2 * n else - 2 * n - 1.
Proof.
  unfold zigzag. rewrite Z.shiftl_mul_pow2 by lia.
  destruct (n >=? 0); [lia|].
  change (Z.lnot 0) with (-1). rewrite Z.lxor_m1_r.
  unfold Z.lnot. lia.
Qed.

Lemma land_1 (x : Z) : Z.land x 1 = x mod 2.
Proof. change 1 with (Z.ones 1). rewrite Z.land_ones by lia. reflexivity. Qed.

Lemma unzigzag_zigzag (n : Z) : unzigzag (zigzag n) = n.
Proof.
  rewrite zigzag_spec. unfold unzigzag.
  rewrite land_1, Z.shiftr_div_pow2 by lia. change (2 ^ 1) with 2.
  destruct (Z.geb_spec n 0).
  - replace (2 * n) with (n * 2) by lia.
    rewrite Z.div_mul, Z_mod_mult by lia. simpl. apply Z.lxor_0_r.
  - replace (- 2 * n - 1) with (1 + (- n - 1) * 2) by lia.
    rewrite Z.div_add, Z.mod_add by lia.
    change (1 / 2) with 0. change (1 mod 2) with 1. change (- (1)) with (-1).
    rewrite Z.lxor_m1_r. unfold Z.lnot. lia.
Qed.

End VarintRoundTrip.

(** ** C4: varints and zig-zag round-trip *)

Section C4.
Import Wire Runtime.

(** C4, as amended. For every integer [n] in [-2^63, 2^63): the varint
    that [_preprocess_single] writes for [n] (a negative [n] as its 64-bit
    two's complement) is read back by [decode_varint], wherever it stands
    in a buffer, and [_postprocess_single] returns from it: [n] for an
    [int64] field, by sign extension, and for [sint32] and [sint64]
    fields, by undoing the zig-zag; for an [int32] field the low 32 bits
    of [n] sign-extended, which is [n] exactly when [n] is in
    [-2^31, 2^31). *)
Theorem varint_round_trip (n : Z) :
  - 2 ^ 63 <= n < 2 ^ 63 ->
  forall (t : proto_type),
    t = TYPE_INT32 \/ t = TYPE_INT64 \/ t = TYPE_SINT32 \/ t = TYPE_SINT64 ->
    forall to_bytes from_bytes proto_meta field_number field_name,
    exists b,
      _preprocess_single to_bytes t None (VInt n) = Ok b
      /\ forall pre post, exists raw r,
           decode_varint (pre ++ b ++ post) (len pre) = Ok (raw, len pre + len b)
           /\ _postprocess_single from_bytes proto_meta WIRE_VARINT
                (proto_field field_number t) field_name (VInt raw)
              = Ok (VInt r)
           /\ r = match t with
                  | TYPE_INT32 => (n + 2 ^ 31) mod 2 ^ 32 - 2 ^ 31
                  | _ => n
                  end
           /\ (r = n <-> (t = TYPE_INT32 -> - 2 ^ 31 <= n < 2 ^ 31)).
Proof.
  intros Hn t Ht to_bytes from_bytes proto_meta field_number field_name.
  assert (Hz : 0 <= zigzag n < 2 ^ 64).
  { rewrite zigzag_spec. destruct (Z.geb_spec n 0); lia. }
  destruct Ht as [-> | [-> | [-> | ->]]].
  - destruct (encode_decode_raw n ltac:(lia)) as (b & Hb & Hdec).
    exists b. split; [exact Hb|]. intros pre post.
    exists (n mod 2 ^ 64), ((n + 2 ^ 31) mod 2 ^ 32 - 2 ^ 31).
    split; [apply Hdec|].
    assert (Hr : - 2 ^ 31 <= (n + 2 ^ 31) mod 2 ^ 32 - 2 ^ 31 < 2 ^ 31)
      by (pose proof (Z.mod_pos_bound (n + 2 ^ 31) (2 ^ 32) ltac:(lia)); lia).
    split; [|split; [reflexivity|]].
    + unfold _postprocess_single. simpl proto_type_of.
      change (WIRE_VARINT =? WIRE_VARINT) with true. cbv iota.
      unfold postprocess_varint. rewrite sign_extend_spec by lia.
      f_equal. f_equal.
      assert (E : (n mod 2 ^ 64) mod 2 ^ 32 = n mod 2 ^ 32).
      { apply Z.mod_mod_divide. exists (2 ^ 32). reflexivity. }
      rewrite E.
      pose proof (Z.mod_pos_bound n (2 ^ 32) ltac:(lia)) as Hm.
      destruct (Z.ltb_spec (n mod 2 ^ 32) (2 ^ (32 - 1))) as [Hlt|Hge].
      * replace ((n + 2 ^ 31) mod 2 ^ 32) with (n mod 2 ^ 32 + 2 ^ 31); [lia|].
        rewrite <- (Zplus_mod_idemp_l n). symmetry. apply Z.mod_small. lia.
      * replace ((n + 2 ^ 31) mod 2 ^ 32) with (n mod 2 ^ 32 - 2 ^ 31); [lia|].
        rewrite <- (Zplus_mod_idemp_l n).
        apply Z.mod_unique with (q := 1); lia.
    + split.
      * intros E _. lia.
      * intros H. specialize (H eq_refl).
        rewrite Z.mod_small by lia. lia.
  - destruct (encode_decode_raw n ltac:(lia)) as (b & Hb & Hdec).
    exists b. split; [exact Hb|]. intros pre post.
    exists (n mod 2 ^ 64), n. split; [apply Hdec|].
    split; [|split; [reflexivity|split; [discriminate|reflexivity]]].
    unfold _postprocess_single. simpl proto_type_of.
    change (WIRE_VARINT =? WIRE_VARINT) with true. cbv iota.
    unfold postprocess_varint. rewrite sign_extend_spec by lia.
    rewrite Z.mod_mod by lia. f_equal. f_equal.
    destruct (Z.lt_ge_cases n 0).
    + replace (n mod 2 ^ 64) with (n + 2 ^ 64)
        by (apply Z.mod_unique with (q := -1); lia).
      destruct (Z.ltb_spec (n + 2 ^ 64) (2 ^ (64 - 1))); lia.
    + rewrite Z.mod_small by lia.
      destruct (Z.ltb_spec n (2 ^ (64 - 1))); lia.
  - destruct (encode_decode_raw (zigzag n) ltac:(lia)) as (b & Hb & Hdec).
    exists b. split; [exact Hb|]. intros pre post.
    exists (zigzag n), n. split.
    + rewrite Hdec. rewrite Z.mod_small by lia. reflexivity.
    + split; [|split; [reflexivity|split; [discriminate|reflexivity]]].
      unfold _postprocess_single. simpl proto_type_of.
      change (WIRE_VARINT =? WIRE_VARINT) with true. cbv iota.
      unfold postprocess_varint. rewrite unzigzag_zigzag. reflexivity.
  - destruct (encode_decode_raw (zigzag n) ltac:(lia)) as (b & Hb & Hdec).
    exists b. split; [exact Hb|]. intros pre post.
    exists (zigzag n), n. split.
    + rewrite Hdec. rewrite Z.mod_small by lia. reflexivity.
    + split; [|split; [reflexivity|split; [discriminate|reflexivity]]].
      unfold _postprocess_single. simpl proto_type_of.
      change (WIRE_VARINT =? WIRE_VARINT) with true. cbv iota.
      unfold postprocess_varint. rewrite unzigzag_zigzag. reflexivity.
Qed.

Lemma varint_round_trip_witness :
  exists b,
    _preprocess_single (fun _ => Ok []) TYPE_INT32 None (VInt (2 ^ 31 + 5)) = Ok b
    /\ forall pre post, exists raw r,
         decode_varint (pre ++ b ++ post) (len pre) = Ok (raw, len pre + len b)
         /\ _postprocess_single (fun _ _ => Raise Unmodelled)
              (Build_MessageClass "Foo" []) WIRE_VARINT
              (proto_field 1 TYPE_INT32) "x" (VInt raw)
            = Ok (VInt r)
         /\ r = (2 ^ 31 + 5 + 2 ^ 31) mod 2 ^ 32 - 2 ^ 31
         /\ (r = 2 ^ 31 + 5 <-> (TYPE_INT32 = TYPE_INT32 -> - 2 ^ 31 <= 2 ^ 31 + 5 < 2 ^ 31)).
Proof.
  apply (varint_round_trip (2 ^ 31 + 5)); [lia|].
  left. reflexivity.
Defined.

(** C4 as stated fails for an [int32] field: [2^31] lies in
    [-2^63, 2^63), its varint is the five bytes [80 80 80 80 08], and
    [_postprocess_single] reads them back as [-2^31]. *)
Lemma int32_round_trip_fails :
  - 2 ^ 63 <= 2 ^ 31 < 2 ^ 63
  /\ _preprocess_single (fun _ => Ok []) TYPE_INT32 None (VInt (2 ^ 31))
     = Ok [x80; x80; x80; x80; x08]
  /\ decode_varint [x80; x80; x80; x80; x08] 0 = Ok (2 ^ 31, 5)
  /\ _postprocess_single (fun _ _ => Raise Unmodelled)
       (Build_MessageClass "Foo" []) WIRE_VARINT
       (proto_field 1 TYPE_INT32) "x" (VInt (2 ^ 31))
     = Ok (VInt (- 2 ^ 31))
  /\ ~ (forall n t,
          - 2 ^ 63 <= n < 2 ^ 63 ->
          t = TYPE_INT32 \/ t = TYPE_INT64 \/ t = TYPE_SINT32 \/ t = TYPE_SINT64 ->
          forall b raw pos,
            _preprocess_single (fun _ => Ok []) t None (VInt n) = Ok b ->
            decode_varint b 0 = Ok (raw, pos) ->
            _postprocess_single (fun _ _ => Raise Unmodelled)
              (Build_MessageClass "Foo" []) WIRE_VARINT
              (proto_field 1 t) "x" (VInt raw)
            = Ok (VInt n)).
Proof.
  split; [lia|]. split; [vm_compute; reflexivity|].
  split; [vm_compute; reflexivity|]. split; [vm_compute; reflexivity|].
  intros H.
  specialize (H (2 ^ 31) TYPE_INT32 ltac:(lia) ltac:(left; reflexivity)
                [x80; x80; x80; x80; x08] (2 ^ 31) 5
                ltac:(vm_compute; reflexivity) ltac:(vm_compute; reflexivity)).
  vm_compute in H. discriminate H.
Qed.

End C4.

(** ** C5: [decode_varint] rejects a varint longer than ten bytes *)

Section C5.
Import Wire.

Lemma decode_varint_loop_spec (buffer : bytes) (fuel : nat) :
  forall result shift pos,
    (1 <= fuel <= 10)%nat -> shift = 7 * (10 - Z.of_nat fuel) ->
    (decode_varint_loop fuel buffer result shift pos = Raise (ValueError too_many_bytes)
     <-> forall k : nat, (k < fuel)%nat -> continues buffer (pos + Z.of_nat k))
    /\ (forall n : nat, (n < fuel)%nat ->
          (forall k : nat, (k < n)%nat -> continues buffer (pos + Z.of_nat k)) ->
          ends buffer (pos + Z.of_nat n) ->
          exists v, decode_varint_loop fuel buffer result shift pos
                    = Ok (v, pos + Z.of_nat n + 1))
    /\ (forall e, decode_varint_loop fuel buffer result shift pos = Raise e ->
          e = ValueError too_many_bytes \/ e = IndexError).
Proof.
  induction fuel as [|fuel IH]; intros result shift pos Hf Hs; [lia|].
  cbn [decode_varint_loop].
  destruct (getitem buffer pos) as [b|] eqn:Hb.
  - destruct (Z.eqb_spec (Z.land (byte_val b) 0x80) 0) as [Hz|Hnz].
    + (* the byte at [pos] ends the varint *)
      split; [|split].
      * split; [discriminate|]. intros H.
        destruct (H 0%nat ltac:(lia)) as (b' & Hb' & Hc).
        replace (pos + Z.of_nat 0) with pos in Hb' by lia. congruence.
      * intros n Hn Hcont Hend. destruct n as [|n].
        -- replace (pos + Z.of_nat 0 + 1) with (pos + 1) by lia. eauto.
        -- destruct (Hcont 0%nat ltac:(lia)) as (b' & Hb' & Hc).
           replace (pos + Z.of_nat 0) with pos in Hb' by lia. congruence.
      * discriminate.
    + (* a continuation byte *)
      destruct (Z.geb_spec (shift + 7) 64) as [Hge|Hlt].
      * assert (fuel = 0%nat) by lia. subst fuel.
        split; [|split].
        -- split; [|reflexivity]. intros _ k Hk.
           assert (k = 0%nat) by lia. subst k.
           replace (pos + Z.of_nat 0) with pos by lia. exists b. auto.
        -- intros n Hn Hcont (b' & Hb' & Hc).
           assert (n = 0%nat) by lia. subst n.
           replace (pos + Z.of_nat 0) with pos in Hb' by lia. congruence.
        -- intros e [= <-]. auto.
      * assert (Hf' : (1 <= fuel <= 10)%nat) by lia.
        destruct (IH (Z.lor result (Z.shiftl (Z.land (byte_val b) 0x7F) shift))
                    (shift + 7) (pos + 1) Hf' ltac:(lia)) as (IH1 & IH2 & IH3).
        split; [|split].
        -- rewrite IH1. split.
           ++ intros H k Hk. destruct k as [|k].
              ** replace (pos + Z.of_nat 0) with pos by lia. exists b. auto.
              ** replace (pos + Z.of_nat (S k)) with (pos + 1 + Z.of_nat k) by lia.
                 apply H. lia.
           ++ intros H k Hk.
              replace (pos + 1 + Z.of_nat k) with (pos + Z.of_nat (S k)) by lia.
              apply H. lia.
        -- intros n Hn Hcont Hend. destruct n as [|n].
           ++ destruct Hend as (b' & Hb' & Hc).
              replace (pos + Z.of_nat 0) with pos in Hb' by lia. congruence.
           ++ replace (pos + Z.of_nat (S n) + 1) with (pos + 1 + Z.of_nat n + 1) by lia.
              apply IH2; [lia| |].
              ** intros k Hk.
                 replace (pos + 1 + Z.of_nat k) with (pos + Z.of_nat (S k)) by lia.
                 apply Hcont. lia.
              ** replace (pos + 1 + Z.of_nat n) with (pos + Z.of_nat (S n)) by lia.
                 exact Hend.
        -- exact IH3.
  - (* the buffer ends: [buffer[pos]] raises *)
    split; [|split].
    + split; [discriminate|]. intros H.
      destruct (H 0%nat ltac:(lia)) as (b' & Hb' & _).
      replace (pos + Z.of_nat 0) with pos in Hb' by lia. congruence.
    + intros n Hn Hcont Hend. destruct n as [|n].
      * destruct Hend as (b' & Hb' & _).
        replace (pos + Z.of_nat 0) with pos in Hb' by lia. congruence.
      * destruct (Hcont 0%nat ltac:(lia)) as (b' & Hb' & _).
        replace (pos + Z.of_nat 0) with pos in Hb' by lia. congruence.
    + intros e [= <-]. auto.
Qed.

Lemma decode_varint_error (buffer : bytes) (pos : Z) (e : exn) :
  decode_varint buffer pos = Raise e ->
  e = ValueError too_many_bytes \/ e = IndexError.
Proof.
  apply (decode_varint_loop_spec buffer 10 0 0 pos); [lia|reflexivity].
Qed.

(** C5. For every buffer and position, [decode_varint] raises its
    [ValueError] exactly when the ten bytes from [pos] on all have the
    continuation bit set; a varint of at most ten bytes whose last byte
    clears the bit is decoded, and the position returned is the one after
    that byte. The only other exception is the [IndexError] of a buffer
    that ends inside the varint. *)
Theorem decode_varint_rejects_long (buffer : bytes) (pos : Z) :
  (decode_varint buffer pos = Raise (ValueError too_many_bytes)
   <-> forall k : nat, (k < 10)%nat -> continues buffer (pos + Z.of_nat k))
  /\ (forall n : nat, (n < 10)%nat ->
        (forall k : nat, (k < n)%nat -> continues buffer (pos + Z.of_nat k)) ->
        ends buffer (pos + Z.of_nat n) ->
        exists v, decode_varint buffer pos = Ok (v, pos + Z.of_nat n + 1))
  /\ (forall e, decode_varint buffer pos = Raise e ->
        e = ValueError too_many_bytes \/ e = IndexError).
Proof.
  unfold decode_varint. apply decode_varint_loop_spec; lia.
Qed.

End C5.

(** ** C10: the raw slices of [parse_fields] tile the buffer *)

Section C10.
Import Wire.

Lemma getitem_Some_lt (buffer : bytes) (pos : Z) (b : byte) :
  0 <= pos -> getitem buffer pos = Some b -> pos < len buffer.
Proof.
  unfold getitem, len. intros Hpos.
  destruct (Z.leb_spec 0 pos); [|lia].
  intros Hn. assert (Z.to_nat pos < length buffer)%nat; [|lia].
  apply nth_error_Some. congruence.
Qed.

Lemma decode_varint_loop_advances (buffer : bytes) (fuel : nat) :
  forall result shift pos v pos',
    0 <= pos -> 0 <= result -> 0 <= shift ->
    decode_varint_loop fuel buffer result shift pos = Ok (v, pos') ->
    pos < pos' <= len buffer /\ 0 <= v.
Proof.
  induction fuel as [|fuel IH]; intros result shift pos v pos' Hpos Hr Hs; simpl;
    [discriminate|].
  destruct (getitem buffer pos) as [b|] eqn:Hb; [|discriminate].
  pose proof (getitem_Some_lt _ _ _ Hpos Hb) as Hlt.
  assert (Hnew : 0 <= Z.lor result (Z.shiftl (Z.land (byte_val b) 0x7F) shift)).
  { apply Z.lor_nonneg. split; [assumption|].
    apply Z.shiftl_nonneg. apply Z.land_nonneg. right. lia. }
  destruct (Z.land (byte_val b) 0x80 =? 0).
  - intros [= <- <-]. lia.
  - destruct (shift + 7 >=? 64); [discriminate|].
    intros H. apply IH in H; lia.
Qed.

Lemma decode_varint_advances (buffer : bytes) (pos v pos' : Z) :
  0 <= pos -> decode_varint buffer pos = Ok (v, pos') ->
  pos < pos' <= len buffer /\ 0 <= v.
Proof.
  intros Hpos H. apply decode_varint_loop_advances in H; lia.
Qed.

Lemma parse_payload_advances (value : bytes) (wire_type i i' : Z) (d : decoded) :
  0 <= i -> parse_payload value wire_type i = Ok (d, i') -> i <= i'.
Proof.
  intros Hi. unfold parse_payload.
  destruct (wire_type =? WIRE_VARINT).
  { destruct (decode_varint value i) as [[v j]|] eqn:E; simpl; [|discriminate].
    intros [= <- <-]. apply decode_varint_advances in E; lia. }
  destruct (wire_type =? WIRE_FIXED_64); [intros [= <- <-]; lia|].
  destruct (wire_type =? WIRE_LEN_DELIM).
  { destruct (decode_varint value i) as [[v j]|] eqn:E; simpl; [|discriminate].
    intros [= <- <-]. apply decode_varint_advances in E; lia. }
  destruct (wire_type =? WIRE_FIXED_32); intros [= <- <-]; lia.
Qed.

Lemma parse_field_advances (value : bytes) (i i' : Z) (f : ParsedField) :
  0 <= i -> parse_field value i = Ok (f, i') ->
  i < i' /\ raw f = slice value i i'.
Proof.
  intros Hi. unfold parse_field.
  destruct (decode_varint value i) as [[num_wire j]|] eqn:E; simpl; [|discriminate].
  apply decode_varint_advances in E; [|assumption].
  destruct (parse_payload value (Z.land num_wire 7) j) as [[d k]|] eqn:P; simpl;
    [|discriminate].
  apply parse_payload_advances in P; [|lia].
  intros [= <- <-]. simpl. split; [lia|reflexivity].
Qed.

(** A slice from [lo] and the rest of the buffer from [hi] make the rest
    of the buffer from [lo]. *)
Lemma slice_skipn (value : bytes) (lo hi : Z) :
  0 <= lo <= hi ->
  slice value lo hi ++ skipn (Z.to_nat hi) value = skipn (Z.to_nat lo) value.
Proof.
  intros H. unfold slice, clamp_index.
  destruct (Z.ltb_spec lo 0); [lia|]. destruct (Z.ltb_spec hi 0); [lia|].
  set (n := Z.of_nat (length value)).
  destruct (Z.le_gt_cases n lo) as [Hge|Hlt].
  - rewrite (skipn_all2 value) by lia. rewrite (skipn_all2 value) by lia.
    rewrite (skipn_all2 value) by lia.
    rewrite firstn_nil. reflexivity.
  - replace (Z.max 0 (Z.min n lo)) with lo by lia.
    destruct (Z.le_gt_cases hi n) as [Hle|Hgt].
    + replace (Z.max 0 (Z.min n hi)) with hi by lia.
      assert (E : skipn (Z.to_nat hi) value
                  = skipn (Z.to_nat (hi - lo)) (skipn (Z.to_nat lo) value))
        by (rewrite skipn_skipn; f_equal; lia).
      rewrite E. apply firstn_skipn.
    + replace (Z.max 0 (Z.min n hi)) with n by lia.
      rewrite (skipn_all2 value (n := Z.to_nat hi)) by lia.
      rewrite app_nil_r. apply firstn_all2.
      rewrite length_skipn. lia.
Qed.

Lemma parse_fields_loop_raw (value : bytes) (fuel : nat) :
  forall i fields e,
    0 <= i ->
    parse_fields_loop fuel value i = (fields, e) ->
    (exists rest, concat (map raw fields) ++ rest = skipn (Z.to_nat i) value
                  /\ (e = None -> rest = []))
    /\ (len value - i <= Z.of_nat fuel -> e <> Some OutOfFuel).
Proof.
  induction fuel as [|fuel IH]; intros i fields e Hi; simpl.
  - destruct (Z.ltb_spec i (len value)).
    + intros [= <- <-]. split; [|lia].
      exists (skipn (Z.to_nat i) value). split; [reflexivity|discriminate].
    + intros [= <- <-]. split; [|discriminate].
      exists []. split; [|reflexivity].
      rewrite skipn_all2; [reflexivity|]. unfold len in *. lia.
  - destruct (Z.ltb_spec i (len value)).
    + destruct (parse_field value i) as [[f j]|ex] eqn:P.
      * apply parse_field_advances in P; [|assumption]. destruct P as [Hlt Hraw].
        destruct (parse_fields_loop fuel value j) as [rest' e'] eqn:L.
        intros [= <- <-].
        apply IH in L; [|lia]. destruct L as [(rest & Hcat & Hnone) Hfuel].
        split; [|intros; apply Hfuel; lia].
        exists rest. split; [|assumption].
        simpl. rewrite <- app_assoc, Hcat, Hraw. apply slice_skipn. lia.
      * intros [= <- <-]. split.
        -- exists (skipn (Z.to_nat i) value). split; [reflexivity|discriminate].
        -- intros _ [= ->].
           unfold parse_field in P.
           destruct (decode_varint value i) as [[num_wire j]|ex] eqn:E; simpl in P.
           ++ destruct (parse_payload value (Z.land num_wire 7) j) as [[d k]|ex] eqn:Q;
                simpl in P; [discriminate|].
              injection P as ->. unfold parse_payload in Q.
              repeat match type of Q with
                     | (if ?c then _ else _) = _ => destruct c
                     end; try discriminate;
                (destruct (decode_varint value j) as [[v l]|ex] eqn:E';
                 simpl in Q; [discriminate|]; injection Q as ->;
                 apply decode_varint_error in E';
                 destruct E'; discriminate).
           ++ injection P as ->.
              apply decode_varint_error in E. destruct E; discriminate.
    + intros [= <- <-]. split; [|discriminate].
      exists []. split; [|reflexivity].
      rewrite skipn_all2; [reflexivity|]. unfold len in *. lia.
Qed.






End C10.

(** ** C3: one-of groups *)

Section C3.
Import Runtime.

Lemma assoc_set_slot_eq (s : list (string * py_value)) (n : string) (v : py_value) :
  assoc (set_slot s n v) n = Some v.
Proof.
  unfold assoc. induction s as [|[k w] s IH]; simpl.
  - rewrite String.eqb_refl. reflexivity.
  - destruct (String.eqb_spec k n) as [->|Hne]; simpl.
    + rewrite String.eqb_refl. reflexivity.
    + destruct (String.eqb_spec k n); [contradiction|]. exact IH.
Qed.

Lemma assoc_set_slot_ne (s : list (string * py_value)) (n n' : string) (v : py_value) :
  n <> n' -> assoc (set_slot s n v) n' = assoc s n'.
Proof.
  intros Hne. unfold assoc. induction s as [|[k w] s IH]; simpl.
  - destruct (String.eqb_spec n n'); [contradiction|]. reflexivity.
  - destruct (String.eqb_spec k n) as [->|Hk]; simpl.
    + destruct (String.eqb_spec n n'); [contradiction|]. reflexivity.
    + destruct (String.eqb_spec k n'); [reflexivity|]. exact IH.
Qed.

Lemma reset_siblings_group (attr group : string) (names : list string) :
  forall m,
    _group_current (fold_left (reset_siblings attr group) names m) !! group
    = if existsb (fun n => String.eqb n attr) names then Some (Some attr)
      else _group_current m !! group.
Proof.
  induction names as [|n names IH]; intros m; simpl; [reflexivity|].
  rewrite IH. unfold reset_siblings.
  destruct (String.eqb_spec n attr) as [->|Hne]; simpl.
  - destruct (existsb _ names); [reflexivity|].
    destruct m. simpl. apply lookup_insert_eq.
  - destruct m. reflexivity.
Qed.

Lemma reset_siblings_slots (attr group f' : string) (names : list string) :
  f' <> attr ->
  forall m,
    assoc (slots (fold_left (reset_siblings attr group) names m)) f'
    = if existsb (fun n => String.eqb n f') names then Some UNSET
      else assoc (slots m) f'.
Proof.
  intros Hne. induction names as [|n names IH]; intros m; simpl; [reflexivity|].
  rewrite IH. unfold reset_siblings.
  destruct (existsb _ names); [destruct (String.eqb n f'); reflexivity|].
  destruct (String.eqb_spec n attr) as [->|Hn].
  - destruct (String.eqb_spec attr f'); [congruence|]. destruct m. reflexivity.
  - destruct (String.eqb_spec n f') as [->|Hf].
    + destruct m. simpl. apply assoc_set_slot_eq.
    + destruct m. simpl. apply assoc_set_slot_ne. assumption.
Qed.

Lemma reset_siblings_cls (attr group : string) (names : list string) :
  forall m, cls (fold_left (reset_siblings attr group) names m) = cls m.
Proof.
  induction names as [|n names IH]; intros m; simpl; [reflexivity|].
  rewrite IH. unfold reset_siblings. destruct (String.eqb n attr); destruct m; reflexivity.
Qed.

(** A field that [oneof_group_by_field] maps to a group is among the
    fields that [oneof_field_by_group] lists for it. *)
Lemma oneof_field_listed (c : MessageClass) (f g : string) :
  oneof_group_by_field c f = Some g ->
  existsb (fun n => String.eqb n f) (oneof_field_by_group c g) = true.
Proof.
  unfold oneof_group_by_field, lookup_meta, oneof_field_by_group, oneof_group.
  induction (meta_by_field_name c) as [|[k meta] l IH]; simpl; [discriminate|].
  destruct (String.eqb_spec k f) as [->|Hne]; simpl.
  - destruct (truthy (group meta)); [|discriminate].
    intros ->. rewrite bool_decide_eq_true_2 by reflexivity. simpl.
    rewrite String.eqb_refl. reflexivity.
  - intros H. specialize (IH H).
    destruct (bool_decide (group meta = Some g)); simpl; [|exact IH].
    rewrite IH. apply orb_true_r.
Qed.

Lemma setattr_unfold (m : Message) (attr : string) (v : py_value) (group : string) :
  oneof_group_by_field (cls m) attr = Some group ->
  setattr m attr v
  = let m' := fold_left (reset_siblings attr group)
                (oneof_field_by_group (cls m) group) (set_serialized_on_wire m true) in
    set_slots m' (set_slot (slots m') attr v).
Proof.
  intros H. unfold setattr. destruct m as [c s w u gc]. simpl in *. rewrite H.
  reflexivity.
Qed.

(** C3. After an assignment to a field [f] of a one-of group [g],
    [_group_current[g]] is [f], every other field of [g] is unset, [f]
    holds the value, and [which_one_of] returns the pair of [f] and the
    value; in every state [which_one_of] returns the field that
    [_group_current] names with the value that reading it gives, and the
    empty name with [None] when the group has no selected field. *)
Theorem oneof_assignment (m : Message) (g f : string) (v : py_value) :
  oneof_group_by_field (cls m) f = Some g ->
  (_group_current (setattr m f v) !! g = Some (Some f)
   /\ (forall f', oneof_group_by_field (cls m) f' = Some g -> f' <> f ->
                  raw_get (setattr m f v) f' = Ok UNSET)
   /\ raw_get (setattr m f v) f = Ok v
   /\ (f <> ""%string -> v <> UNSET ->
       which_one_of (setattr m f v) g = Ok (f, v, setattr m f v)))
  /\ (forall (s : Message) (group_name : string),
        match _group_current s !! group_name with
        | Some (Some field_name) =>
            field_name <> ""%string ->
            which_one_of s group_name
            = ('(value, s') ← getattr s field_name; Ok (field_name, value, s'))
        | _ => which_one_of s group_name = Ok (""%string, VNone, s)
        end).
Proof.
  intros Hg.
  assert (Hgc : _group_current (setattr m f v) !! g = Some (Some f)).
  { rewrite (setattr_unfold _ _ _ _ Hg). cbv zeta.
    set (m' := fold_left _ _ _).
    assert (E : _group_current m' !! g = Some (Some f)).
    { subst m'. rewrite reset_siblings_group.
      replace (cls (set_serialized_on_wire m true)) with (cls m) by (destruct m; reflexivity).
      rewrite (oneof_field_listed _ _ _ Hg). reflexivity. }
    destruct m'. exact E. }
  assert (Hraw : raw_get (setattr m f v) f = Ok v).
  { rewrite (setattr_unfold _ _ _ _ Hg). cbv zeta.
    set (m' := fold_left _ _ _). unfold raw_get.
    destruct m'. simpl. rewrite assoc_set_slot_eq. reflexivity. }
  split; [split; [exact Hgc|split; [|split; [exact Hraw|]]]|].
  - intros f' Hg' Hne.
    rewrite (setattr_unfold _ _ _ _ Hg). cbv zeta.
    set (m' := fold_left _ _ _). unfold raw_get.
    assert (E : assoc (slots m') f' = Some UNSET).
    { subst m'. rewrite reset_siblings_slots by assumption.
      replace (cls (set_serialized_on_wire m true)) with (cls m) by (destruct m; reflexivity).
      rewrite (oneof_field_listed _ _ _ Hg'). reflexivity. }
    destruct m'. simpl in *.
    rewrite assoc_set_slot_ne by congruence. rewrite E. reflexivity.
  - intros Hf Hv. unfold which_one_of. rewrite Hgc.
    destruct (String.eqb_spec f ""); [contradiction|].
    unfold getattr. rewrite Hraw. simpl.
    destruct v; try reflexivity. contradiction.
  - intros s group_name. unfold which_one_of.
    destruct (_group_current s !! group_name) as [[field_name|]|]; try reflexivity.
    intros Hne. destruct (String.eqb_spec field_name ""); [contradiction|].
    reflexivity.
Qed.


Lemma oneof_assignment_witness :
  _group_current (setattr (construct Examples.M []) "b" (VInt 7)) !! "o"%string
  = Some (Some "b"%string)
  /\ raw_get (setattr (construct Examples.M []) "b" (VInt 7)) "a" = Ok UNSET
  /\ which_one_of (setattr (construct Examples.M []) "b" (VInt 7)) "o"
     = Ok ("b"%string, VInt 7, setattr (construct Examples.M []) "b" (VInt 7)).
Proof.
  destruct (oneof_assignment (construct Examples.M []) "o" "b" (VInt 7) eq_refl)
    as [(H1 & H2 & _ & H4) _].
  split; [exact H1|split].
  - apply H2; [reflexivity|discriminate].
  - apply H4; discriminate.
Defined.

End C3.

(** ** C2: a field at its default is skipped *)

Section C2.
Import Runtime.

(** The turn of the loop for a field whose value equals its default, which
    is not selected in a group and is not a message that was set, appends
    nothing. *)
Lemma default_field_turn (to_bytes : Message -> outcome bytes)
    (eq : py_value -> py_value -> outcome bool) (m m' : Message)
    (f : string) (meta : FieldMetadata) (value d : py_value) :
  getattr m f = Ok (value, m') ->
  get_field_default (cls m) f = Ok d ->
  eq value d = Ok true ->
  ~ selected_in_group m f meta ->
  group_known m meta ->
  (forall v, value = VMsg v -> _serialized_on_wire v = false) ->
  serialize_field to_bytes eq m (f, meta) = Ok [].
Proof.
  intros Hget Hd Heq Hsel Hknown Hmsg.
  unfold serialize_field. rewrite Hget. cbn [mbind outcome_bind].
  assert (Hs : match oneof_group meta with
               | Some g =>
                   match _group_current m !! g with
                   | Some current => Ok (bool_decide (current = Some f))
                   | None => Raise KeyError
                   end
               | None => Ok false
               end = Ok false).
  { destruct (oneof_group meta) as [g|] eqn:Hg; [|reflexivity].
    destruct (Hknown g Hg) as [cur Hcur]. rewrite Hcur.
    rewrite bool_decide_eq_false_2; [reflexivity|].
    intros ->. apply Hsel. exists g. split; [|assumption].
    unfold oneof_group in Hg. destruct (truthy (group meta)); congruence. }
  assert (Hi : _include_default_value_for_oneof m f meta = false).
  { unfold _include_default_value_for_oneof.
    destruct (group meta) as [g|] eqn:Hg; [|reflexivity].
    apply bool_decide_eq_false_2. intros E. apply Hsel. exists g. split; [assumption|].
    destruct (_group_current m !! g) as [cur|]; simpl in E; congruence. }
  assert (He : match value with VMsg v => _serialized_on_wire v | _ => false end = false).
  { destruct value; try reflexivity. apply Hmsg. reflexivity. }
  destruct value; try reflexivity;
    rewrite Hs; cbn [mbind outcome_bind]; rewrite Hd; cbn [mbind outcome_bind];
    rewrite Heq; cbn [mbind outcome_bind]; rewrite Hi;
    try rewrite He; reflexivity.
Qed.

(** C2 (the code departs from it). In [Tagged(tags=[""])] the field
    [name], number 1, is at its default, belongs to no group and is no
    message: its own turn appends nothing, yet the bytes hold a field with
    number 1, the placeholder that the turn of [tags], number 2, writes for
    its empty item. *)
Theorem default_field_tag_emitted :
  (fst <$> getattr Examples.tagged_empty "name") = Ok (VStr [])
  /\ get_field_default Examples.Tagged "name" = Ok (VStr [])
  /\ serialize_field (serialize_to_bytes 2) (value_eq 2) Examples.tagged_empty
       ("name"%string, proto_field 1 TYPE_STRING) = Ok []
  /\ serialize_to_bytes 3 Examples.tagged_empty = Ok [x0a; x00]
  /\ map (fun p => (Wire.number p, Wire.wire_type p))
       (fst (Wire.parse_fields [x0a; x00])) = [(1, 2)].
Proof. vm_compute. repeat split; reflexivity. Qed.

End C2.

(** ** C6: map entries *)

Section C6.
Import Runtime.

(** C6 (the code departs from it). [Counts(m={"k": 3})] is written as one
    length-delimited field 1 with payload [0A 01 6B 10 03]; for
    [Labels(labels={"": ""})] the key and the value both encode to
    nothing, the payload is empty and no field is written for the entry. *)
Theorem map_entry_dropped :
  serialize_to_bytes 3 Examples.counts_k3
  = Ok [x0a; x05; x0a; x01; x6b; x10; x03]
  /\ _serialize_single (serialize_to_bytes 2) 1 TYPE_STRING (VStr []) false None = Ok []
  /\ _serialize_single (serialize_to_bytes 2) 2 TYPE_STRING (VStr []) false None = Ok []
  /\ serialize_to_bytes 3 Examples.labels_empty = Ok []
  /\ Wire.parse_fields [] = ([], None).
Proof. vm_compute. repeat split; reflexivity. Qed.

End C6.

(** ** C1: the round trip *)

Section C1.
Import Runtime.

(** C1 (the code departs from it). [Tagged(tags=[""])] is written as
    [0A 00], which is read back as field 1: [name] is set to the empty
    string and [tags] stays unset, so the message read is not equal to the
    one written. The map [{"": ""}] of [Labels] is written as no bytes
    and read back as the empty map. *)
Theorem round_trip_fails :
  serialize_to_bytes 3 Examples.tagged_empty = Ok [x0a; x00]
  /\ (m ← deserialize_from_bytes 3 Examples.Tagged [x0a; x00];
      Ok (slots m)) = Ok [("name"%string, VStr []); ("tags"%string, UNSET)]
  /\ (b ← serialize_to_bytes 3 Examples.tagged_empty;
      m ← deserialize_from_bytes 3 Examples.Tagged b;
      Message_eq 3 m Examples.tagged_empty) = Ok false
  /\ (b ← serialize_to_bytes 3 Examples.labels_empty;
      m ← deserialize_from_bytes 3 Examples.Labels b;
      Message_eq 3 m Examples.labels_empty) = Ok false.
Proof. vm_compute. repeat split; reflexivity. Qed.

(** The scenarios of the specification, on the same embedding:
    [Foo{x:0}] is written as no bytes and [Foo{x:150}] as [08 96 01];
    setting [a] and then [b] in the one-of of [M] writes [10 07] only, and
    reading that back selects [b]; these messages and the map of [Counts]
    are read back equal to what was written. *)
Lemma round_trip_scenarios :
  serialize_to_bytes 3 (construct Examples.Foo [("x"%string, VInt 0)]) = Ok []
  /\ serialize_to_bytes 3 (construct Examples.Foo [("x"%string, VInt 150)])
     = Ok [x08; x96; x01]
  /\ serialize_to_bytes 3
       (setattr (setattr (construct Examples.M []) "a" (VStr ["h"%byte; "i"%byte]))
          "b" (VInt 7))
     = Ok [x10; x07]
  /\ (m ← deserialize_from_bytes 3 Examples.M [x10; x07];
      Ok (_group_current m !! "o"%string, raw_get m "a"))
     = Ok (Some (Some "b"%string), Ok UNSET)
  /\ (b ← serialize_to_bytes 3 (construct Examples.Foo [("x"%string, VInt 150)]);
      m ← deserialize_from_bytes 3 Examples.Foo b;
      Message_eq 3 m (construct Examples.Foo [("x"%string, VInt 150)])) = Ok true
  /\ (b ← serialize_to_bytes 3 Examples.counts_k3;
      m ← deserialize_from_bytes 3 Examples.Counts b;
      Message_eq 3 m Examples.counts_k3) = Ok true.
Proof. vm_compute. repeat split; reflexivity. Qed.

End C1.

(** ** C7: the response to an empty request *)

Section C7.
Import Plugin.

Lemma fold_left_supported_features {A}
    (step : CodeGeneratorResponse -> A -> CodeGeneratorResponse) (l : list A) :
  (forall response x, supported_features (step response x) = supported_features response) ->
  forall response,
    supported_features (fold_left step l response) = supported_features response.
Proof.
  intros Hstep. induction l as [|x l IH]; intros response; simpl; [reflexivity|].
  rewrite IH. apply Hstep.
Qed.

(** C7. Every response that [generate_code] returns carries
    [supported_features = FEATURE_PROTO3_OPTIONAL], which is 1; and for a
    request without [proto_file] entries whose options are accepted the
    response is returned and has no files. *)
Theorem empty_request_response
    (get_type_reference : string -> string -> bool -> outcome string)
    (validate : list (string * option_value) -> outcome PluginOptions)
    (outputfile_compiler : OutputTemplate -> string)
    (path_exists : list string -> bool)
    (set_iter : list (list string) -> list (list string))
    (request : CodeGeneratorRequest) :
  (forall s, Permutation (set_iter s) s) ->
  (forall response,
     generate_code get_type_reference validate outputfile_compiler path_exists
       set_iter request
     = Ok response ->
     supported_features response = FEATURE_PROTO3_OPTIONAL
     /\ FEATURE_PROTO3_OPTIONAL = 1)
  /\ (proto_file request = [] ->
      forall plugin_options,
        parse_args validate (parameter request) = Ok plugin_options ->
        generate_code get_type_reference validate outputfile_compiler path_exists
          set_iter request
        = Ok (Build_CodeGeneratorResponse 1 [])).
Proof.
  intros Hperm. split.
  - intros response. unfold generate_code.
    destruct (parse_args validate (parameter request)) as [plugin_options|e];
      cbn [mbind outcome_bind]; [|discriminate].
    destruct (read_request get_type_reference plugin_options request)
      as [output_packages|e];
      cbn [mbind outcome_bind]; [|discriminate].
    intros [= <-]. split; [|reflexivity].
    rewrite fold_left_supported_features by reflexivity.
    rewrite fold_left_supported_features; [reflexivity|].
    intros response [pkg_name output_package]. reflexivity.
  - intros Hempty plugin_options Hopts. unfold generate_code.
    rewrite Hopts. cbn [mbind outcome_bind].
    unfold read_request, collect. rewrite Hempty. simpl.
    assert (E : set_iter [] = [])
      by (apply Permutation_nil; symmetry; apply Hperm).
    unfold init_files. simpl. rewrite E. reflexivity.
Qed.


Lemma empty_request_response_witness :
  generate_code (fun _ _ _ => Raise AttributeError)
    (fun _ => Ok (Build_PluginOptions "sync" false))
    (fun _ => ""%string) (fun _ => false) (fun s => s)
    (Build_CodeGeneratorRequest "" [])
  = Ok (Build_CodeGeneratorResponse 1 []).
Proof.
  exact (proj2 (empty_request_response _ _ _ _ (fun s => s)
                  (Build_CodeGeneratorRequest "" [])
                  (fun s => Permutation_refl s))
           eq_refl (Build_PluginOptions "sync" false) eq_refl).
Defined.

End C7.

(** ** C8: the order of the collected imports *)

Section C8.
Import Plugin.

Lemma set_add_In (s : list string) (x y : string) :
  In y (set_add s x) <-> In y s \/ y = x.
Proof.
  unfold set_add. destruct (existsb (String.eqb x) s) eqn:E.
  - split; [auto|]. intros [H| ->]; [assumption|].
    apply existsb_exists in E. destruct E as (z & Hz & Hxz).
    apply String.eqb_eq in Hxz. subst. assumption.
  - rewrite in_app_iff. simpl. intuition.
Qed.

Lemma set_add_NoDup (s : list string) (x : string) :
  List.NoDup s -> List.NoDup (set_add s x).
Proof.
  intros Hs. unfold set_add. destruct (existsb (String.eqb x) s) eqn:E; [assumption|].
  apply (Permutation_NoDup (l := x :: s)); [apply Permutation_cons_append|].
  constructor; [|assumption]. intros Hx.
  assert (Hex : existsb (String.eqb x) s = true).
  { apply existsb_exists. exists x. split; [assumption|apply String.eqb_refl]. }
  congruence.
Qed.

Lemma record_all_imports (rs : list reference) :
  forall tm,
    List.NoDup (_imports tm) ->
    List.NoDup (_imports (fold_left record_reference rs tm))
    /\ (forall line, In line (_imports (fold_left record_reference rs tm))
                     <-> In line (_imports tm) \/ In line (import_lines rs)).
Proof.
  induction rs as [|r rs IH]; intros tm Hnd; simpl.
  - split; [assumption|]. intuition.
  - assert (Hstep : List.NoDup (_imports (record_reference tm r))
                    /\ forall line, In line (_imports (record_reference tm r))
                                    <-> In line (_imports tm)
                                        \/ In line (import_lines [r])).
    { destruct r as [module name|module name|line0]; simpl.
      - split; [apply set_add_NoDup; assumption|].
        intros line. rewrite set_add_In. intuition.
      - split; [assumption|]. intuition.
      - split; [apply set_add_NoDup; assumption|].
        intros line. rewrite set_add_In. intuition. }
    destruct Hstep as [Hnd' Hin'].
    destruct (IH _ Hnd') as [IH1 IH2]. split; [assumption|].
    intros line. rewrite IH2, Hin'. unfold import_lines. simpl.
    rewrite !in_app_iff. change (In line []) with False. tauto.
Qed.

(** C8, as amended. Whatever the order in which the interpreter iterates
    a set, [get_all_imports] yields every import line recorded in the
    manager exactly once, in the iteration order of the set and without
    sorting, and then one line for each module of [_from_imports]. *)
Theorem get_all_imports_lists_recorded
    (iter_set : list string -> list string) (package : string) (rs : list reference) :
  iteration_order iter_set ->
  exists lines,
    get_all_imports iter_set (record_all package rs)
    = lines ++ map (from_line iter_set) (_from_imports (record_all package rs))
    /\ lines = iter_set (_imports (record_all package rs))
    /\ List.NoDup lines
    /\ (forall line, In line lines <-> In line (import_lines rs)).
Proof.
  intros Hiter. exists (iter_set (_imports (record_all package rs))).
  split; [reflexivity|split; [reflexivity|]].
  destruct (record_all_imports rs (new_TypeManager package)) as [Hnd Hin];
    [constructor|].
  fold (record_all package rs) in Hnd, Hin.
  split.
  - apply (Permutation_NoDup (l := _imports (record_all package rs)));
      [symmetry; apply Hiter|assumption].
  - intros line. split; intros H.
    + apply (Permutation_in _ (Hiter _)) in H. apply Hin in H.
      destruct H as [H|H]; [destruct H|assumption].
    + apply (Permutation_in _ (Permutation_sym (Hiter _))). apply Hin.
      right. assumption.
Qed.

Lemma get_all_imports_lists_recorded_witness :
  exists lines,
    get_all_imports (fun s => s)
      (record_all "p" [ModuleImport "b" "x"; ModuleImport "a" "y";
                       FromImport "typing" "List"])
    = lines
      ++ map (from_line (fun s => s))
           (_from_imports
              (record_all "p" [ModuleImport "b" "x"; ModuleImport "a" "y";
                               FromImport "typing" "List"]))
    /\ lines
       = _imports (record_all "p" [ModuleImport "b" "x"; ModuleImport "a" "y";
                                   FromImport "typing" "List"])
    /\ List.NoDup lines
    /\ (forall line,
          In line lines
          <-> In line (import_lines [ModuleImport "b" "x"; ModuleImport "a" "y";
                                     FromImport "typing" "List"])).
Proof.
  exact (get_all_imports_lists_recorded (fun s => s) "p"
           [ModuleImport "b" "x"; ModuleImport "a" "y"; FromImport "typing" "List"]
           (fun s => Permutation_refl s)).
Defined.

(** C8 as stated fails: two iteration orders of the same set of imports
    give two different enumerations, and the enumeration in the order of
    recording is not sorted. *)
Lemma import_order_not_stable :
  ~ (forall iter1 iter2 package rs,
       iteration_order iter1 -> iteration_order iter2 ->
       get_all_imports iter1 (record_all package rs)
       = get_all_imports iter2 (record_all package rs))
  /\ ~ (forall iter_set package rs,
         iteration_order iter_set ->
         StronglySorted (fun a b => String.leb a b = true)
           (get_all_imports iter_set (record_all package rs))).
Proof.
  split.
  - intros H.
    specialize (H (fun s => s) (@rev string) "p"%string
                  [ModuleImport "a" "x"; ModuleImport "b" "y"]
                  (fun s => Permutation_refl s) (fun s => Permutation_sym (Permutation_rev s))).
    vm_compute in H. discriminate H.
  - intros H.
    specialize (H (fun s => s) "p"%string
                  [ModuleImport "b" "x"; ModuleImport "a" "y"]
                  (fun s => Permutation_refl s)).
    vm_compute in H. inversion H as [|a l _ Hall]; subst.
    inversion Hall as [|b l' Hab _]; subst. discriminate Hab.
Qed.

End C8.

(** ** C9: the order in which the types of a file are read *)

Section C9.
Import Plugin.

Lemma count_dots_app (a b : string) :
  count_dots (a ++ b) = (count_dots a + count_dots b)%nat.
Proof.
  induction a as [|c a IH]; simpl; [reflexivity|]. rewrite IH. lia.
Qed.

Section Sorting.
Variable key : string -> nat.

Lemma insert_sorted_In (x y : string) (l : list string) :
  In y (insert_sorted key x l) <-> y = x \/ In y l.
Proof.
  induction l as [|z l IH]; simpl; [intuition|].
  destruct (key x <=? key z)%nat; simpl; [intuition|]. rewrite IH. intuition.
Qed.

Lemma sorted_In (y : string) (l : list string) : In y (sorted key l) <-> In y l.
Proof.
  unfold sorted. induction l as [|x l IH]; simpl; [reflexivity|].
  rewrite insert_sorted_In, IH. intuition.
Qed.

Lemma insert_sorted_StronglySorted (x : string) (l : list string) :
  StronglySorted (fun a b => (key a <= key b)%nat) l ->
  StronglySorted (fun a b => (key a <= key b)%nat) (insert_sorted key x l).
Proof.
  induction 1 as [|z l Hs IH Hall]; simpl.
  - repeat constructor.
  - destruct (Nat.leb_spec (key x) (key z)).
    + constructor; [constructor; assumption|].
      constructor; [assumption|].
      rewrite List.Forall_forall in *. intros y Hy. specialize (Hall y Hy). lia.
    + constructor; [assumption|].
      rewrite List.Forall_forall in *. intros y Hy.
      apply insert_sorted_In in Hy. destruct Hy as [->|Hy]; [lia|auto].
Qed.

Lemma sorted_StronglySorted (l : list string) :
  StronglySorted (fun a b => (key a <= key b)%nat) (sorted key l).
Proof.
  unfold sorted. induction l as [|x l IH]; simpl; [constructor|].
  apply insert_sorted_StronglySorted. assumption.
Qed.

(** The sort is stable: the elements of one key keep their order. *)
Lemma insert_sorted_stable (d : nat) (x : string) (l : list string) :
  List.filter (fun k => Nat.eqb (key k) d) (insert_sorted key x l)
  = List.filter (fun k => Nat.eqb (key k) d) (x :: l).
Proof.
  induction l as [|z l IH]; [reflexivity|]. cbn [insert_sorted].
  destruct (Nat.leb_spec (key x) (key z)); [reflexivity|].
  cbn [List.filter] in *. rewrite IH.
  destruct (Nat.eqb_spec (key x) d), (Nat.eqb_spec (key z) d); try reflexivity. lia.
Qed.

Lemma sorted_stable (d : nat) (l : list string) :
  List.filter (fun k => Nat.eqb (key k) d) (sorted key l)
  = List.filter (fun k => Nat.eqb (key k) d) l.
Proof.
  unfold sorted. induction l as [|x l IH]; [reflexivity|]. cbn [fold_right].
  rewrite insert_sorted_stable. cbn [List.filter]. rewrite IH. reflexivity.
Qed.

Lemma StronglySorted_precedes (p q : string) (l : list string) :
  StronglySorted (fun a b => (key a <= key b)%nat) l ->
  In p l -> In q l -> (key p < key q)%nat -> precedes p q l.
Proof.
  induction 1 as [|z l Hs IH Hall]; intros Hp Hq Hlt; [destruct Hp|].
  rewrite List.Forall_forall in Hall.
  destruct Hp as [->|Hp].
  - destruct Hq as [->|Hq]; [lia|].
    apply in_split in Hq. destruct Hq as (l2 & l3 & ->).
    exists [], l2, l3. reflexivity.
  - destruct Hq as [->|Hq].
    + specialize (Hall p Hp). lia.
    + destruct (IH Hp Hq Hlt) as (l1 & l2 & l3 & ->).
      exists (z :: l1), l2, l3. reflexivity.
Qed.
End Sorting.

Lemma mapM_Ok {A B} (f : A -> outcome B) (l : list A) :
  forall l', mapM f l = Ok l' -> List.Forall2 (fun x y => f x = Ok y) l l'.
Proof.
  induction l as [|x l IH]; intros l'; cbn [mapM].
  - intros [= <-]. constructor.
  - destruct (f x) as [y|e] eqn:Hx; cbn [mbind outcome_bind]; [|discriminate].
    destruct (mapM f l) as [k|e]; cbn [mbind outcome_bind]; [|discriminate].
    intros [= <-]. constructor; [assumption|]. apply IH. reflexivity.
Qed.

Lemma read_types_created get_type_reference (f : FileDescriptorProto)
    (extensions : list (string * list FieldDescriptorProto)) (t t' : OutputTemplate) :
  read_types get_type_reference f extensions t = Ok t' ->
  exists made, created t' = created t ++ map EType made.
Proof.
  unfold read_types.
  destruct (Runtime.foldM _ _ _) as [[proto_types made]|e];
    cbn [mbind outcome_bind]; [|discriminate].
  intros [= <-]. exists made. reflexivity.
Qed.

Lemma foldM_read_types_created get_type_reference
    (extensions : list (string * list FieldDescriptorProto))
    (fs : list FileDescriptorProto) :
  forall t t',
    Runtime.foldM (fun t f => read_types get_type_reference f extensions t) t fs
    = Ok t' ->
    exists made, created t' = created t ++ map EType made.
Proof.
  induction fs as [|f fs IH]; intros t t'; cbn [Runtime.foldM].
  - intros [= <-]. exists []. rewrite app_nil_r. reflexivity.
  - destruct (read_types get_type_reference f extensions t) as [t1|e] eqn:H1;
      cbn [mbind outcome_bind]; [|discriminate].
    intros H. apply IH in H. destruct H as (made2 & H2).
    apply read_types_created in H1. destruct H1 as (made1 & H1).
    exists (made1 ++ made2). rewrite H2, H1, map_app, app_assoc. reflexivity.
Qed.

Lemma map_imap {A B C} (h : B -> C) (l : list A) :
  forall g : nat -> A -> B, map h (imap g l) = imap (fun i x => h (g i x)) l.
Proof.
  induction l as [|x l IH]; intros g; [reflexivity|].
  cbn [imap map]. f_equal. apply IH.
Qed.

Lemma read_protobuf_service_created get_type_reference
    (service : ServiceDescriptorProto) (index : Z) (t t' : OutputTemplate)
    (f : FileDescriptorProto) :
  read_protobuf_service get_type_reference service index t f = Ok t' ->
  created t' = created t ++ [EService service [6; index]].
Proof.
  unfold read_protobuf_service.
  destruct (Runtime.foldM _ _ _) as [[]|e]; cbn [mbind outcome_bind]; [|discriminate].
  intros [= <-]. reflexivity.
Qed.

Lemma read_services_created get_type_reference (f : FileDescriptorProto)
    (t t' : OutputTemplate) :
  read_services get_type_reference f t = Ok t' ->
  exists ss, created t' = created t ++ map (fun '(s, path) => EService s path) ss.
Proof.
  unfold read_services.
  generalize (imap (fun index service => (Z.of_nat index, service)) (service f)).
  intros l. revert t. induction l as [|[index s] l IH]; intros t; cbn [Runtime.foldM].
  - intros [= <-]. exists []. rewrite app_nil_r. reflexivity.
  - destruct (read_protobuf_service get_type_reference s index t f) as [t1|e] eqn:H1;
      cbn [mbind outcome_bind]; [|discriminate].
    intros H. apply IH in H. destruct H as (ss & H).
    apply read_protobuf_service_created in H1.
    exists ((s, [6; index]) :: ss). rewrite H, H1, <- app_assoc. reflexivity.
Qed.

Lemma foldM_read_services_created get_type_reference (fs : list FileDescriptorProto) :
  forall t t',
    Runtime.foldM (fun t f => read_services get_type_reference f t) t fs = Ok t' ->
    exists ss, created t' = created t ++ map (fun '(s, path) => EService s path) ss.
Proof.
  induction fs as [|f fs IH]; intros t t'; cbn [Runtime.foldM].
  - intros [= <-]. exists []. rewrite app_nil_r. reflexivity.
  - destruct (read_services get_type_reference f t) as [t1|e] eqn:H1;
      cbn [mbind outcome_bind]; [|discriminate].
    intros H. apply IH in H. destruct H as (ss2 & H2).
    apply read_services_created in H1. destruct H1 as (ss1 & H1).
    exists (ss1 ++ ss2). rewrite H2, H1, map_app, app_assoc. reflexivity.
Qed.

Lemma dict_insert_Forall {A} (Q : A -> Prop) (d : list (string * A)) (k : string) (v : A) :
  List.Forall (fun kv => Q (snd kv)) d -> Q v ->
  List.Forall (fun kv => Q (snd kv)) (dict_insert d k v).
Proof.
  intros Hd Hv. induction Hd as [|[k' w] d Hw Hd IH]; cbn [dict_insert].
  - repeat constructor. assumption.
  - destruct (String.eqb k' k); constructor; assumption.
Qed.

Lemma assoc_Forall {A} (Q : A -> Prop) (d : list (string * A)) (k : string) (v : A) :
  List.Forall (fun kv => Q (snd kv)) d -> Runtime.assoc d k = Some v -> Q v.
Proof.
  unfold Runtime.assoc. intros Hd.
  induction Hd as [|[k' w] d Hw Hd IH]; cbn [find]; [discriminate|].
  destruct (String.eqb k' k); [|exact IH].
  intros [= <-]. exact Hw.
Qed.

(** The output packages that the first loop makes hold nothing yet. *)
Lemma collect_step_created (plugin_options : PluginOptions)
    (st : list (string * OutputTemplate) * list (string * list FieldDescriptorProto))
    (proto : FileDescriptorProto) :
  List.Forall (fun kv => created (snd kv) = []) (fst st) ->
  List.Forall (fun kv => created (snd kv) = [])
    (fst (collect_step plugin_options st proto)).
Proof.
  destruct st as [ops ext]. cbn [fst]. intros Hst. unfold collect_step.
  destruct (String.eqb (package proto) "google.protobuf"
            && negb (include_google plugin_options)); [assumption|].
  assert (Hins : List.Forall (fun kv => created (snd kv) = [])
                   (dict_insert ops (package proto)
                      (add_input_file
                         (default (Build_OutputTemplate proto (mode plugin_options) [] [])
                            (Runtime.assoc ops (package proto))) proto))).
  { apply (dict_insert_Forall (fun t => created t = [])); [assumption|].
    cbn [add_input_file created].
    destruct (Runtime.assoc ops (package proto)) as [t|] eqn:E; [|reflexivity].
    cbn [default]. exact (assoc_Forall (fun t => created t = []) _ _ _ Hst E). }
  destruct (file_message_type proto), (file_enum_type proto), (service proto);
    cbn [fst]; assumption.
Qed.

Lemma collect_created (plugin_options : PluginOptions) (protos : list FileDescriptorProto) :
  List.Forall (fun kv => created (snd kv) = []) (fst (collect plugin_options protos)).
Proof.
  unfold collect.
  assert (H : forall st,
             List.Forall (fun kv => created (snd kv) = []) (fst st) ->
             List.Forall (fun kv => created (snd kv) = [])
               (fst (fold_left (collect_step plugin_options) protos st))).
  { induction protos as [|proto protos IH]; intros st Hst; cbn [fold_left];
      [assumption|].
    apply IH. apply collect_step_created. assumption. }
  apply H. constructor.
Qed.

Lemma read_request_types_then_services get_type_reference
    (plugin_options : PluginOptions)
    (request : CodeGeneratorRequest) (output_packages : list (string * OutputTemplate)) :
  read_request get_type_reference plugin_options request = Ok output_packages ->
  List.Forall (fun kv => types_then_services (snd kv)) output_packages.
Proof.
  unfold read_request.
  pose proof (collect_created plugin_options (proto_file request)) as Hc.
  destruct (collect plugin_options (proto_file request)) as [ops extensions].
  cbn [fst] in Hc.
  destruct (mapM _ ops) as [read|e] eqn:Hm; cbn [mbind outcome_bind]; [|discriminate].
  intros Hs. apply mapM_Ok in Hm. apply mapM_Ok in Hs.
  assert (Hr : List.Forall
                 (fun kv => exists made, created (snd kv) = map EType made) read).
  { clear Hs. induction Hm as [|[pkg t] [pkg' t'] ops read Hx Hm IH]; constructor.
    - cbn [snd].
      destruct (Runtime.foldM _ t (input_files t)) as [t1|e] eqn:Hf;
        cbn [mbind outcome_bind] in Hx; [|discriminate].
      injection Hx as <- <-.
      apply foldM_read_types_created in Hf. destruct Hf as (made & Hf).
      exists made. rewrite Hf.
      inversion Hc as [|? ? Ht _]; subst. cbn [snd] in Ht. rewrite Ht. reflexivity.
    - apply IH. inversion Hc; assumption. }
  clear Hm Hc.
  induction Hs as [|[pkg t] [pkg' t'] read output_packages Hx Hs IH]; constructor.
  - cbn [snd].
    destruct (Runtime.foldM _ t (input_files t)) as [t1|e] eqn:Hf;
      cbn [mbind outcome_bind] in Hx; [|discriminate].
    injection Hx as <- <-.
    apply foldM_read_services_created in Hf. destruct Hf as (ss & Hf).
    inversion Hr as [|? ? (made & Ht) _]; subst. cbn [snd] in Ht.
    exists made, ss. rewrite Hf, Ht. reflexivity.
  - apply IH. inversion Hr; assumption.
Qed.

Lemma assoc_In_keys {A} (d : list (string * A)) (k : string) :
  In k (map fst d) -> exists v, Runtime.assoc d k = Some v.
Proof.
  unfold Runtime.assoc. induction d as [|[k' w] d IH]; cbn [map fst In find]; [intros []|].
  destruct (String.eqb_spec k' k) as [->|Hne]; [eauto|].
  intros [H|H]; [contradiction|]. apply IH. assumption.
Qed.

Lemma read_order_keys (f : FileDescriptorProto) :
  map fst (read_order f) = sorted_keys f.
Proof.
  unfold read_order.
  assert (H : forall key, In key (sorted_keys f) ->
                          exists v, Runtime.assoc (items_of (traverse f)) key = Some v).
  { intros key Hk. apply assoc_In_keys. unfold sorted_keys in Hk.
    apply sorted_In in Hk. assumption. }
  induction (sorted_keys f) as [|key keys IH]; [reflexivity|].
  destruct (H key ltac:(left; reflexivity)) as (v & Hv).
  cbn [omap list_omap]. rewrite Hv. cbn [fmap option_fmap option_map map fst].
  f_equal. apply IH. intros key' Hk. apply H. right. assumption.
Qed.

(** C9, as amended. The types of an input file are read in ascending
    order of the number of dots in their qualified names; types with the
    same number of dots are read in the order in which [traverse] yields
    them, which is the enumerations of the file before its messages; a
    type whose qualified name extends another by a dot and a name is read
    after it. The services of an output package are read after its
    types. *)
Theorem read_order_by_depth (f : FileDescriptorProto) :
  map fst (read_order f) = sorted_keys f
  /\ StronglySorted (fun a b => (count_dots a <= count_dots b)%nat) (sorted_keys f)
  /\ (forall d,
        List.filter (fun k => Nat.eqb (count_dots k) d) (sorted_keys f)
        = List.filter (fun k => Nat.eqb (count_dots k) d)
            (map fst (items_of (traverse f))))
  /\ traverse f
     = _traverse_enums [5] 0 (file_enum_type f) ""
       ++ _traverse_messages [4] 0 (file_message_type f) ""
  /\ (forall p n : string,
        In p (sorted_keys f) -> In (p ++ "." ++ n)%string (sorted_keys f) ->
        precedes p (p ++ "." ++ n)%string (sorted_keys f))
  /\ (forall get_type_reference plugin_options request output_packages,
        read_request get_type_reference plugin_options request = Ok output_packages ->
        List.Forall (fun kv => types_then_services (snd kv)) output_packages).
Proof.
  split; [apply read_order_keys|].
  split; [apply sorted_StronglySorted|].
  split; [intros d; apply sorted_stable|].
  split; [reflexivity|].
  split; [|intros g; apply read_request_types_then_services].
  intros p n Hp Hq.
  apply (StronglySorted_precedes count_dots); try assumption.
  - apply sorted_StronglySorted.
  - rewrite !count_dots_app. cbn [count_dots]. cbn. lia.
Qed.

(** C9 as stated fails: in the file with [message A { enum E {} message
    B {} }] and the enumeration [Z], the types are read in the order [Z],
    [A], [A.E], [A.B]: the message [A] before the enumeration [A.E]. *)
Lemma nested_enum_read_after_message :
  map fst (read_order Examples.nested_file)
  = ["Z"; "A"; "A.E"; "A.B"]%string
  /\ ~ enums_then_messages (read_order Examples.nested_file).
Proof.
  split; [reflexivity|].
  intros (l1 & l2 & Heq & H1 & H2).
  vm_compute in Heq.
  destruct l1 as [|x1 l1]; cbn [app] in Heq.
  - subst l2. inversion H2 as [|? ? Hz _]. exact Hz.
  - injection Heq as <- Heq. destruct l1 as [|x2 l1]; cbn [app] in Heq.
    + subst l2. inversion H2 as [|? ? _ H2']. inversion H2' as [|? ? He _]. exact He.
    + injection Heq as <- Heq. inversion H1 as [|? ? _ H1'].
      inversion H1' as [|? ? Ha _]. exact Ha.
Qed.

End C9.

(** * Further properties *)

(** ** More on [encode_varint] and [decode_varint] *)

Section VarintShape.
Import Wire.

(** What the loop of [encode_varint] writes: groups with the continuation
    bit, then one group without. *)
Lemma encode_varint_loop_shape (fuel : nat) : forall bits value out,
  0 <= bits < 128 -> 0 <= value ->
  encode_varint_loop fuel bits value [] = Ok out ->
  exists pre last,
    out = pre ++ [last]
    /\ List.Forall (fun x => 128 <= x < 256) pre /\ 0 <= last < 128.
Proof.
  induction fuel as [|fuel IH]; intros bits value out Hb Hv; simpl.
  - destruct (Z.eqb_spec value 0); [|discriminate].
    intros [= <-]. exists [], bits. repeat split; [constructor|lia|lia].
  - destruct (Z.eqb_spec value 0) as [->|Hne].
    + intros [= <-]. exists [], bits. repeat split; [constructor|lia|lia].
    + rewrite encode_varint_loop_acc.
      destruct (encode_varint_loop fuel _ _ []) as [out'|e] eqn:E; simpl; [|discriminate].
      intros [= <-].
      apply IH in E.
      * destruct E as (pre & last & -> & Hpre & Hlast).
        exists (Z.lor 0x80 bits :: pre), last. repeat split; try lia.
        constructor; [|assumption].
        destruct (group_more bits Hb) as (Hr & _ & Hh).
        split; [|lia].
        destruct (Z.lt_ge_cases (Z.lor 128 bits) 128) as [Hlt|]; [|assumption].
        exfalso. apply Hh. apply group_last. lia.
      * rewrite land_127. apply Z.mod_pos_bound. lia.
      * apply Z.shiftr_nonneg. assumption.
Qed.

Lemma encode_varint_loop_long (fuel : nat) : forall (k : nat) bits value out,
  2 ^ (7 * Z.of_nat k) <= value ->
  encode_varint_loop fuel bits value [] = Ok out ->
  (k + 2 <= length out)%nat.
Proof.
  induction fuel as [|fuel IH]; intros k bits value out Hv; simpl.
  - assert (0 < 2 ^ (7 * Z.of_nat k)) by (apply Z.pow_pos_nonneg; lia).
    destruct (Z.eqb_spec value 0); [lia|discriminate].
  - assert (0 < 2 ^ (7 * Z.of_nat k)) by (apply Z.pow_pos_nonneg; lia).
    destruct (Z.eqb_spec value 0) as [->|Hne]; [lia|].
    rewrite encode_varint_loop_acc.
    destruct (encode_varint_loop fuel _ _ []) as [out'|e] eqn:E; simpl; [|discriminate].
    intros [= <-]. simpl.
    destruct k as [|k].
    + assert (1 <= length out')%nat; [|lia].
      destruct fuel; simpl in E; destruct (Z.shiftr value 7 =? 0);
        try discriminate; try (injection E as <-; simpl; lia).
      rewrite encode_varint_loop_acc in E.
      destruct (encode_varint_loop fuel _ _ []); simpl in E; [|discriminate].
      injection E as <-. simpl. lia.
    + apply (IH k) in E; [lia|].
      rewrite shiftr_7. apply Z.div_le_lower_bound; [lia|].
      replace (7 * Z.of_nat (S k)) with (7 + 7 * Z.of_nat k) in Hv by lia.
      rewrite Z.pow_add_r in Hv by lia. change (2 ^ 7) with 128 in Hv. lia.
Qed.

Lemma encode_varint_unfold (n : Z) :
  encode_varint n
  = (let v := if n <? 0 then n + 2 ^ 64 else n in
     b ← encode_varint_loop (S (Z.to_nat (Z.log2 v))) (Z.land v 0x7F) (Z.shiftr v 7) [];
     Ok (map byte_of b)).
Proof. reflexivity. Qed.

Lemma encode_varint_returns (v : Z) :
  0 <= v ->
  exists out,
    encode_varint_loop (S (Z.to_nat (Z.log2 v))) (Z.land v 0x7F) (Z.shiftr v 7) [] = Ok out.
Proof.
  intros Hv.
  apply encode_varint_loop_enough.
  - apply Z.shiftr_nonneg. assumption.
  - right.
    assert (Z.log2 (Z.shiftr v 7) <= Z.log2 v).
    { apply Z.log2_le_mono. rewrite shiftr_7.
      apply Z.div_le_upper_bound; lia. }
    pose proof (Z.log2_nonneg v). lia.
Qed.

End VarintShape.

Section VarintEncoding.
Import Wire.

Lemma high_bit (x : Z) : 128 <= x < 256 -> Z.land x 0x80 <> 0.
Proof.
  intros Hx.
  destruct (group_more (x - 128) ltac:(lia)) as (_ & _ & Hh).
  replace x with (Z.lor 0x80 (x - 128)) at 1; [exact Hh|].
  rewrite Z.lor_comm.
  pose proof (lor_shiftl_add (x - 128) 1 7 ltac:(lia)) as L.
  change (Z.shiftl 1 7) with 128 in L. change (2 ^ 7) with 128 in L.
  rewrite L by lia. lia.
Qed.

(** X1. [encode_varint] returns for every value from [-2^64] up. What it
    writes is a run of bytes with the continuation bit followed by one
    byte without it, and a value below [2^64] takes at most ten bytes. *)
Theorem encode_varint_wellformed (n : Z) :
  - 2 ^ 64 <= n ->
  exists pre last,
    encode_varint n = Ok (pre ++ [last])
    /\ List.Forall (fun x => Z.land (byte_val x) 0x80 <> 0) pre
    /\ Z.land (byte_val last) 0x80 = 0
    /\ (n < 2 ^ 64 -> (length pre < 10)%nat).
Proof.
  intros Hn. rewrite encode_varint_unfold.
  set (v := if n <? 0 then n + 2 ^ 64 else n).
  assert (Hv : 0 <= v /\ (n < 2 ^ 64 -> v < 2 ^ 64)).
  { subst v. destruct (Z.ltb_spec n 0); lia. }
  destruct Hv as [Hv Hlt]. cbv zeta.
  destruct (encode_varint_returns v Hv) as [out Hout].
  rewrite Hout. simpl.
  pose proof Hout as Hshape.
  apply encode_varint_loop_shape in Hshape;
    [|rewrite land_127; apply Z.mod_pos_bound; lia|apply Z.shiftr_nonneg; assumption].
  destruct Hshape as (pre & last & -> & Hpre & Hlast).
  exists (map byte_of pre), (byte_of last).
  rewrite map_app. split; [reflexivity|].
  split; [|split].
  - apply List.Forall_forall. intros x Hx.
    apply in_map_iff in Hx. destruct Hx as (z & <- & Hz).
    rewrite List.Forall_forall in Hpre. specialize (Hpre z Hz).
    rewrite byte_val_of by lia. apply high_bit. assumption.
  - rewrite byte_val_of by lia. apply group_last. assumption.
  - intros Hn'. specialize (Hlt Hn').
    apply (encode_varint_loop_length _ 9) in Hout.
    + rewrite length_app in Hout. simpl in Hout. rewrite length_map. lia.
    + split; [apply Z.shiftr_nonneg; assumption|].
      rewrite shiftr_7. apply Z.div_lt_upper_bound; [lia|]. simpl. lia.
Qed.

Lemma encode_varint_wellformed_witness :
  exists pre last,
    encode_varint (-1) = Ok (pre ++ [last])
    /\ List.Forall (fun x => Z.land (byte_val x) 0x80 <> 0) pre
    /\ Z.land (byte_val last) 0x80 = 0
    /\ (-1 < 2 ^ 64 -> (length pre < 10)%nat).
Proof. apply (encode_varint_wellformed (-1)). lia. Defined.

(** X2. For a value below [-2^64] the loop of [encode_varint] does not
    end: the value is still negative after [value += 1 << 64], and a
    negative value stays negative under [>>= 7], so the loop reaches every
    bound. *)
Theorem encode_varint_never_returns (n : Z) :
  n < - 2 ^ 64 ->
  encode_varint n = Raise OutOfFuel
  /\ forall (fuel : nat) (b : list Z),
       encode_varint_loop fuel (Z.land (n + Z.shiftl 1 64) 0x7F)
         (Z.shiftr (n + Z.shiftl 1 64) 7) b
       = Raise OutOfFuel.
Proof.
  intros Hn.
  assert (Hneg : Z.shiftr (n + Z.shiftl 1 64) 7 < 0).
  { apply Z.shiftr_neg. change (Z.shiftl 1 64) with (2 ^ 64). lia. }
  split.
  - unfold encode_varint. destruct (Z.ltb_spec n 0); [|lia].
    rewrite encode_varint_loop_negative by assumption. reflexivity.
  - intros fuel b. apply encode_varint_loop_negative. assumption.
Qed.

Lemma encode_varint_never_returns_witness :
  encode_varint (- 2 ^ 64 - 1) = Raise OutOfFuel
  /\ forall (fuel : nat) (b : list Z),
       encode_varint_loop fuel (Z.land (- 2 ^ 64 - 1 + Z.shiftl 1 64) 0x7F)
         (Z.shiftr (- 2 ^ 64 - 1 + Z.shiftl 1 64) 7) b
       = Raise OutOfFuel.
Proof. apply (encode_varint_never_returns (- 2 ^ 64 - 1)). lia. Defined.

Lemma getitem_middle (pre b post : bytes) (k : nat) (x : byte) :
  nth_error b k = Some x ->
  getitem (pre ++ b ++ post) (len pre + Z.of_nat k) = Some x.
Proof.
  intros Hk.
  apply nth_error_split in Hk. destruct Hk as (b1 & b2 & -> & <-).
  replace (pre ++ (b1 ++ x :: b2) ++ post) with ((pre ++ b1) ++ x :: (b2 ++ post))
    by (rewrite <- !app_assoc; reflexivity).
  replace (len pre + Z.of_nat (length b1)) with (len (pre ++ b1))
    by (rewrite len_app; reflexivity).
  apply getitem_app.
Qed.

(** X3. A value of [2^70] or more is encoded without complaint, into
    eleven bytes or more, and [decode_varint] rejects what was written
    with its [ValueError], wherever it stands in a buffer. *)
Theorem encode_varint_oversized (n : Z) :
  2 ^ 70 <= n ->
  exists b,
    encode_varint n = Ok b
    /\ (10 < length b)%nat
    /\ forall pre post,
         decode_varint (pre ++ b ++ post) (len pre) = Raise (ValueError too_many_bytes).
Proof.
  intros Hn. rewrite encode_varint_unfold.
  destruct (Z.ltb_spec n 0); [lia|]. cbv zeta.
  destruct (encode_varint_returns n ltac:(lia)) as [out Hout].
  rewrite Hout. simpl. exists (map byte_of out). split; [reflexivity|].
  pose proof Hout as Hshape.
  apply encode_varint_loop_shape in Hshape;
    [|rewrite land_127; apply Z.mod_pos_bound; lia|apply Z.shiftr_nonneg; lia].
  destruct Hshape as (gs & last & -> & Hgs & Hlast).
  apply (encode_varint_loop_long _ 9) in Hout.
  2:{ rewrite shiftr_7. apply Z.div_le_lower_bound; [lia|]. simpl. lia. }
  rewrite length_app in Hout. simpl in Hout.
  split; [rewrite length_map, length_app; simpl; lia|].
  intros pre post.
  apply (decode_varint_loop_spec (pre ++ map byte_of (gs ++ [last]) ++ post) 10 0 0 (len pre));
    [lia|reflexivity|].
  intros k Hk.
  destruct (nth_error gs k) as [z|] eqn:Ez.
  2:{ apply nth_error_None in Ez. lia. }
  exists (byte_of z). split.
  - apply getitem_middle. rewrite map_app, nth_error_app1
      by (rewrite length_map; apply nth_error_Some; congruence).
    rewrite nth_error_map, Ez. reflexivity.
  - rewrite List.Forall_forall in Hgs.
    apply nth_error_In in Ez. specialize (Hgs z Ez).
    rewrite byte_val_of by lia. apply high_bit. assumption.
Qed.

Lemma encode_varint_oversized_witness :
  exists b,
    encode_varint (2 ^ 70) = Ok b
    /\ (10 < length b)%nat
    /\ forall pre post,
         decode_varint (pre ++ b ++ post) (len pre) = Raise (ValueError too_many_bytes).
Proof. apply (encode_varint_oversized (2 ^ 70)). lia. Defined.

End VarintEncoding.

(** ** Scalar values on the wire *)

Section ScalarValues.
Import Wire Runtime.

(** X4. [uint32], [uint64] and [enum] fields: the varint that
    [_preprocess_single] writes for [n] is read back by [decode_varint] and
    [_postprocess_single] as [n] when [n] is not negative and as
    [n + 2^64] when it is; a negative enumeration value is not read
    back. *)
Theorem unsigned_round_trip (n : Z) :
  - 2 ^ 64 <= n < 2 ^ 64 ->
  forall (t : proto_type),
    t = TYPE_UINT32 \/ t = TYPE_UINT64 \/ t = TYPE_ENUM ->
    forall to_bytes from_bytes proto_meta field_number field_name,
    exists b,
      _preprocess_single to_bytes t None (VInt n) = Ok b
      /\ forall pre post, exists raw,
           decode_varint (pre ++ b ++ post) (len pre) = Ok (raw, len pre + len b)
           /\ _postprocess_single from_bytes proto_meta WIRE_VARINT
                (proto_field field_number t) field_name (VInt raw)
              = Ok (VInt (if n <? 0 then n + 2 ^ 64 else n)).
Proof.
  intros Hn t Ht to_bytes from_bytes proto_meta field_number field_name.
  destruct (encode_decode_raw n Hn) as (b & Hb & Hdec).
  assert (Hmod : n mod 2 ^ 64 = if n <? 0 then n + 2 ^ 64 else n).
  { destruct (Z.ltb_spec n 0).
    - symmetry. apply Z.mod_unique with (q := -1); lia.
    - apply Z.mod_small. lia. }
  exists b. split.
  - destruct Ht as [-> | [-> | ->]]; exact Hb.
  - intros pre post. exists (n mod 2 ^ 64). split; [apply Hdec|].
    rewrite Hmod. destruct Ht as [-> | [-> | ->]]; reflexivity.
Qed.

Lemma unsigned_round_trip_witness :
  exists b,
    _preprocess_single (fun _ => Ok []) TYPE_ENUM None (VInt (-1)) = Ok b
    /\ forall pre post, exists raw,
         decode_varint (pre ++ b ++ post) (len pre) = Ok (raw, len pre + len b)
         /\ _postprocess_single (fun _ _ => Raise Unmodelled)
              (Build_MessageClass "Foo" []) WIRE_VARINT
              (proto_field 1 TYPE_ENUM) "x" (VInt raw)
            = Ok (VInt (if -1 <? 0 then -1 + 2 ^ 64 else -1)).
Proof.
  apply (unsigned_round_trip (-1)); [lia|].
  right; right; reflexivity.
Defined.

(** X5. Whatever varint stands on the wire, [_postprocess_single] reads
    an [int32] field as an integer of [-2^31, 2^31) and an [int64] field
    as one of [-2^63, 2^63), congruent to the varint modulo [2^32] and
    [2^64]. *)
Theorem signed_reading_in_range (raw : Z) :
  forall from_bytes proto_meta field_number field_name,
    (exists v,
       _postprocess_single from_bytes proto_meta WIRE_VARINT
         (proto_field field_number TYPE_INT32) field_name (VInt raw) = Ok (VInt v)
       /\ - 2 ^ 31 <= v < 2 ^ 31 /\ (v - raw) mod 2 ^ 32 = 0)
    /\ (exists v,
          _postprocess_single from_bytes proto_meta WIRE_VARINT
            (proto_field field_number TYPE_INT64) field_name (VInt raw) = Ok (VInt v)
          /\ - 2 ^ 63 <= v < 2 ^ 63 /\ (v - raw) mod 2 ^ 64 = 0).
Proof.
  intros from_bytes proto_meta field_number field_name.
  assert (H : forall bits, 1 <= bits ->
            - 2 ^ (bits - 1) <= sign_extend bits raw < 2 ^ (bits - 1)
            /\ (sign_extend bits raw - raw) mod 2 ^ bits = 0).
  { intros bits Hb. rewrite sign_extend_spec by assumption.
    assert (Hp : 2 ^ bits = 2 * 2 ^ (bits - 1)).
    { replace bits with (1 + (bits - 1)) at 1 by lia.
      rewrite Z.pow_add_r by lia. reflexivity. }
    assert (Hpos : 0 < 2 ^ (bits - 1)) by (apply Z.pow_pos_nonneg; lia).
    assert (Hm : 0 <= raw mod 2 ^ bits < 2 ^ bits) by (apply Z.mod_pos_bound; lia).
    pose proof (Z.div_mod raw (2 ^ bits) ltac:(lia)) as Hdm.
    destruct (Z.ltb_spec (raw mod 2 ^ bits) (2 ^ (bits - 1))).
    - split; [lia|].
      replace (raw mod 2 ^ bits - raw) with (- (raw / 2 ^ bits) * 2 ^ bits) by lia.
      apply Z_mod_mult.
    - split; [lia|].
      replace (raw mod 2 ^ bits - 2 ^ bits - raw)
        with ((- (raw / 2 ^ bits) - 1) * 2 ^ bits) by lia.
      apply Z_mod_mult. }
  split.
  - exists (sign_extend 32 raw). split; [reflexivity|]. apply (H 32). lia.
  - exists (sign_extend 64 raw). split; [reflexivity|]. apply (H 64). lia.
Qed.

(** X6. The zig-zag code is a bijection between the integers and the
    non-negative integers: [zigzag n] is never negative, [unzigzag] undoes
    [zigzag], and [zigzag] undoes [unzigzag] on every non-negative [v]. *)
Theorem zigzag_onto (v : Z) :
  0 <= v ->
  zigzag (unzigzag v) = v /\ forall n, 0 <= zigzag n /\ unzigzag (zigzag n) = n.
Proof.
  intros Hv. split.
  - rewrite zigzag_spec. unfold unzigzag.
    rewrite land_1, Z.shiftr_div_pow2 by lia. change (2 ^ 1) with 2.
    pose proof (Z.div_mod v 2 ltac:(lia)) as Hdm.
    pose proof (Z.mod_pos_bound v 2 ltac:(lia)) as Hm.
    assert (Hq : 0 <= v / 2) by (apply Z.div_pos; lia).
    assert (E : v mod 2 = 0 \/ v mod 2 = 1) by lia.
    destruct E as [E|E]; rewrite E.
    + change (- 0) with 0. rewrite Z.lxor_0_r.
      destruct (Z.geb_spec (v / 2) 0); lia.
    + change (- (1)) with (-1). rewrite Z.lxor_m1_r. unfold Z.lnot.
      destruct (Z.geb_spec (Z.pred (- (v / 2))) 0); lia.
  - intros n. split; [|apply unzigzag_zigzag].
    rewrite zigzag_spec. destruct (Z.geb_spec n 0); lia.
Qed.

Lemma zigzag_onto_witness :
  zigzag (unzigzag 3) = 3 /\ forall n, 0 <= zigzag n /\ unzigzag (zigzag n) = n.
Proof. apply (zigzag_onto 3). lia. Defined.

End ScalarValues.

Section FixedWidth.
Import Wire Runtime.

Lemma length_le_bytes (n : nat) : forall z, length (le_bytes n z) = n.
Proof. induction n as [|n IH]; intros z; simpl; [reflexivity|]. rewrite IH. reflexivity. Qed.

Lemma le_int_le_bytes (n : nat) : forall z,
  le_int (le_bytes n z) = z mod 2 ^ (8 * Z.of_nat n).
Proof.
  induction n as [|n IH]; intros z.
  - simpl. rewrite Z.mod_1_r. reflexivity.
  - cbn [le_bytes le_int]. rewrite IH.
    change 255 with (Z.ones 8). rewrite Z.land_ones by lia.
    assert (Hm : 0 <= z mod 2 ^ 8 < 2 ^ 8) by (apply Z.mod_pos_bound; lia).
    rewrite byte_val_of by (change 256 with (2 ^ 8); exact Hm).
    rewrite lor_shiftl_add by lia.
    rewrite Z.shiftr_div_pow2 by lia.
    replace (8 * Z.of_nat (S n)) with (8 + 8 * Z.of_nat n) by lia.
    rewrite Z.pow_add_r by lia.
    rewrite Z.rem_mul_r by (try apply Z.pow_pos_nonneg; lia).
    lia.
Qed.

Lemma struct_round_trip (n : nat) (signed : bool) (lo hi v : Z) :
  (0 < n)%nat ->
  (if signed then lo = - 2 ^ (8 * Z.of_nat n - 1) /\ hi = 2 ^ (8 * Z.of_nat n - 1)
   else lo = 0 /\ hi = 2 ^ (8 * Z.of_nat n)) ->
  lo <= v < hi ->
  let u := le_int (le_bytes n (v mod 2 ^ (8 * Z.of_nat n))) in
  let half := 2 ^ (8 * Z.of_nat n - 1) in
  (if signed && (half <=? u) then u - 2 * half else u) = v.
Proof.
  intros Hn Hr Hv u half. subst u.
  rewrite le_int_le_bytes, Z.mod_mod by (apply Z.pow_nonzero; lia).
  assert (Hp : 2 ^ (8 * Z.of_nat n) = 2 * half).
  { subst half. replace (8 * Z.of_nat n) with (1 + (8 * Z.of_nat n - 1)) at 1 by lia.
    rewrite Z.pow_add_r by lia. reflexivity. }
  assert (Hpos : 0 < half) by (apply Z.pow_pos_nonneg; lia).
  destruct signed; simpl.
  - destruct Hr as [-> ->]. fold half in Hv.
    destruct (Z.lt_ge_cases v 0).
    + replace (v mod 2 ^ (8 * Z.of_nat n)) with (v + 2 * half)
        by (apply Z.mod_unique with (q := -1); lia).
      destruct (Z.leb_spec half (v + 2 * half)); lia.
    + rewrite Z.mod_small by lia.
      destruct (Z.leb_spec half v); lia.
  - destruct Hr as [-> ->]. apply Z.mod_small. lia.
Qed.

(** X7. [fixed32], [sfixed32], [fixed64] and [sfixed64] fields: a value in
    the range of the type is packed into four or eight bytes that
    [_postprocess_single] unpacks to the same value; a value outside the
    range makes [_preprocess_single] raise [struct.error] (it is not
    wrapped around, as it is for the varint types). *)
Theorem fixed_round_trip (t : proto_type) (size : nat) (lo hi wire v : Z) :
  fixed_layout t = Some (size, lo, hi, wire) ->
  forall to_bytes from_bytes proto_meta field_number field_name,
    (lo <= v < hi ->
     exists b,
       _preprocess_single to_bytes t None (VInt v) = Ok b
       /\ length b = size
       /\ _postprocess_single from_bytes proto_meta wire
            (proto_field field_number t) field_name (VBytes b)
          = Ok (VInt v))
    /\ (~ lo <= v < hi ->
        _preprocess_single to_bytes t None (VInt v) = Raise StructError).
Proof.
  intros Ht to_bytes from_bytes proto_meta field_number field_name.
  destruct t; try discriminate; injection Ht as <- <- <- <-;
    (split;
     [ intros Hv;
       eexists; split;
       [ unfold _preprocess_single, struct_pack; cbn [type_in existsb bool_decide orb as_int mbind outcome_bind decide_rel];
         cbn -[Z.pow Z.mul le_bytes Z.modulo Z.leb Z.ltb];
         match goal with
         | |- context [(?a <=? v) && (v <? ?b)] =>
             destruct (Z.leb_spec a v); [|lia]; destruct (Z.ltb_spec v b); [|lia]
         end; reflexivity
       | split; [apply length_le_bytes|];
         unfold _postprocess_single, struct_unpack;
         cbn -[Z.pow Z.mul le_bytes le_int Z.modulo Z.leb Z.ltb Z.sub];
         rewrite length_le_bytes; cbn -[Z.pow Z.mul le_bytes le_int Z.modulo Z.leb Z.ltb Z.sub];
         f_equal; f_equal ]
     | intros Hv;
       unfold _preprocess_single, struct_pack;
       cbn -[Z.pow Z.mul le_bytes Z.modulo Z.leb Z.ltb];
       match goal with
       | |- context [(?a <=? v) && (v <? ?b)] =>
           destruct (Z.leb_spec a v); destruct (Z.ltb_spec v b); try lia
       end; reflexivity ]).
  - apply (struct_round_trip 4 false 0 (2 ^ 32) v); [lia|split; reflexivity|exact Hv].
  - apply (struct_round_trip 4 true (- 2 ^ 31) (2 ^ 31) v); [lia|split; reflexivity|exact Hv].
  - apply (struct_round_trip 8 false 0 (2 ^ 64) v); [lia|split; reflexivity|exact Hv].
  - apply (struct_round_trip 8 true (- 2 ^ 63) (2 ^ 63) v); [lia|split; reflexivity|exact Hv].
Qed.

Lemma fixed_round_trip_witness :
  (- 2 ^ 31 <= -2 < 2 ^ 31 ->
   exists b,
     _preprocess_single (fun _ => Ok []) TYPE_SFIXED32 None (VInt (-2)) = Ok b
     /\ length b = 4%nat
     /\ _postprocess_single (fun _ _ => Raise Unmodelled) (Build_MessageClass "Foo" [])
          WIRE_FIXED_32 (proto_field 1 TYPE_SFIXED32) "x" (VBytes b)
        = Ok (VInt (-2)))
  /\ (~ - 2 ^ 31 <= -2 < 2 ^ 31 ->
      _preprocess_single (fun _ => Ok []) TYPE_SFIXED32 None (VInt (-2))
      = Raise StructError).
Proof. apply (fixed_round_trip TYPE_SFIXED32 4 (- 2 ^ 31) (2 ^ 31) WIRE_FIXED_32 (-2)). reflexivity. Defined.


End FixedWidth.

(** ** Keys: what [_serialize_single] writes and [parse_fields] reads *)

Section FieldKeys.
Import Wire Runtime.

Lemma slice_app_mid (a b c : bytes) :
  slice (a ++ b ++ c) (len a) (len a + len b) = b.
Proof.
  unfold slice, clamp_index, len. rewrite !length_app.
  destruct (Z.ltb_spec (Z.of_nat (length a)) 0); [lia|].
  destruct (Z.ltb_spec (Z.of_nat (length a) + Z.of_nat (length b)) 0); [lia|].
  rewrite !Z.max_r, !Z.min_r by lia.
  replace (Z.to_nat (Z.of_nat (length a) + Z.of_nat (length b) - Z.of_nat (length a)))
    with (length b) by lia.
  rewrite Nat2Z.id.
  rewrite skipn_app, skipn_all, Nat.sub_diag, drop_0. cbn [app].
  rewrite firstn_app, firstn_all, Nat.sub_diag, take_0. apply app_nil_r.
Qed.

Lemma key_split (field_number w : Z) :
  0 <= field_number -> 0 <= w < 8 ->
  Z.lor (Z.shiftl field_number 3) w = w + field_number * 8
  /\ Z.shiftr (w + field_number * 8) 3 = field_number
  /\ Z.land (w + field_number * 8) 0x7 = w.
Proof.
  intros Hf Hw. split; [|split].
  - rewrite Z.lor_comm. rewrite lor_shiftl_add by (simpl; lia). reflexivity.
  - rewrite Z.shiftr_div_pow2 by lia. change (2 ^ 3) with 8.
    rewrite Z.div_add by lia. rewrite Z.div_small by lia. lia.
  - change 7 with (Z.ones 3). rewrite Z.land_ones by lia. change (2 ^ 3) with 8.
    rewrite Z.mod_add by lia. apply Z.mod_small. lia.
Qed.

(** One field that fills the buffer is all that [parse_fields] yields. *)
Lemma parse_fields_single (out : bytes) (f : ParsedField) :
  out <> [] -> parse_field out 0 = Ok (f, len out) ->
  parse_fields out = ([f], None).
Proof.
  intros Hne Hf. unfold parse_fields.
  destruct out as [|x out]; [contradiction|].
  cbn [length parse_fields_loop].
  destruct (Z.ltb_spec 0 (len (x :: out))) as [_|H]; [|unfold len in H; simpl in H; lia].
  rewrite Hf.
  destruct (length out); cbn [parse_fields_loop]; rewrite Z.ltb_irrefl; reflexivity.
Qed.

(** The key that [_serialize_single] writes is read back by
    [decode_varint] as the field number and the wire type. *)
Lemma key_round_trip (field_number w : Z) :
  0 <= field_number < 2 ^ 61 -> 0 <= w < 8 ->
  exists key,
    encode_varint (Z.lor (Z.shiftl field_number 3) w) = Ok key
    /\ key <> []
    /\ forall post,
         decode_varint (key ++ post) 0 = Ok (w + field_number * 8, len key).
Proof.
  intros Hf Hw.
  destruct (key_split field_number w) as (E & _ & _); [lia|assumption|].
  rewrite E.
  destruct (encode_decode_raw (w + field_number * 8) ltac:(lia)) as (key & Hk & Hdec).
  exists key. split; [assumption|]. split.
  - intros ->. specialize (Hdec [] []). discriminate.
  - intros post. specialize (Hdec [] post).
    rewrite Z.mod_small in Hdec by lia. exact Hdec.
Qed.

(** X8. What [_serialize_single] writes for an integer of a varint type,
    with a field number below [2^61], is read by [parse_fields] as exactly
    one field: that number, wire type 0, the varint of the value (zig-zag
    for [sint32] and [sint64], two's complement otherwise), and the whole
    output as its raw bytes. *)
Theorem varint_field_parses (field_number n : Z) (t : proto_type) :
  0 <= field_number < 2 ^ 61 -> - 2 ^ 63 <= n < 2 ^ 63 ->
  type_in t WIRE_VARINT_TYPES = true ->
  forall to_bytes serialize_empty wraps,
  exists out,
    _serialize_single to_bytes field_number t (VInt n) serialize_empty wraps = Ok out
    /\ parse_fields out
       = ([Build_ParsedField field_number WIRE_VARINT
             (DInt (if type_in t [TYPE_SINT32; TYPE_SINT64] then zigzag n
                    else if n <? 0 then n + 2 ^ 64 else n))
             out],
          None).
Proof.
  intros Hf Hn Ht to_bytes serialize_empty wraps.
  set (x := if type_in t [TYPE_SINT32; TYPE_SINT64] then zigzag n else n).
  assert (Hx : - 2 ^ 64 <= x < 2 ^ 64).
  { subst x. destruct (type_in t [TYPE_SINT32; TYPE_SINT64]); [|lia].
    rewrite zigzag_spec. destruct (Z.geb_spec n 0); lia. }
  assert (Hpre : _preprocess_single to_bytes t wraps (VInt n) = encode_varint x).
  { subst x. destruct t; try discriminate; reflexivity. }
  destruct (encode_decode_raw x Hx) as (value & Hvalue & Hdec).
  destruct (key_round_trip field_number 0) as (key & Hkey & Hne & Hkdec); [assumption|lia|].
  rewrite Z.lor_0_r in Hkey.
  exists (key ++ value). split.
  - unfold _serialize_single. rewrite Hpre, Hvalue. cbn [mbind outcome_bind].
    rewrite Ht, Hkey. reflexivity.
  - apply parse_fields_single.
    + destruct key; [contradiction|discriminate].
    + unfold parse_field. rewrite Hkdec. cbn [mbind outcome_bind].
      destruct (key_split field_number 0) as (_ & -> & ->); [lia|lia|].
      unfold parse_payload. change (0 =? WIRE_VARINT) with true. cbv iota.
      specialize (Hdec key []). rewrite app_nil_r in Hdec. rewrite Hdec.
      cbn [mbind outcome_bind]. rewrite <- len_app.
      f_equal. f_equal. f_equal.
      * f_equal. subst x. destruct (type_in t [TYPE_SINT32; TYPE_SINT64]).
        -- apply Z.mod_small. rewrite zigzag_spec. destruct (Z.geb_spec n 0); lia.
        -- destruct (Z.ltb_spec n 0).
           ++ symmetry. apply Z.mod_unique with (q := -1); lia.
           ++ apply Z.mod_small. lia.
      * pose proof (slice_app_mid [] (key ++ value) []) as S.
        rewrite app_nil_r in S. exact S.
Qed.

Lemma varint_field_parses_witness :
  exists out,
    _serialize_single (fun _ => Ok []) 1 TYPE_SINT32 (VInt (-3)) false None = Ok out
    /\ parse_fields out
       = ([Build_ParsedField 1 WIRE_VARINT
             (DInt (if type_in TYPE_SINT32 [TYPE_SINT32; TYPE_SINT64] then zigzag (-3)
                    else if -3 <? 0 then -3 + 2 ^ 64 else -3))
             out],
          None).
Proof.
  apply (varint_field_parses 1 (-3) TYPE_SINT32); [lia|lia|reflexivity].
Defined.

(** X9. What [_serialize_single] writes for a [string] or [bytes] value
    is read by [parse_fields] as exactly one length-delimited field with
    the same number and payload; an empty payload without
    [serialize_empty] is not written at all. *)
Theorem bytes_field_parses (field_number : Z) (t : proto_type) (payload : bytes)
    (serialize_empty : bool) :
  0 <= field_number < 2 ^ 61 -> len payload < 2 ^ 64 ->
  t = TYPE_STRING \/ t = TYPE_BYTES ->
  forall to_bytes,
  exists out,
    _serialize_single to_bytes field_number t
      (match t with TYPE_STRING => VStr payload | _ => VBytes payload end)
      serialize_empty None = Ok out
    /\ if negb (Nat.eqb (length payload) 0) || serialize_empty
       then parse_fields out
            = ([Build_ParsedField field_number WIRE_LEN_DELIM (DBytes payload) out], None)
       else out = [].
Proof.
  intros Hf Hlen Ht to_bytes.
  pose proof (len_nonneg payload) as Hnn.
  destruct (encode_decode_raw (len payload) ltac:(lia)) as (nb & Hnb & Hdec).
  destruct (key_round_trip field_number 2) as (key & Hkey & Hne & Hkdec); [assumption|lia|].
  assert (Hser : _serialize_single to_bytes field_number t
                   (match t with TYPE_STRING => VStr payload | _ => VBytes payload end)
                   serialize_empty None
                 = if negb (Nat.eqb (length payload) 0) || serialize_empty
                   then Ok (key ++ nb ++ payload) else Ok []).
  { transitivity
      (if negb (Nat.eqb (length payload) 0) || serialize_empty || is_true None
       then key ← encode_varint (Z.lor (Z.shiftl field_number 3) 2);
            n ← encode_varint (len payload);
            Ok (key ++ n ++ payload)
       else Ok []).
    - destruct Ht as [-> | ->]; reflexivity.
    - cbn [is_true]. rewrite orb_false_r, Hkey, Hnb. reflexivity. }
  rewrite Hser.
  destruct (negb (Nat.eqb (length payload) 0) || serialize_empty).
  2:{ exists []. split; reflexivity. }
  exists (key ++ nb ++ payload). split; [reflexivity|].
  apply parse_fields_single.
  - destruct key; [contradiction|discriminate].
  - unfold parse_field. rewrite Hkdec. cbn [mbind outcome_bind].
    destruct (key_split field_number 2) as (_ & -> & ->); [lia|lia|].
    unfold parse_payload.
    change (2 =? WIRE_VARINT) with false. change (2 =? WIRE_FIXED_64) with false.
    change (2 =? WIRE_LEN_DELIM) with true. cbv iota.
    specialize (Hdec key payload). rewrite Hdec. cbn [mbind outcome_bind].
    rewrite Z.mod_small by lia.
    replace (key ++ nb ++ payload) with ((key ++ nb) ++ payload ++ [])
      by (rewrite app_nil_r, <- app_assoc; reflexivity).
    rewrite <- (len_app key nb). rewrite slice_app_mid.
    rewrite <- (len_app (key ++ nb) payload).
    f_equal. f_equal; [|rewrite app_nil_r; reflexivity].
    f_equal.
    pose proof (slice_app_mid [] ((key ++ nb) ++ payload) []) as S.
    rewrite !app_nil_r in *. exact S.
Qed.

Lemma bytes_field_parses_witness :
  exists out,
    _serialize_single (fun _ => Ok []) 2 TYPE_STRING (VStr ["h"%byte; "i"%byte])
      false None = Ok out
    /\ if negb (Nat.eqb (length ["h"%byte; "i"%byte]) 0) || false
       then parse_fields out
            = ([Build_ParsedField 2 WIRE_LEN_DELIM (DBytes ["h"%byte; "i"%byte]) out], None)
       else out = [].
Proof.
  apply (bytes_field_parses 2 TYPE_STRING ["h"%byte; "i"%byte] false);
    [lia|unfold len; simpl; lia|left; reflexivity].
Defined.

End FieldKeys.

Section ParsedShape.
Import Wire.

Lemma length_slice (value : bytes) (i k : Z) :
  0 <= i -> 0 <= k -> (length (slice value i (i + k)) <= Z.to_nat k)%nat.
Proof.
  intros Hi Hk. unfold slice, clamp_index.
  destruct (Z.ltb_spec i 0); [lia|]. destruct (Z.ltb_spec (i + k) 0); [lia|].
  rewrite length_firstn. lia.
Qed.

Lemma parse_field_shape (value : bytes) (i : Z) :
  0 <= i ->
  match parse_field value i with
  | Ok (f, i') => well_shaped f /\ i < i'
  | Raise e => e = ValueError too_many_bytes \/ e = IndexError
  end.
Proof.
  intros Hi. unfold parse_field.
  destruct (decode_varint value i) as [[num_wire i1]|e] eqn:Ek; cbn [mbind outcome_bind].
  2:{ apply decode_varint_error in Ek. assumption. }
  apply decode_varint_advances in Ek; [|assumption].
  destruct Ek as (Hi1 & Hnw).
  assert (Hnum : 0 <= Z.shiftr num_wire 3) by (apply Z.shiftr_nonneg; assumption).
  assert (Hw : 0 <= Z.land num_wire 7 < 8).
  { change 7 with (Z.ones 3). rewrite Z.land_ones by lia. apply Z.mod_pos_bound. lia. }
  set (w := Z.land num_wire 7) in *.
  unfold parse_payload.
  destruct (Z.eqb_spec w WIRE_VARINT) as [E0|N0].
  - destruct (decode_varint value i1) as [[d i2]|e] eqn:Ed; cbn [mbind outcome_bind].
    2:{ apply decode_varint_error in Ed. assumption. }
    apply decode_varint_advances in Ed; [|lia].
    split; [|lia]. repeat split; cbn; try lia.
  - destruct (Z.eqb_spec w WIRE_FIXED_64) as [E1|N1].
    + split; [|lia]. repeat split; cbn; try lia.
      left. split; [assumption|].
      apply (length_slice value i1 8); lia.
    + destruct (Z.eqb_spec w WIRE_LEN_DELIM) as [E2|N2].
      * destruct (decode_varint value i1) as [[d i2]|e] eqn:Ed; cbn [mbind outcome_bind].
        2:{ apply decode_varint_error in Ed. assumption. }
        apply decode_varint_advances in Ed; [|lia].
        split; [|lia]. repeat split; cbn; try lia.
      * destruct (Z.eqb_spec w WIRE_FIXED_32) as [E5|N5].
        -- split; [|lia]. repeat split; cbn; try lia.
           right; right. split; [assumption|].
           apply (length_slice value i1 4); lia.
        -- split; [|lia]. repeat split; cbn; try lia; assumption.
Qed.

Lemma parse_fields_loop_shape (value : bytes) (fuel : nat) :
  forall i fields e,
    0 <= i -> len value - i <= Z.of_nat fuel ->
    parse_fields_loop fuel value i = (fields, e) ->
    List.Forall well_shaped fields
    /\ (forall x, e = Some x -> x = ValueError too_many_bytes \/ x = IndexError).
Proof.
  induction fuel as [|fuel IH]; intros i fields e Hi Hfuel; cbn [parse_fields_loop].
  - destruct (Z.ltb_spec i (len value)); [lia|].
    intros [= <- <-]. split; [constructor|discriminate].
  - destruct (Z.ltb_spec i (len value)).
    2:{ intros [= <- <-]. split; [constructor|discriminate]. }
    pose proof (parse_field_shape value i Hi) as Hf.
    destruct (parse_field value i) as [[f i']|x].
    + destruct Hf as [Hf Hi'].
      destruct (parse_fields_loop fuel value i') as [rest e'] eqn:Er.
      intros [= <- <-].
      apply IH in Er; [|lia|lia].
      destruct Er as [Hrest He]. split; [constructor; assumption|assumption].
    + intros [= <- <-]. split; [constructor|]. intros ? [= <-]. assumption.
Qed.

(** X10. Every field that [parse_fields] yields has a non-negative number
    and a wire type from 0 to 7; its value is a non-negative integer for
    wire type 0, bytes for the types 1, 2 and 5 (at most eight and four
    bytes for the fixed types: a truncated payload is cut short, not
    rejected) and [None] for any other type. The only exceptions that end
    the parsing are the [ValueError] of an over-long varint and the
    [IndexError] of a buffer that ends inside one. *)
Theorem parse_fields_shape (b : bytes) (fields : list ParsedField) (e : option exn) :
  parse_fields b = (fields, e) ->
  List.Forall well_shaped fields
  /\ (forall x, e = Some x -> x = ValueError too_many_bytes \/ x = IndexError).
Proof.
  intros H. apply (parse_fields_loop_shape b (length b) 0); [lia|unfold len; lia|exact H].
Qed.

Lemma parse_fields_shape_witness :
  List.Forall well_shaped (fst (parse_fields [x0b; x0d; x01]))
  /\ (forall x, snd (parse_fields [x0b; x0d; x01]) = Some x ->
                x = ValueError too_many_bytes \/ x = IndexError).
Proof.
  apply (parse_fields_shape [x0b; x0d; x01]). reflexivity.
Defined.

End ParsedShape.

(** ** Attribute access *)

Section AttributeAccess.
Import Runtime.

Lemma get_field_default_set (c : MessageClass) (f : string) (d : py_value) :
  get_field_default c f = Ok d -> d <> UNSET.
Proof.
  unfold get_field_default.
  destruct (type_hint c f) as [t|]; [|discriminate].
  destruct t; intros [= <-]; discriminate.
Qed.

Lemma raw_get_set_slot_eq (m : Message) (s : list (string * py_value)) (f : string)
    (v : py_value) :
  raw_get (set_slots m (set_slot s f v)) f = Ok v.
Proof.
  unfold raw_get.
  change (slots (set_slots m (set_slot s f v))) with (set_slot s f v).
  rewrite assoc_set_slot_eq. reflexivity.
Qed.

Lemma raw_get_set_slot_ne (m : Message) (f f' : string) (v : py_value) :
  f <> f' -> raw_get (set_slots m (set_slot (slots m) f v)) f' = raw_get m f'.
Proof.
  intros Hne. unfold raw_get.
  change (slots (set_slots m (set_slot (slots m) f v))) with (set_slot (slots m) f v).
  rewrite assoc_set_slot_ne by assumption. reflexivity.
Qed.

(** What [getattr] leaves of the message. *)
Lemma getattr_frame (m m' : Message) (f : string) (v : py_value) :
  getattr m f = Ok (v, m') ->
  v <> UNSET
  /\ cls m' = cls m
  /\ _serialized_on_wire m' = _serialized_on_wire m
  /\ _unknown_fields m' = _unknown_fields m
  /\ _group_current m' = _group_current m
  /\ raw_get m' f = Ok v
  /\ (forall f', f' <> f -> raw_get m' f' = raw_get m f').
Proof.
  unfold getattr.
  destruct (raw_get m f) as [w|] eqn:Ew; cbn [mbind outcome_bind]; [|discriminate].
  destruct w;
    try (intros [= <- <-]; repeat split; (discriminate || assumption || reflexivity)).
  destruct (get_field_default (cls m) f) as [d|] eqn:Ed; cbn [mbind outcome_bind];
    [|discriminate].
  intros [= <- <-].
  split; [eapply get_field_default_set; eassumption|].
  repeat split.
  - apply raw_get_set_slot_eq.
  - intros f' Hne. apply raw_get_set_slot_ne. congruence.
Qed.

(** X11. Reading a field never gives [UNSET]; it leaves
    [_serialized_on_wire], [_group_current], [_unknown_fields] and every
    other slot as they were, and reading the field again gives the same
    value and changes nothing. *)
Theorem getattr_stable (m m' : Message) (f : string) (v : py_value) :
  getattr m f = Ok (v, m') ->
  v <> UNSET
  /\ getattr m' f = Ok (v, m')
  /\ _serialized_on_wire m' = _serialized_on_wire m
  /\ _group_current m' = _group_current m
  /\ _unknown_fields m' = _unknown_fields m
  /\ (forall f', f' <> f -> raw_get m' f' = raw_get m f').
Proof.
  intros H. apply getattr_frame in H.
  destruct H as (Hv & Hc & Hs & Hu & Hg & Hr & Hf).
  repeat split; try assumption.
  unfold getattr. rewrite Hr. cbn [mbind outcome_bind].
  destruct v; congruence.
Qed.

Lemma getattr_stable_witness :
  VInt 0 <> UNSET
  /\ getattr (set_slots (construct Examples.Foo []) [("x"%string, VInt 0)]) "x"
     = Ok (VInt 0, set_slots (construct Examples.Foo []) [("x"%string, VInt 0)])
  /\ _serialized_on_wire (set_slots (construct Examples.Foo []) [("x"%string, VInt 0)])
     = _serialized_on_wire (construct Examples.Foo [])
  /\ _group_current (set_slots (construct Examples.Foo []) [("x"%string, VInt 0)])
     = _group_current (construct Examples.Foo [])
  /\ _unknown_fields (set_slots (construct Examples.Foo []) [("x"%string, VInt 0)])
     = _unknown_fields (construct Examples.Foo [])
  /\ (forall f', f' <> "x"%string ->
        raw_get (set_slots (construct Examples.Foo []) [("x"%string, VInt 0)]) f'
        = raw_get (construct Examples.Foo []) f').
Proof.
  apply (getattr_stable (construct Examples.Foo []) _ "x" (VInt 0)). reflexivity.
Defined.

(** [__setattr__]: what the loop over the group keeps. *)
Lemma reset_siblings_unknown (attr group : string) (names : list string) :
  forall m,
    _unknown_fields (fold_left (reset_siblings attr group) names m) = _unknown_fields m
    /\ _serialized_on_wire (fold_left (reset_siblings attr group) names m)
       = _serialized_on_wire m.
Proof.
  induction names as [|n names IH]; intros m; cbn [fold_left]; [split; reflexivity|].
  destruct (IH (reset_siblings attr group m n)) as [-> ->].
  unfold reset_siblings. destruct (String.eqb n attr); destruct m; split; reflexivity.
Qed.

Lemma reset_siblings_other_group (attr group g' : string) (names : list string) :
  g' <> group ->
  forall m,
    _group_current (fold_left (reset_siblings attr group) names m) !! g'
    = _group_current m !! g'.
Proof.
  intros Hne. induction names as [|n names IH]; intros m; cbn [fold_left]; [reflexivity|].
  rewrite IH. unfold reset_siblings. destruct (String.eqb n attr); destruct m; cbn.
  - apply lookup_insert_ne. congruence.
  - reflexivity.
Qed.

Lemma setattr_frame (m : Message) (attr : string) (v : py_value) :
  cls (setattr m attr v) = cls m
  /\ _serialized_on_wire (setattr m attr v) = true
  /\ _unknown_fields (setattr m attr v) = _unknown_fields m.
Proof.
  unfold setattr.
  change (cls (set_serialized_on_wire m true)) with (cls m).
  destruct (oneof_group_by_field (cls m) attr) as [g|].
  - set (m' := fold_left _ _ _).
    assert (Hc : cls m' = cls m) by (subst m'; rewrite reset_siblings_cls; reflexivity).
    destruct (reset_siblings_unknown attr g (oneof_field_by_group (cls m) g)
                (set_serialized_on_wire m true)) as [Hu Hs].
    fold m' in Hu, Hs.
    destruct m'; cbn in *. destruct m; cbn in *. auto.
  - destruct m; cbn. auto.
Qed.

(** X12. Assigning a field changes nothing else than the field and the
    other fields of its one-of group: every field outside the group keeps
    its slot, every other group its selection, the unknown fields remain,
    and the message counts as serialized on the wire. *)
Theorem setattr_keeps_the_rest (m : Message) (attr : string) (v : py_value) :
  (forall f',
     f' <> attr ->
     (forall g, oneof_group_by_field (cls m) attr = Some g ->
                ~ In f' (oneof_field_by_group (cls m) g)) ->
     raw_get (setattr m attr v) f' = raw_get m f')
  /\ (forall g', oneof_group_by_field (cls m) attr <> Some g' ->
        _group_current (setattr m attr v) !! g' = _group_current m !! g')
  /\ cls (setattr m attr v) = cls m
  /\ _unknown_fields (setattr m attr v) = _unknown_fields m
  /\ _serialized_on_wire (setattr m attr v) = true
  /\ raw_get (setattr m attr v) attr = Ok v.
Proof.
  destruct (setattr_frame m attr v) as (Hc & Hs & Hu).
  split; [|split; [|repeat split; try assumption]].
  - intros f' Hne Hgrp. unfold setattr.
    change (cls (set_serialized_on_wire m true)) with (cls m).
    destruct (oneof_group_by_field (cls m) attr) as [g|].
    + set (m' := fold_left _ _ _).
      assert (E : assoc (slots m') f' = assoc (slots m) f').
      { subst m'. rewrite reset_siblings_slots by assumption.
        destruct (existsb _ _) eqn:Ex; [|destruct m; reflexivity].
        exfalso. apply existsb_exists in Ex. destruct Ex as (n & Hin & Hn).
        apply String.eqb_eq in Hn. subst n. exact (Hgrp g eq_refl Hin). }
      rewrite raw_get_set_slot_ne by congruence. unfold raw_get. rewrite E. reflexivity.
    + rewrite raw_get_set_slot_ne by congruence. destruct m; reflexivity.
  - intros g' Hg'. unfold setattr.
    change (cls (set_serialized_on_wire m true)) with (cls m).
    destruct (oneof_group_by_field (cls m) attr) as [g|].
    + set (m' := fold_left _ _ _).
      assert (E : _group_current m' !! g' = _group_current m !! g').
      { subst m'. rewrite reset_siblings_other_group by congruence.
        destruct m; reflexivity. }
      destruct m'; cbn in *. exact E.
    + destruct m; reflexivity.
  - unfold setattr. apply raw_get_set_slot_eq.
Qed.

End AttributeAccess.

(** ** Construction *)

Section Construction.
Import Runtime.

Lemma post_init_step_spec (kwargs : list (string * py_value)) (a : bool)
    (gc : gmap string (option string)) (x : string * FieldMetadata) :
  fst (post_init_step kwargs (a, gc) x) = a && negb (given kwargs x)
  /\ forall g,
       snd (post_init_step kwargs (a, gc) x) !! g
       = if in_group g x && given kwargs x then Some (Some (fst x))
         else if in_group g x
              then match gc !! g with Some y => Some y | None => Some None end
              else gc !! g.
Proof.
  destruct x as [n meta]. unfold post_init_step, given, in_group. cbn [fst snd].
  destruct (non_sentinel meta (init_value kwargs n meta)); cbn [fst snd].
  - split; [rewrite andb_false_r; reflexivity|]. intros g.
    destruct (oneof_group meta) as [g'|].
    + destruct (decide (g' = g)) as [->|Hne].
      * rewrite bool_decide_eq_true_2 by reflexivity. cbn. apply lookup_insert_eq.
      * rewrite bool_decide_eq_false_2 by congruence. cbn.
        rewrite lookup_insert_ne by assumption.
        destruct (gc !! g'); [reflexivity|]. apply lookup_insert_ne. assumption.
    + rewrite bool_decide_eq_false_2 by discriminate. reflexivity.
  - split; [rewrite andb_true_r; reflexivity|]. intros g.
    rewrite andb_false_r.
    destruct (oneof_group meta) as [g'|].
    + destruct (decide (g' = g)) as [->|Hne].
      * rewrite bool_decide_eq_true_2 by reflexivity.
        destruct (gc !! g) eqn:E; [exact E|]. apply lookup_insert_eq.
      * rewrite bool_decide_eq_false_2 by congruence.
        destruct (gc !! g'); [reflexivity|]. apply lookup_insert_ne. assumption.
    + rewrite bool_decide_eq_false_2 by discriminate. reflexivity.
Qed.

Lemma post_init_fold (kwargs : list (string * py_value)) (l : list (string * FieldMetadata)) :
  fst (fold_left (post_init_step kwargs) l (true, ∅)) = negb (existsb (given kwargs) l)
  /\ forall g,
       snd (fold_left (post_init_step kwargs) l (true, ∅)) !! g
       = match rev (List.filter (fun x => in_group g x && given kwargs x) l) with
         | x :: _ => Some (Some (fst x))
         | [] => if existsb (in_group g) l then Some None else None
         end.
Proof.
  induction l as [|x l IH] using rev_ind.
  - split; [reflexivity|]. intros g. cbn. apply lookup_empty.
  - rewrite fold_left_app. cbn [fold_left].
    destruct (fold_left (post_init_step kwargs) l (true, ∅)) as [a gc].
    cbn [fst snd] in IH. destruct IH as [IHa IHg].
    destruct (post_init_step_spec kwargs a gc x) as [Ha Hg].
    split.
    + rewrite Ha, IHa, existsb_app. cbn [existsb]. rewrite orb_false_r.
      destruct (existsb (given kwargs) l), (given kwargs x); reflexivity.
    + intros g. rewrite Hg, IHg. rewrite List.filter_app, rev_app_distr, existsb_app.
      cbn [List.filter existsb]. rewrite orb_false_r.
      destruct (in_group g x); cbn [andb].
      * destruct (given kwargs x); cbn [rev app]; [reflexivity|].
        rewrite orb_true_r.
        destruct (rev _) as [|y ?]; [|reflexivity].
        destruct (existsb (in_group g) l); reflexivity.
      * cbn [rev app]. rewrite orb_false_r. reflexivity.
Qed.

Lemma construct_facts (c : MessageClass) (kwargs : list (string * py_value)) :
  _serialized_on_wire (construct c kwargs)
  = existsb (given kwargs) (meta_by_field_name c)
  /\ _unknown_fields (construct c kwargs) = []
  /\ (forall g,
        _group_current (construct c kwargs) !! g
        = match rev (List.filter (fun x => in_group g x && given kwargs x)
                       (meta_by_field_name c)) with
          | x :: _ => Some (Some (fst x))
          | [] => if existsb (in_group g) (meta_by_field_name c) then Some None else None
          end).
Proof.
  destruct (post_init_fold kwargs (meta_by_field_name c)) as [Ha Hg].
  unfold construct.
  destruct (fold_left (post_init_step kwargs) (meta_by_field_name c) (true, ∅)) as [a gc].
  cbn [fst snd] in Ha, Hg. cbn [_serialized_on_wire _unknown_fields _group_current].
  split; [rewrite Ha; apply negb_involutive|].
  split; [reflexivity|exact Hg].
Qed.

(** X13. After construction, [_serialized_on_wire] tells whether some
    field was given a value that is not a sentinel, [_unknown_fields] is
    empty, and [_group_current] has an entry for exactly the groups of the
    class: the last field of the group, in declaration order, that was
    given a value, or [None] when none was. *)
Theorem construct_state (c : MessageClass) (kwargs : list (string * py_value)) :
  _serialized_on_wire (construct c kwargs)
  = existsb (given kwargs) (meta_by_field_name c)
  /\ _unknown_fields (construct c kwargs) = []
  /\ (forall g,
        _group_current (construct c kwargs) !! g
        = match rev (List.filter (fun x => in_group g x && given kwargs x)
                       (meta_by_field_name c)) with
          | x :: _ => Some (Some (fst x))
          | [] => if existsb (in_group g) (meta_by_field_name c) then Some None else None
          end)
  /\ (forall n meta, In (n, meta) (meta_by_field_name c) ->
        group_known (construct c kwargs) meta).
Proof.
  destruct (construct_facts c kwargs) as (Hs & Hu & Hg).
  split; [assumption|]. split; [assumption|]. split; [assumption|].
  intros n meta Hin g Hgrp. rewrite Hg.
  destruct (rev _) as [|y ?]; [|eexists; reflexivity].
  replace (existsb (in_group g) (meta_by_field_name c)) with true; [eexists; reflexivity|].
  symmetry. apply existsb_exists. exists (n, meta). split; [assumption|].
  unfold in_group. cbn [snd]. apply bool_decide_eq_true_2. assumption.
Qed.

Lemma lookup_meta_slot (c : MessageClass) (kwargs : list (string * py_value)) (f : string) :
  raw_get (construct c kwargs) f
  = match lookup_meta c f with
    | Some meta => Ok (init_value kwargs f meta)
    | None => Raise AttributeError
    end.
Proof.
  unfold raw_get, construct, lookup_meta.
  destruct (fold_left _ _ _) as [a gc]. cbn [slots].
  unfold assoc.
  induction (meta_by_field_name c) as [|[n meta] l IH]; [reflexivity|].
  cbn [map find]. destruct (String.eqb_spec n f) as [->|Hne]; [reflexivity|].
  exact IH.
Qed.

Lemma given_nothing (x : string * FieldMetadata) : given [] x = false.
Proof.
  destruct x as [n meta]. unfold given, init_value. cbn.
  destruct (optional meta) eqn:E; cbn; [rewrite E|]; reflexivity.
Qed.

(** X14. A message constructed without arguments is not serialized on
    the wire, has no unknown fields, selects no field in any group
    ([which_one_of] gives the empty name and [None]) and has no field
    set. *)
Theorem fresh_message (c : MessageClass) :
  _serialized_on_wire (construct c []) = false
  /\ _unknown_fields (construct c []) = []
  /\ (forall g, which_one_of (construct c []) g = Ok (""%string, VNone, construct c []))
  /\ (forall f meta, lookup_meta c f = Some meta -> is_set (construct c []) f = Ok false).
Proof.
  destruct (construct_facts c []) as (Hs & Hu & Hg).
  split; [|split; [assumption|split]].
  - rewrite Hs. apply not_true_is_false. intros H.
    apply existsb_exists in H. destruct H as (x & _ & Hx).
    rewrite given_nothing in Hx. discriminate.
  - intros g. unfold which_one_of. rewrite Hg.
    replace (List.filter (fun x => in_group g x && given [] x) (meta_by_field_name c))
      with (@nil (string * FieldMetadata)).
    + cbn [rev]. destruct (existsb (in_group g) (meta_by_field_name c)); reflexivity.
    + symmetry. clear Hs Hg.
      induction (meta_by_field_name c) as [|x l IH]; [reflexivity|].
      cbn [List.filter]. rewrite given_nothing, andb_false_r. exact IH.
  - intros f meta Hf. unfold is_set.
    replace (cls (construct c [])) with c
      by (unfold construct; destruct (fold_left _ _ _); reflexivity).
    rewrite Hf, lookup_meta_slot, Hf. cbn [mbind outcome_bind].
    unfold init_value. cbn. destruct (optional meta); reflexivity.
Qed.
End Construction.

(** ** Unknown fields *)

Section UnknownFields.
Import Wire Runtime.
Variable from_bytes : MessageClass -> bytes -> outcome Message.

Lemma add_unknown_fields_spec (m : Message) (r : bytes) :
  cls (add_unknown_fields m r) = cls m
  /\ _serialized_on_wire (add_unknown_fields m r) = true
  /\ _unknown_fields (add_unknown_fields m r) = _unknown_fields m ++ r.
Proof. destruct m. repeat split. Qed.

Lemma set_slots_spec (m : Message) (s : list (string * py_value)) :
  cls (set_slots m s) = cls m
  /\ _serialized_on_wire (set_slots m s) = _serialized_on_wire m
  /\ _unknown_fields (set_slots m s) = _unknown_fields m.
Proof. destruct m. repeat split. Qed.

Lemma deserialize_field_keeps (m m' : Message) (parsed : ParsedField) :
  deserialize_field from_bytes m parsed = Ok m' ->
  _serialized_on_wire m = true ->
  cls m' = cls m
  /\ _serialized_on_wire m' = true
  /\ _unknown_fields m'
     = _unknown_fields m
       ++ (if known_number (cls m) (Wire.number parsed) then [] else raw parsed).
Proof.
  unfold deserialize_field, known_number. intros H Hs.
  destruct (field_name_by_number (cls m) (Wire.number parsed)) as [f|].
  2:{ injection H as <-. apply add_unknown_fields_spec. }
  destruct (String.eqb f "").
  { injection H as <-. apply add_unknown_fields_spec. }
  cbn [negb].
  destruct (lookup_meta (cls m) f) as [meta|]; [|discriminate].
  match type of H with (?v ≫= _) = _ => destruct v as [value|]; [|discriminate] end.
  cbn [mbind outcome_bind] in H.
  destruct (getattr m f) as [[current m1]|] eqn:Eg; [|discriminate].
  cbn [mbind outcome_bind] in H.
  apply getattr_frame in Eg. destruct Eg as (_ & Hc & Hs1 & Hu & _).
  rewrite app_nil_r.
  assert (Hset : forall s, cls (set_slots m1 s) = cls m
                           /\ _serialized_on_wire (set_slots m1 s) = true
                           /\ _unknown_fields (set_slots m1 s) = _unknown_fields m).
  { intros s. destruct (set_slots_spec m1 s) as (-> & -> & ->). repeat split; congruence. }
  assert (Hattr : forall a v, cls (setattr m1 a v) = cls m
                              /\ _serialized_on_wire (setattr m1 a v) = true
                              /\ _unknown_fields (setattr m1 a v) = _unknown_fields m).
  { intros a v. destruct (setattr_frame m1 a v) as (-> & -> & ->). repeat split; congruence. }
  destruct (bool_decide (proto_type_of meta = TYPE_MAP)).
  - destruct value; try discriminate. destruct current; try discriminate.
    destruct (getattr m0 "value") as [[v entry]|]; [|discriminate].
    cbn [mbind outcome_bind] in H.
    destruct (getattr entry "key") as [[k ?]|]; [|discriminate].
    cbn [mbind outcome_bind] in H.
    injection H as <-. apply Hset.
  - destruct current; destruct value; injection H as <-; (apply Hset || apply Hattr).
Qed.

Lemma deserialize_fold_keeps (fields : list ParsedField) :
  forall m m',
    foldM (deserialize_field from_bytes) m fields = Ok m' ->
    _serialized_on_wire m = true ->
    cls m' = cls m
    /\ _serialized_on_wire m' = true
    /\ _unknown_fields m' = _unknown_fields m ++ unknown_raw (cls m) fields.
Proof.
  unfold unknown_raw.
  induction fields as [|p fields IH]; intros m m' H Hs; cbn [foldM] in H.
  - injection H as <-. cbn. rewrite app_nil_r. auto.
  - destruct (deserialize_field from_bytes m p) as [m1|] eqn:E1; [|discriminate].
    cbn [mbind outcome_bind] in H.
    apply deserialize_field_keeps in E1; [|assumption].
    destruct E1 as (Hc1 & Hs1 & Hu1).
    apply IH in H; [|assumption]. destruct H as (Hc & Hs' & Hu).
    rewrite Hc1 in Hc, Hu. split; [assumption|]. split; [assumption|].
    rewrite Hu, Hu1. cbn [List.filter].
    destruct (known_number (cls m) (Wire.number p)); cbn [negb map concat].
    + rewrite app_nil_r. reflexivity.
    + rewrite app_assoc. reflexivity.
Qed.

End UnknownFields.

Section Deserialization.
Import Wire Runtime.

Lemma construct_cls (c : MessageClass) (kwargs : list (string * py_value)) :
  cls (construct c kwargs) = c.
Proof. unfold construct. destruct (fold_left _ _ _). reflexivity. Qed.

(** X15. When [deserialize_from_bytes] returns, the parser ended without
    an exception, the message is of the class asked for and counts as
    serialized on the wire, and [_unknown_fields] is the concatenation, in
    order, of the raw bytes of the fields whose number the class does not
    declare: unknown fields are kept byte for byte, and no known field
    leaks into them. *)
Theorem deserialize_keeps_unknown (depth : nat) (c : MessageClass) (data : bytes)
    (m : Message) :
  deserialize_from_bytes depth c data = Ok m ->
  cls m = c
  /\ _serialized_on_wire m = true
  /\ snd (parse_fields data) = None
  /\ _unknown_fields m = unknown_raw c (fst (parse_fields data)).
Proof.
  unfold deserialize_from_bytes. destruct depth as [|depth]; [discriminate|].
  cbn [deserialize_into]. unfold deserialize_fields.
  destruct (parse_fields data) as [fields e]. cbn [fst snd].
  destruct (foldM _ _ fields) as [m1|] eqn:Ef; [|discriminate].
  cbn [mbind outcome_bind]. destruct e; [discriminate|]. intros [= <-].
  apply deserialize_fold_keeps in Ef; [|destruct (construct c []); reflexivity].
  destruct Ef as (Hc & Hs & Hu).
  replace (cls (setattr_serialized_on_wire (construct c []) true)) with c in *
    by (rewrite <- (construct_cls c []) at 1; destruct (construct c []); reflexivity).
  repeat split; try assumption.
  rewrite Hu.
  replace (_unknown_fields (setattr_serialized_on_wire (construct c []) true))
    with (@nil byte); [reflexivity|].
  unfold construct. destruct (fold_left _ _ _). reflexivity.
Qed.

Lemma deserialize_keeps_unknown_witness :
  cls (Build_Message Examples.Foo [("x"%string, VInt 5)] true [x10; x01] ∅) = Examples.Foo
  /\ _serialized_on_wire
       (Build_Message Examples.Foo [("x"%string, VInt 5)] true [x10; x01] ∅) = true
  /\ snd (parse_fields [x08; x05; x10; x01]) = None
  /\ _unknown_fields (Build_Message Examples.Foo [("x"%string, VInt 5)] true [x10; x01] ∅)
     = unknown_raw Examples.Foo (fst (parse_fields [x08; x05; x10; x01])).
Proof.
  apply (deserialize_keeps_unknown 1 Examples.Foo [x08; x05; x10; x01]). reflexivity.
Defined.

(** A class without fields keeps every field of the input as unknown. *)
Lemma foldM_all_unknown (from_bytes : MessageClass -> bytes -> outcome Message)
    (name : string) (fields : list ParsedField) :
  forall u,
    foldM (deserialize_field from_bytes)
      (Build_Message (Build_MessageClass name []) [] true u ∅) fields
    = Ok (Build_Message (Build_MessageClass name []) [] true
            (u ++ concat (map raw fields)) ∅).
Proof.
  induction fields as [|p fields IH]; intros u; cbn [foldM map concat].
  - rewrite app_nil_r. reflexivity.
  - replace (deserialize_field from_bytes
               (Build_Message (Build_MessageClass name []) [] true u ∅) p)
      with (Ok (Build_Message (Build_MessageClass name []) [] true (u ++ raw p) ∅))
      by reflexivity.
    cbn [mbind outcome_bind].
    rewrite IH, app_assoc. reflexivity.
Qed.

(** X16. For a class without fields, decoding and encoding again returns
    the input byte for byte whenever the input parses, and decoding raises
    the exception of the parser when it does not. *)
Theorem fieldless_round_trip (name : string) (data : bytes) (d d' : nat) :
  match snd (parse_fields data) with
  | None =>
      deserialize_from_bytes (S d) (Build_MessageClass name []) data
      = Ok (Build_Message (Build_MessageClass name []) [] true data ∅)
      /\ serialize_to_bytes (S d')
           (Build_Message (Build_MessageClass name []) [] true data ∅)
         = Ok data
  | Some e => deserialize_from_bytes (S d) (Build_MessageClass name []) data = Raise e
  end.
Proof.
  unfold deserialize_from_bytes. cbn [deserialize_into]. unfold deserialize_fields.
  destruct (parse_fields data) as [fields e] eqn:Ep. cbn [snd].
  change (setattr_serialized_on_wire (construct (Build_MessageClass name []) []) true)
    with (Build_Message (Build_MessageClass name []) [] true [] ∅).
  rewrite foldM_all_unknown. cbn [mbind outcome_bind app].
  destruct e as [e|]; [reflexivity|].
  apply (parse_fields_loop_raw data (length data) 0) in Ep; [|lia].
  destruct Ep as [(rest & Hrest & Hnone) _].
  rewrite (Hnone eq_refl), app_nil_r in Hrest. cbn in Hrest.
  rewrite Hrest. split; reflexivity.
Qed.

End Deserialization.

(** ** [ProtoClassMetadata] *)

Section FieldNumbers.
Import Runtime.

Lemma NoDup_map_eq {A B} (f : A -> B) (l : list A) (x y : A) :
  List.NoDup (map f l) -> In x l -> In y l -> f x = f y -> x = y.
Proof.
  induction l as [|a l IH]; intros Hnd Hx Hy E; [contradiction|].
  cbn [map] in Hnd. inversion Hnd as [|? ? Hnot Hnd']; subst.
  destruct Hx as [->|Hx], Hy as [->|Hy].
  - reflexivity.
  - exfalso. apply Hnot. rewrite E. apply in_map. assumption.
  - exfalso. apply Hnot. rewrite <- E. apply in_map. assumption.
  - apply IH; assumption.
Qed.

Lemma find_unique {A} (test : A -> bool) (l : list A) (x : A) :
  (forall y z, In y l -> In z l -> test y = true -> test z = true -> y = z) ->
  (find test l = Some x <-> In x l /\ test x = true).
Proof.
  intros Huniq. split.
  - apply find_some.
  - intros [Hin Ht].
    destruct (find test l) as [y|] eqn:E.
    + apply find_some in E. destruct E as [Hy Hty].
      f_equal. apply Huniq; assumption.
    + exfalso. apply (find_none _ _ E) in Hin. congruence.
Qed.

(** X17. In a class whose field names and field numbers are distinct,
    [get_field_number] and [field_name_by_number] are inverse to each
    other, and [get_field_number] raises [ValueError] on a name that the
    class does not declare. *)
Theorem field_number_round_trip (c : MessageClass) (f : string) (n : Z) :
  List.NoDup (map fst (meta_by_field_name c)) ->
  List.NoDup (map (fun x => number (snd x)) (meta_by_field_name c)) ->
  (get_field_number c f = Ok n <-> field_name_by_number c n = Some f)
  /\ (~ In f (map fst (meta_by_field_name c)) ->
      get_field_number c f = Raise (ValueError ("Unknown field " ++ f))).
Proof.
  intros Hnames Hnumbers.
  set (l := meta_by_field_name c) in *.
  assert (Hl : forall x, lookup_meta c f = Some x <-> In (f, x) l).
  { intros x. unfold lookup_meta. fold l.
    destruct (find _ l) as [[f' x']|] eqn:E; cbn.
    - apply find_some in E. destruct E as [Hin Hf].
      apply String.eqb_eq in Hf. subst f'. split.
      + intros [= <-]. assumption.
      + intros Hin'. f_equal.
        pose proof (NoDup_map_eq fst l (f, x') (f, x) Hnames Hin Hin' eq_refl).
        congruence.
    - split; [discriminate|]. intros Hin.
      apply (find_none _ _ E) in Hin. cbn in Hin.
      rewrite String.eqb_refl in Hin. discriminate. }
  assert (Hn : forall g, field_name_by_number c n = Some g
                         <-> exists x, In (g, x) l /\ number x = n).
  { intros g. unfold field_name_by_number. fold l.
    destruct (find _ (rev l)) as [[g' x']|] eqn:E; cbn.
    - apply find_some in E. destruct E as [Hin Hx].
      apply in_rev in Hin. apply Z.eqb_eq in Hx. split.
      + intros [= <-]. eauto.
      + intros (x & Hin' & Hx'). f_equal.
        pose proof (NoDup_map_eq (fun x => number (snd x)) l (g', x') (g, x)
                      Hnumbers Hin Hin') as E.
        cbn in E. specialize (E ltac:(congruence)). congruence.
    - split; [discriminate|]. intros (x & Hin & Hx).
      apply in_rev in Hin. apply (find_none _ _ E) in Hin. cbn in Hin.
      apply Z.eqb_neq in Hin. contradiction. }
  split.
  - unfold get_field_number. rewrite Hn. split.
    + destruct (lookup_meta c f) as [x|] eqn:E; [|discriminate].
      intros [= <-]. exists x. split; [apply Hl; reflexivity|reflexivity].
    + intros (x & Hin & Hx). apply Hl in Hin. rewrite Hin. congruence.
  - intros Hnot. unfold get_field_number.
    destruct (lookup_meta c f) as [x|] eqn:E; [|reflexivity].
    exfalso. apply Hnot. assert (Hin : In (f, x) l) by (apply Hl; reflexivity).
    change f with (fst (f, x)). apply in_map. exact Hin.
Qed.

Lemma field_number_round_trip_witness :
  (get_field_number Examples.M "b" = Ok 2 <-> field_name_by_number Examples.M 2 = Some "b"%string)
  /\ (~ In "b"%string (map fst (meta_by_field_name Examples.M)) ->
      get_field_number Examples.M "b" = Raise (ValueError ("Unknown field " ++ "b"))).
Proof.
  apply (field_number_round_trip Examples.M "b" 2).
  - cbn. repeat constructor; cbn; intuition discriminate.
  - cbn. repeat constructor; cbn; intuition discriminate.
Defined.

End FieldNumbers.

(** ** [Message.__bool__] *)

Section Truth.
Import Runtime.

Lemma type_hint_entry (c : MessageClass) (f : string) (t : py_type) :
  type_hint c f = Some t ->
  exists meta, lookup_meta c f = Some meta /\ In (f, meta, t) (cls_fields c).
Proof.
  unfold type_hint, lookup_meta, meta_by_field_name.
  induction (cls_fields c) as [|[[n meta] t'] l IH]; [discriminate|].
  cbn [find map]. destruct (String.eqb_spec n f) as [->|Hne].
  - cbn. intros [= <-]. exists meta. split; [reflexivity|left; reflexivity].
  - intros H. destruct (IH H) as (meta' & Hl & Hin).
    exists meta'. split; [assumption|right; assumption].
Qed.

Lemma fields_any_eq (d : nat) (m : Message) (names : list string) :
  optional_hints (cls m) ->
  forall b,
    fields_any (value_eq (S d)) m names = Ok b ->
    fields_eq (value_eq (S d)) (construct (cls m) []) m names = Ok (negb b).
Proof.
  intros Hopt. induction names as [|f names IH]; intros b; cbn [fields_any fields_eq].
  - intros [= <-]. reflexivity.
  - rewrite lookup_meta_slot, construct_cls.
    destruct (raw_get m f) as [v|]; cbn [mbind outcome_bind]; [|discriminate].
    destruct (get_field_default (cls m) f) as [dflt|] eqn:Ed;
      cbn [mbind outcome_bind]; [|discriminate].
    pose proof Ed as Eh. unfold get_field_default in Eh.
    destruct (type_hint (cls m) f) as [t|] eqn:Et; [|discriminate].
    destruct (type_hint_entry _ _ _ Et) as (meta & Hl & Hin).
    rewrite Hl. cbn [mbind outcome_bind]. unfold init_value.
    cbn [assoc find fmap option_fmap option_map].
    destruct (optional meta) eqn:Eo.
    + destruct (Hopt _ _ _ Hin Eo) as [a ->]. injection Eh as <-.
      destruct v; intros H; rewrite ?Ed; cbn [mbind outcome_bind];
        try (apply IH; exact H);
        (destruct (value_eq (S d) VNone _) as [[|]|]; cbn [mbind outcome_bind] in *;
         [apply IH; exact H|injection H as <-; reflexivity|discriminate]).
    + destruct v; intros H; rewrite ?Ed; cbn [mbind outcome_bind];
        try (apply IH; exact H);
        (destruct (value_eq (S d) dflt _) as [[|]|]; cbn [mbind outcome_bind] in *;
         [apply IH; exact H|injection H as <-; reflexivity|discriminate]).
Qed.

(** X18. [bool(m)] is false exactly when the empty message of the class
    equals [m]: whenever [bool(m)] returns [b], [cls() == m] returns
    [not b], for a class whose optional fields have [Optional] hints. *)
Theorem bool_is_not_empty (d : nat) (m : Message) (b : bool) :
  optional_hints (cls m) ->
  Message_bool (S (S d)) m = Ok b ->
  Message_eq (S (S d)) (construct (cls m) []) m = Ok (negb b).
Proof.
  intros Hopt H. unfold Message_eq. cbn [value_eq].
  rewrite construct_cls, String.eqb_refl. cbn [negb].
  apply fields_any_eq; assumption.
Qed.

Lemma bool_is_not_empty_witness :
  Message_eq 2 (construct Examples.Foo []) (construct Examples.Foo [("x"%string, VInt 0)])
  = Ok (negb false).
Proof.
  apply (bool_is_not_empty 0 (construct Examples.Foo [("x"%string, VInt 0)]) false).
  - intros n meta t [[= <- <- <-]|[]]. discriminate.
  - reflexivity.
Defined.

End Truth.

(** ** The plugin: reading the types *)

Section ReadOrder.
Import Plugin.

Lemma dict_insert_keys {A} (d : list (string * A)) (k : string) (v : A) :
  map fst (dict_insert d k v) = set_add (map fst d) k.
Proof.
  unfold set_add. induction d as [|[k' w] d IH]; [reflexivity|].
  cbn [dict_insert map fst existsb].
  rewrite (String.eqb_sym k k').
  destruct (String.eqb_spec k' k) as [->|Hne]; cbn [orb map fst]; [reflexivity|].
  rewrite IH. destruct (existsb (String.eqb k) (map fst d)); reflexivity.
Qed.

Lemma dict_insert_NoDup {A} (d : list (string * A)) (k : string) (v : A) :
  List.NoDup (map fst d) -> List.NoDup (map fst (dict_insert d k v)).
Proof. rewrite dict_insert_keys. apply set_add_NoDup. Qed.

Lemma assoc_dict_insert {A} (d : list (string * A)) (k k' : string) (v : A) :
  Runtime.assoc (dict_insert d k v) k'
  = if String.eqb k k' then Some v else Runtime.assoc d k'.
Proof.
  unfold Runtime.assoc. induction d as [|[n w] d IH]; cbn [dict_insert find].
  - destruct (String.eqb k k'); reflexivity.
  - destruct (String.eqb_spec n k) as [->|Hne]; cbn [find].
    + destruct (String.eqb k k'); reflexivity.
    + destruct (String.eqb_spec n k') as [->|Hne'].
      * destruct (String.eqb_spec k k'); [congruence|reflexivity].
      * exact IH.
Qed.

Lemma dict_insert_In {A} (d : list (string * A)) (k : string) (v : A) (x : string * A) :
  In x (dict_insert d k v) -> x = (k, v) \/ In x d.
Proof.
  induction d as [|[n w] d IH]; cbn [dict_insert].
  - intros [<-|[]]. left; reflexivity.
  - destruct (String.eqb_spec n k) as [->|Hne].
    + intros [<-|H]; [left; reflexivity|right; right; assumption].
    + intros [<-|H]; [right; left; reflexivity|].
      destruct (IH H); [left; assumption|right; right; assumption].
Qed.

Lemma assoc_In {A} (d : list (string * A)) (k : string) (v : A) :
  Runtime.assoc d k = Some v -> In (k, v) d.
Proof.
  unfold Runtime.assoc. destruct (find _ d) as [[n w]|] eqn:E; [|discriminate].
  cbn. intros [= <-]. apply find_some in E. destruct E as [Hin Hn].
  apply String.eqb_eq in Hn. subst n. assumption.
Qed.

Lemma items_of_spec (ys : list yielded) :
  List.NoDup (map fst (items_of ys))
  /\ (forall q, In q (map fst (items_of ys)) <-> In q (map snd ys))
  /\ (forall q it path, In (q, (it, path)) (items_of ys) -> In (it, path, q) ys).
Proof.
  unfold items_of.
  assert (H : forall d,
            List.NoDup (map fst d) ->
            let r := fold_left (fun d '(it, path, qualname) => dict_insert d qualname (it, path)) ys d in
            List.NoDup (map fst r)
            /\ (forall q, In q (map fst r) <-> In q (map fst d) \/ In q (map snd ys))
            /\ (forall q it path, In (q, (it, path)) r ->
                  In (q, (it, path)) d \/ In (it, path, q) ys)).
  { induction ys as [|[[it path] q] ys IH]; intros d Hd; cbn [fold_left map snd].
    - split; [assumption|]. split; [|auto]. intros q. cbn. tauto.
    - destruct (IH (dict_insert d q (it, path)) (dict_insert_NoDup _ _ _ Hd))
        as (Hnd & Hkeys & Hvals).
      split; [assumption|]. split.
      + intros q'. rewrite Hkeys, dict_insert_keys, set_add_In. cbn. intuition.
      + intros q' it' path' Hin. destruct (Hvals _ _ _ Hin) as [H|H].
        * apply dict_insert_In in H. destruct H as [[= -> -> ->]|H];
            [right; left; reflexivity|left; assumption].
        * right; right; assumption. }
  destruct (H [] (List.NoDup_nil _)) as (Hnd & Hkeys & Hvals).
  split; [assumption|]. split.
  - intros q. rewrite Hkeys. cbn. tauto.
  - intros q it path Hin. destruct (Hvals _ _ _ Hin) as [[]|]; assumption.
Qed.

Lemma insert_sorted_Permutation (key : string -> nat) (x : string) (l : list string) :
  Permutation (insert_sorted key x l) (x :: l).
Proof.
  induction l as [|y l IH]; cbn [insert_sorted]; [reflexivity|].
  destruct (key x <=? key y)%nat; [reflexivity|].
  rewrite IH. apply perm_swap.
Qed.

Lemma sorted_Permutation (key : string -> nat) (l : list string) :
  Permutation (sorted key l) l.
Proof.
  induction l as [|x l IH]; cbn; [reflexivity|].
  rewrite insert_sorted_Permutation. constructor. exact IH.
Qed.

Lemma read_order_NoDup (f : FileDescriptorProto) : List.NoDup (map fst (read_order f)).
Proof.
  destruct (items_of_spec (traverse f)) as (Hnd & _).
  rewrite (read_order_keys f).
  apply (Permutation_NoDup
           (Permutation_sym
              (sorted_Permutation count_dots (map fst (items_of (traverse f)))))).
  assumption.
Qed.

(** X19. The types of an input file are read once each: the qualified
    names of the calls of [read_protobuf_type] are distinct, they are
    exactly the qualified names that [traverse] yields, and each call gets
    an item and a path that [traverse] yielded under that name. *)
Theorem read_order_complete (f : FileDescriptorProto) :
  List.NoDup (map fst (read_order f))
  /\ (forall q, In q (map fst (read_order f)) <-> In q (map snd (traverse f)))
  /\ (forall q it path, In (q, (it, path)) (read_order f) -> In (it, path, q) (traverse f))
  /\ length (read_order f) = length (items_of (traverse f)).
Proof.
  destruct (items_of_spec (traverse f)) as (Hnd & Hkeys & Hvals).
  pose proof (read_order_keys f) as Hk.
  pose proof (sorted_Permutation count_dots (map fst (items_of (traverse f)))) as Hp.
  fold (sorted_keys f) in Hp.
  split; [|split; [|split]].
  - apply read_order_NoDup.
  - intros q. rewrite Hk, <- Hkeys. split; apply Permutation_in;
      [assumption|apply Permutation_sym; assumption].
  - intros q it path Hin. apply Hvals. unfold read_order in Hin.
    apply list_elem_of_In in Hin. apply list_elem_of_omap in Hin.
    destruct Hin as (key & _ & Hsome).
    destruct (Runtime.assoc (items_of (traverse f)) key) as [v|] eqn:E; [|discriminate].
    cbn in Hsome. injection Hsome as <- <-. apply assoc_In. assumption.
  - rewrite <- (length_map fst (read_order f)), Hk.
    rewrite (Permutation_length Hp). apply length_map.
Qed.

End ReadOrder.

Section ReadTypes.
Import Plugin.
Variable get_type_reference : string -> string -> bool -> outcome string.

(** A loop whose turns return nothing ends without an exception exactly
    when every turn does, and otherwise raises what the first failing turn
    raises. *)
Lemma foldM_unit_Ok {A} (step : A -> outcome unit) (l : list A) :
  Runtime.foldM (fun _ x => step x) () l = Ok ()
  <-> List.Forall (fun x => step x = Ok ()) l.
Proof.
  induction l as [|x l IH]; cbn [Runtime.foldM].
  - split; [constructor|reflexivity].
  - destruct (step x) as [[]|e] eqn:E; cbn [mbind outcome_bind].
    + rewrite IH. split; [intros H; constructor; assumption|].
      intros H. inversion H. assumption.
    + split; [discriminate|]. intros H. inversion H. congruence.
Qed.

Lemma foldM_unit_Raise {A} (step : A -> outcome unit) (l : list A) (e : exn) :
  Runtime.foldM (fun _ x => step x) () l = Raise e ->
  exists pre x post,
    l = pre ++ x :: post
    /\ List.Forall (fun y => step y = Ok ()) pre
    /\ step x = Raise e.
Proof.
  induction l as [|x l IH]; cbn [Runtime.foldM]; [discriminate|].
  destruct (step x) as [[]|e'] eqn:E; cbn [mbind outcome_bind].
  - intros H. destruct (IH H) as (pre & y & post & -> & Hpre & Hy).
    exists (x :: pre), y, post. split; [reflexivity|].
    split; [constructor; assumption|assumption].
  - intros [= <-]. exists [], x, l. split; [reflexivity|].
    split; [constructor|assumption].
Qed.

Lemma read_protobuf_type_made (it : item) (path : list Z) (q : string)
    (f : FileDescriptorProto) (t : OutputTemplate)
    (extensions : list (string * list FieldDescriptorProto))
    (proto_types : list string) (c : compiled_type) :
  read_protobuf_type get_type_reference it path q f t extensions proto_types
  = Ok (Some c) ->
  qualname c = q
  /\ type_name c = ("." ++ package f ++ "." ++ q)%string
  /\ rsplit_head q = parent c
  /\ (forall p, parent c = Some p -> In p proto_types)
  /\ (forall m, proto_obj c = ItemMessage m ->
        map_entry m = false
        /\ List.Forall (fun x => read_field get_type_reference t m x = Ok ()) (fields c)).
Proof.
  unfold read_protobuf_type.
  assert (Hm : forall (m : DescriptorProto) (parent : option string),
             (if map_entry m then Ok None
              else
                fields ←
                  match Runtime.assoc extensions ("." ++ package f ++ "." ++ q)%string with
                  | None => Ok (field m)
                  | Some [x] => Ok (field m ++ [x])
                  | Some _ => Raise TypeError
                  end;
                _ ← Runtime.foldM (fun _ field => read_field get_type_reference t m field)
                      () fields;
                Ok (Some (Build_compiled_type q ("." ++ package f ++ "." ++ q)%string
                            (ItemMessage m) path parent fields)))
             = Ok (Some c) ->
             qualname c = q
             /\ type_name c = ("." ++ package f ++ "." ++ q)%string
             /\ parent = Plugin.parent c
             /\ (forall m', proto_obj c = ItemMessage m' ->
                   map_entry m' = false
                   /\ List.Forall (fun x => read_field get_type_reference t m' x = Ok ())
                        (fields c))).
  { intros m parent. destruct (map_entry m) eqn:Em; [discriminate|].
    destruct (match Runtime.assoc extensions ("." ++ package f ++ "." ++ q)%string with
              | None => Ok (field m)
              | Some [x] => Ok (field m ++ [x])
              | Some _ => Raise TypeError
              end) as [fields|e]; cbn [mbind outcome_bind]; [|discriminate].
    destruct (Runtime.foldM _ () fields) as [[]|e] eqn:Ef; cbn [mbind outcome_bind];
      [|discriminate].
    intros [= <-]. cbn [qualname type_name Plugin.parent proto_obj Plugin.fields].
    repeat split; try reflexivity.
    - injection H as <-. assumption.
    - injection H as <-. apply foldM_unit_Ok in Ef. assumption. }
  destruct (rsplit_head q) as [p|].
  - destruct (existsb (String.eqb p) proto_types) eqn:Ex; [|discriminate].
    cbn [mbind outcome_bind].
    assert (Hp : In p proto_types).
    { apply existsb_exists in Ex. destruct Ex as (p' & Hin & Hp).
      apply String.eqb_eq in Hp. subst p'. assumption. }
    destruct it as [e|m].
    + intros [= <-]. cbn. repeat split; try discriminate. intros ? [= <-]. assumption.
    + intros H. apply Hm in H. destruct H as (H1 & H2 & H3 & H4).
      repeat split; try assumption; try (apply H4; assumption).
      intros p' Hp'. rewrite <- H3 in Hp'. injection Hp' as <-. assumption.
  - cbn [mbind outcome_bind]. destruct it as [e|m].
    + intros [= <-]. cbn. repeat split; discriminate.
    + intros H. apply Hm in H. destruct H as (H1 & H2 & H3 & H4).
      repeat split; try assumption; try (apply H4; assumption).
      intros p' Hp'. rewrite <- H3 in Hp'. discriminate.
Qed.

Lemma read_fold_parents (f : FileDescriptorProto) (t : OutputTemplate)
    (extensions : list (string * list FieldDescriptorProto))
    (rest : list (string * (item * list Z))) :
  forall (made made' : list compiled_type) (pts' : list string),
    Runtime.foldM
      (fun '(proto_types, made) '(key, (it, path)) =>
         c ← read_protobuf_type get_type_reference it path key f t extensions
               proto_types;
         match c with
         | Some c => Ok (proto_types ++ [key], made ++ [c])
         | None => Ok (proto_types, made)
         end)
      (map qualname made, made) rest = Ok (pts', made') ->
    List.NoDup (map fst rest) ->
    (forall q, In q (map qualname made) -> ~ In q (map fst rest)) ->
    exists more,
      made' = made ++ more
      /\ forall pre c post, more = pre ++ c :: post ->
           well_parented (made ++ pre) c
           /\ type_name c = ("." ++ package f ++ "." ++ qualname c)%string
           /\ (forall m, proto_obj c = ItemMessage m ->
                 List.Forall (fun x => read_field get_type_reference t m x = Ok ())
                   (fields c)).
Proof.
  induction rest as [|[key [it path]] rest IH]; intros made made' pts' H Hnd Hfresh;
    cbn [Runtime.foldM] in H.
  - injection H as _ <-. exists []. split; [rewrite app_nil_r; reflexivity|].
    intros [|? ?] ? ? [=].
  - cbn [map fst] in Hnd. inversion Hnd as [|? ? Hnot Hnd']; subst.
    destruct (read_protobuf_type get_type_reference it path key f t extensions
                (map qualname made))
      as [[c|]|] eqn:Er; cbn [mbind outcome_bind] in H; [| |discriminate].
    + apply read_protobuf_type_made in Er. destruct Er as (Hq & Htn & Hpar & Hp & Hm).
      replace (map qualname made ++ [key]) with (map qualname (made ++ [c])) in H
        by (rewrite map_app; cbn; rewrite Hq; reflexivity).
      apply IH in H; [|assumption|].
      * destruct H as (more & -> & Hmore). exists (c :: more).
        split; [rewrite <- app_assoc; reflexivity|].
        intros pre c' post Heq. destruct pre as [|c0 pre]; cbn [app] in Heq.
        -- injection Heq as <- <-. rewrite app_nil_r.
           split; [|split; [congruence|intros m Hc; apply (Hm m Hc)]].
           repeat split; try assumption.
           ++ congruence.
           ++ rewrite Hq. intros Hin. apply (Hfresh _ Hin). left. reflexivity.
           ++ intros m Hc. apply (Hm m Hc).
        -- injection Heq as <- ->.
           replace (made ++ c :: pre) with ((made ++ [c]) ++ pre)
             by (rewrite <- app_assoc; reflexivity).
           apply (Hmore pre c' post). reflexivity.
      * intros q Hin. rewrite map_app in Hin. apply in_app_or in Hin.
        destruct Hin as [Hin|[<-|[]]].
        -- intros Hr. apply (Hfresh _ Hin). right. assumption.
        -- rewrite Hq. assumption.
    + apply IH in H; [assumption|assumption|].
      intros q Hin Hr. apply (Hfresh _ Hin). right. assumption.
Qed.

(** X20. When the types of a file are read without an exception, every
    compiler made has a qualified name not used before, the type name
    [.package.qualname], no map-entry message, for a nested type a parent
    that was made before it, and, for a message, fields whose compilers
    were all made without an exception. *)
Theorem read_types_parent_first (f : FileDescriptorProto)
    (extensions : list (string * list FieldDescriptorProto)) (t t' : OutputTemplate) :
  read_types get_type_reference f extensions t = Ok t' ->
  exists made,
    created t' = created t ++ map EType made
    /\ (forall pre c post, made = pre ++ c :: post ->
          well_parented pre c
          /\ type_name c = ("." ++ package f ++ "." ++ qualname c)%string
          /\ (forall m, proto_obj c = ItemMessage m ->
                List.Forall (fun x => read_field get_type_reference t m x = Ok ())
                  (fields c))).
Proof.
  unfold read_types. intros H.
  match type of H with
  | (?r ≫= _) = _ => destruct r as [[pts made]|] eqn:E; [|discriminate]
  end.
  cbn [mbind outcome_bind] in H. injection H as <-. cbn [created].
  exists made. split; [reflexivity|].
  apply (read_fold_parents f t extensions (read_order f) [] made pts) in E.
  - destruct E as (more & -> & Hmore). exact Hmore.
  - apply read_order_NoDup.
  - intros q [].
Qed.

End ReadTypes.

Section ReadTypesExample.
Import Plugin.

Lemma read_types_parent_first_witness :
  exists made,
    created
      (Build_OutputTemplate Examples.nested_file "sync" [Examples.nested_file]
         (map EType
            [Build_compiled_type "Z" ".p.Z"
               (ItemEnum (Build_EnumDescriptorProto "Z" [])) [5; 0] None [];
             Build_compiled_type "A" ".p.A"
               (ItemMessage
                  (Build_DescriptorProto "A" []
                     [Build_DescriptorProto "B" [] [] [] false]
                     [Build_EnumDescriptorProto "E" []] false)) [4; 0] None [];
             Build_compiled_type "A.E" ".p.A.E"
               (ItemEnum (Build_EnumDescriptorProto "E" [])) [4; 0; 4; 0]
               (Some "A"%string) [];
             Build_compiled_type "A.B" ".p.A.B"
               (ItemMessage (Build_DescriptorProto "B" [] [] [] false)) [4; 0; 3; 0]
               (Some "A"%string) []]))
    = created (Build_OutputTemplate Examples.nested_file "sync" [Examples.nested_file] [])
      ++ map EType made
    /\ (forall pre c post, made = pre ++ c :: post ->
          well_parented pre c
          /\ type_name c
             = ("." ++ package Examples.nested_file ++ "." ++ qualname c)%string
          /\ (forall m, proto_obj c = ItemMessage m ->
                List.Forall
                  (fun x =>
                     read_field (fun _ _ _ => Raise AttributeError)
                       (Build_OutputTemplate Examples.nested_file "sync"
                          [Examples.nested_file] []) m x
                     = Ok ())
                  (fields c))).
Proof.
  apply (read_types_parent_first (fun _ _ _ => Raise AttributeError)
           Examples.nested_file []
           (Build_OutputTemplate Examples.nested_file "sync" [Examples.nested_file] [])).
  reflexivity.
Defined.

End ReadTypesExample.

Section Extensions.
Import Plugin.
Variable get_type_reference : string -> string -> bool -> outcome string.

Lemma assoc_add_extensions (k : string) (exts : list FieldDescriptorProto) :
  forall extensions,
    Runtime.assoc (fold_left add_extension exts extensions) k
    = match Runtime.assoc extensions k,
            List.filter (fun e => String.eqb (extendee e) k) exts with
      | None, [] => None
      | o, es => Some (default [] o ++ es)
      end.
Proof.
  induction exts as [|e exts IH]; intros extensions; cbn [fold_left List.filter].
  - destruct (Runtime.assoc extensions k); cbn; [rewrite app_nil_r|]; reflexivity.
  - rewrite IH. unfold add_extension. rewrite assoc_dict_insert.
    destruct (String.eqb_spec (extendee e) k) as [->|Hne].
    + destruct (Runtime.assoc extensions k) as [l|]; unfold default, id.
      * rewrite <- app_assoc. reflexivity.
      * reflexivity.
    + reflexivity.
Qed.

Lemma fields_loop_made (step : FieldDescriptorProto -> outcome unit)
    (fields : list FieldDescriptorProto) (c : compiled_type) :
  made_unless_raised step fields
    (_ ← Runtime.foldM (fun _ x => step x) () fields; Ok (Some c)) c.
Proof.
  split.
  - intros H. apply foldM_unit_Ok in H. rewrite H. reflexivity.
  - intros e. split.
    + destruct (Runtime.foldM _ () fields) as [[]|e'] eqn:E; cbn [mbind outcome_bind];
        [discriminate|].
      intros [= <-]. apply foldM_unit_Raise. assumption.
    + intros (pre & x & post & -> & Hpre & Hx).
      assert (E : Runtime.foldM (fun _ x => step x) () (pre ++ x :: post) = Raise e).
      { induction Hpre as [|y pre Hy Hpre IH]; cbn [app Runtime.foldM].
        - rewrite Hx. reflexivity.
        - rewrite Hy. cbn [mbind outcome_bind]. exact IH. }
      rewrite E. reflexivity.
Qed.

Lemma py_type_unmapped (t : OutputTemplate) (x : FieldDescriptorProto) :
  ~ In (type x) mapped_types ->
  py_type get_type_reference t x = Raise NotImplementedError.
Proof.
  intros Hn. unfold py_type.
  assert (H : forall l, incl l mapped_types -> existsb (Z.eqb (type x)) l = false).
  { intros l Hl. apply not_true_is_false. intros Hex.
    apply existsb_exists in Hex. destruct Hex as (y & Hy & Heq).
    apply Z.eqb_eq in Heq. subst y. apply Hn, Hl. assumption. }
  rewrite !H; [reflexivity|..]; unfold mapped_types; intros y Hy;
    repeat (apply in_or_app; first [left; assumption|right]); assumption.
Qed.

(** X21. A top-level message that no extension targets is compiled with
    its own fields, and one that exactly one extension targets with the
    extension field appended: [read_protobuf_type] returns the compiler
    when every turn of the loop over these fields passes, and raises the
    exception of the first turn that raises otherwise. With two or more
    extensions it raises [TypeError] before the loop: [list.append] is
    called with all of them as its arguments. A field whose type is in
    none of the tables of [py_type] makes its turn raise
    [NotImplementedError]. *)
Theorem extended_message (m : DescriptorProto) (path : list Z) (q : string)
    (f : FileDescriptorProto) (t : OutputTemplate) (exts : list FieldDescriptorProto)
    (proto_types : list string) :
  map_entry m = false -> rsplit_head q = None ->
  match List.filter
          (fun e => String.eqb (extendee e) ("." ++ package f ++ "." ++ q)) exts with
  | [] =>
      made_unless_raised (read_field get_type_reference t m) (field m)
        (read_protobuf_type get_type_reference (ItemMessage m) path q f t
           (fold_left add_extension exts []) proto_types)
        (Build_compiled_type q ("." ++ package f ++ "." ++ q)
           (ItemMessage m) path None (field m))
  | [x] =>
      made_unless_raised (read_field get_type_reference t m) (field m ++ [x])
        (read_protobuf_type get_type_reference (ItemMessage m) path q f t
           (fold_left add_extension exts []) proto_types)
        (Build_compiled_type q ("." ++ package f ++ "." ++ q)
           (ItemMessage m) path None (field m ++ [x]))
  | _ =>
      read_protobuf_type get_type_reference (ItemMessage m) path q f t
        (fold_left add_extension exts []) proto_types
      = Raise TypeError
  end
  /\ (forall x, ~ In (type x) mapped_types ->
        read_field get_type_reference t m x = Raise NotImplementedError).
Proof.
  intros Hm Hq. split.
  - unfold read_protobuf_type. rewrite Hq, Hm. cbn [mbind outcome_bind].
    rewrite assoc_add_extensions.
    cbn [Runtime.assoc find fmap option_fmap option_map default app].
    destruct (List.filter _ exts) as [|x [|y l]]; cbn [mbind outcome_bind].
    + apply fields_loop_made.
    + apply fields_loop_made.
    + reflexivity.
  - intros x Hx. unfold read_field.
    assert (Hmap : is_map x m = false).
    { unfold is_map. destruct (Z.eqb_spec (type x) Type_TYPE_MESSAGE) as [E|]; [|reflexivity].
      exfalso. apply Hx. rewrite E. vm_compute. tauto. }
    rewrite Hmap. unfold OneOfFieldCompiler, FieldCompiler.
    rewrite (py_type_unmapped t x Hx). destruct (is_oneof x); reflexivity.
Qed.

End Extensions.

Section ExtensionsExample.
Import Plugin.

Lemma extended_message_witness :
  match List.filter
          (fun e => String.eqb (extendee e)
                      ("." ++ package Examples.nested_file ++ "." ++ "M"))
          [Build_FieldDescriptorProto "g" ".p.M" 10 "" None] with
  | [] =>
      made_unless_raised
        (read_field (fun _ _ _ => Raise AttributeError)
           (Build_OutputTemplate Examples.nested_file "sync" [] [])
           (Build_DescriptorProto "M" [Build_FieldDescriptorProto "a" "" 5 "" None]
              [] [] false))
        (field (Build_DescriptorProto "M" [Build_FieldDescriptorProto "a" "" 5 "" None]
                  [] [] false))
        (read_protobuf_type (fun _ _ _ => Raise AttributeError)
           (ItemMessage
              (Build_DescriptorProto "M" [Build_FieldDescriptorProto "a" "" 5 "" None]
                 [] [] false))
           [4; 0] "M" Examples.nested_file
           (Build_OutputTemplate Examples.nested_file "sync" [] [])
           (fold_left add_extension [Build_FieldDescriptorProto "g" ".p.M" 10 "" None] [])
           [])
        (Build_compiled_type "M" ("." ++ package Examples.nested_file ++ "." ++ "M")
           (ItemMessage
              (Build_DescriptorProto "M" [Build_FieldDescriptorProto "a" "" 5 "" None]
                 [] [] false))
           [4; 0] None
           (field (Build_DescriptorProto "M" [Build_FieldDescriptorProto "a" "" 5 "" None]
                     [] [] false)))
  | [x] =>
      made_unless_raised
        (read_field (fun _ _ _ => Raise AttributeError)
           (Build_OutputTemplate Examples.nested_file "sync" [] [])
           (Build_DescriptorProto "M" [Build_FieldDescriptorProto "a" "" 5 "" None]
              [] [] false))
        (field (Build_DescriptorProto "M" [Build_FieldDescriptorProto "a" "" 5 "" None]
                  [] [] false) ++ [x])
        (read_protobuf_type (fun _ _ _ => Raise AttributeError)
           (ItemMessage
              (Build_DescriptorProto "M" [Build_FieldDescriptorProto "a" "" 5 "" None]
                 [] [] false))
           [4; 0] "M" Examples.nested_file
           (Build_OutputTemplate Examples.nested_file "sync" [] [])
           (fold_left add_extension [Build_FieldDescriptorProto "g" ".p.M" 10 "" None] [])
           [])
        (Build_compiled_type "M" ("." ++ package Examples.nested_file ++ "." ++ "M")
           (ItemMessage
              (Build_DescriptorProto "M" [Build_FieldDescriptorProto "a" "" 5 "" None]
                 [] [] false))
           [4; 0] None
           (field (Build_DescriptorProto "M" [Build_FieldDescriptorProto "a" "" 5 "" None]
                     [] [] false) ++ [x]))
  | _ =>
      read_protobuf_type (fun _ _ _ => Raise AttributeError)
        (ItemMessage
           (Build_DescriptorProto "M" [Build_FieldDescriptorProto "a" "" 5 "" None]
              [] [] false))
        [4; 0] "M" Examples.nested_file
        (Build_OutputTemplate Examples.nested_file "sync" [] [])
        (fold_left add_extension [Build_FieldDescriptorProto "g" ".p.M" 10 "" None] [])
        []
      = Raise TypeError
  end
  /\ (forall x, ~ In (type x) mapped_types ->
        read_field (fun _ _ _ => Raise AttributeError)
          (Build_OutputTemplate Examples.nested_file "sync" [] [])
          (Build_DescriptorProto "M" [Build_FieldDescriptorProto "a" "" 5 "" None]
             [] [] false) x
        = Raise NotImplementedError).
Proof.
  apply (extended_message (fun _ _ _ => Raise AttributeError)
           (Build_DescriptorProto "M" [Build_FieldDescriptorProto "a" "" 5 "" None]
              [] [] false)
           [4; 0] "M" Examples.nested_file
           (Build_OutputTemplate Examples.nested_file "sync" [] [])
           [Build_FieldDescriptorProto "g" ".p.M" 10 "" None] []); reflexivity.
Defined.

End ExtensionsExample.


Section InitFiles.
Import Plugin.
Variable path_exists : list string -> bool.

Lemma path_in_In (a : list string) (s : list (list string)) :
  path_in a s = true <-> In a s.
Proof.
  unfold path_in, path_eqb. rewrite existsb_exists. split.
  - intros (x & Hin & Hx). apply bool_decide_eq_true_1 in Hx. subst x. assumption.
  - intros Hin. exists a. split; [assumption|]. apply bool_decide_eq_true_2. reflexivity.
Qed.

Lemma path_add_spec (l : list (list string)) :
  forall s,
    List.NoDup s ->
    List.NoDup (fold_left path_add l s)
    /\ forall p, In p (fold_left path_add l s) <-> In p s \/ In p l.
Proof.
  induction l as [|a l IH]; intros s Hs; cbn [fold_left].
  - split; [assumption|]. intros p. cbn. tauto.
  - assert (Ha : List.NoDup (path_add s a)
                 /\ forall p, In p (path_add s a) <-> In p s \/ p = a).
    { unfold path_add. destruct (path_in a s) eqn:E.
      - split; [assumption|]. intros p. apply path_in_In in E.
        split; [tauto|]. intros [H| ->]; assumption.
      - split.
        + apply (Permutation_NoDup (Permutation_cons_append s a)).
          constructor; [|assumption]. intros Hin. apply path_in_In in Hin. congruence.
        + intros p. rewrite in_app_iff. cbn. intuition. }
    destruct Ha as [Hnd Hin]. destruct (IH _ Hnd) as [Hnd' Hin'].
    split; [assumption|]. intros p. rewrite Hin', Hin. cbn. intuition.
Qed.

(** The placeholders, by the ancestor directories that the model walks:
    those of the directory of an output path. *)
Lemma init_files_spec (output_paths : list (list string)) :
  List.NoDup (init_files path_exists output_paths)
  /\ forall p,
       In p (init_files path_exists output_paths)
       <-> (exists path directory,
              In path output_paths /\ In directory (parents_of path)
              /\ p = directory ++ ["__init__.py"%string]
              /\ path_exists p = false)
           /\ ~ In p output_paths.
Proof.
  unfold init_files.
  set (candidates := flat_map _ output_paths).
  destruct (path_add_spec candidates [] (List.NoDup_nil _)) as [Hnd Hin].
  split; [apply List.NoDup_filter; assumption|].
  intros p. rewrite List.filter_In, Hin, negb_true_iff.
  assert (Hc : In p candidates
               <-> exists path directory,
                     In path output_paths /\ In directory (parents_of path)
                     /\ p = directory ++ ["__init__.py"%string]
                     /\ path_exists p = false).
  { subst candidates. rewrite in_flat_map. split.
    - intros (path & Hpath & Hp). apply in_flat_map in Hp.
      destruct Hp as (directory & Hd & Hp).
      destruct (path_exists (directory ++ ["__init__.py"%string])) eqn:E; [contradiction|].
      destruct Hp as [<-|[]]. exists path, directory. auto.
    - intros (path & directory & Hpath & Hd & -> & He).
      exists path. split; [assumption|]. apply in_flat_map.
      exists directory. split; [assumption|]. rewrite He. left. reflexivity. }
  rewrite <- Hc. split.
  - intros [[[]|H] Hn]. split; [assumption|].
    intros Hin'. apply path_in_In in Hin'. congruence.
  - intros [H Hn]. split; [right; assumption|].
    apply not_true_is_false. intros Hin'. apply Hn. apply path_in_In. assumption.
Qed.

(** [path.parents] starts with the directory of the path. *)
Lemma parents_snoc (directory : list string) (part : string) :
  parents (directory ++ [part]) = directory :: parents directory.
Proof.
  induction directory as [|x directory IH]; [reflexivity|].
  cbn [app parents]. rewrite IH. reflexivity.
Qed.

(** X22. The placeholder [__init__.py] files are, without repetition,
    exactly the [__init__.py] of the directories of [path.parents], over
    the output paths, that do not exist on disk and are not output paths
    themselves. *)
Theorem init_files_cover (output_paths : list (list string)) :
  (forall path, In path output_paths ->
                exists directory, path = directory ++ ["__init__.py"%string]) ->
  List.NoDup (init_files path_exists output_paths)
  /\ forall p,
       In p (init_files path_exists output_paths)
       <-> (exists path directory,
              In path output_paths /\ In directory (parents path)
              /\ p = directory ++ ["__init__.py"%string]
              /\ path_exists p = false)
           /\ ~ In p output_paths.
Proof.
  intros Hout.
  destruct (init_files_spec output_paths) as [Hnd Hin].
  split; [assumption|]. intros p. rewrite Hin. split.
  - intros [(path & directory & Hpath & Hd & Hp & He) Hn]. split; [|assumption].
    exists path, directory. repeat split; try assumption.
    destruct (Hout path Hpath) as [d ->].
    unfold parents_of in Hd. rewrite removelast_last in Hd.
    rewrite parents_snoc. right. assumption.
  - intros [(path & directory & Hpath & Hd & Hp & He) Hn]. split; [|assumption].
    exists path, directory. repeat split; try assumption.
    destruct (Hout path Hpath) as [d ->].
    unfold parents_of. rewrite removelast_last.
    rewrite parents_snoc in Hd. destruct Hd as [<-|Hd]; [|assumption].
    exfalso. apply Hn. rewrite Hp. assumption.
Qed.

End InitFiles.

Section InitFilesExample.
Import Plugin.

Lemma init_files_cover_witness :
  List.NoDup (init_files (fun _ => false) [["a"; "b"; "__init__.py"]%string])
  /\ forall p,
       In p (init_files (fun _ => false) [["a"; "b"; "__init__.py"]%string])
       <-> (exists path directory,
              In path [["a"; "b"; "__init__.py"]%string]
              /\ In directory (parents path)
              /\ p = directory ++ ["__init__.py"%string]
              /\ (fun _ : list string => false) p = false)
           /\ ~ In p [["a"; "b"; "__init__.py"]%string].
Proof.
  apply (init_files_cover (fun _ => false) [["a"; "b"; "__init__.py"]%string]).
  intros path [<-|[]]. exists ["a"; "b"]%string. reflexivity.
Defined.

End InitFilesExample.

(** ** The plugin: output packages, options and imports *)

Section OutputPackages.
Import Plugin.

Lemma collect_fold (plugin_options : PluginOptions) (k : string)
    (protos : list FileDescriptorProto) :
  forall st,
    List.NoDup (map fst (fst st)) ->
    List.NoDup (map fst (fst (fold_left (collect_step plugin_options) protos st)))
    /\ Runtime.assoc (fst (fold_left (collect_step plugin_options) protos st)) k
       = match Runtime.assoc (fst st) k,
               List.filter (fun p => kept plugin_options p && String.eqb (package p) k)
                 protos with
         | Some t, ps =>
             Some (Build_OutputTemplate (package_proto_obj t) (template_mode t)
                     (input_files t ++ ps) (created t))
         | None, [] => None
         | None, p :: ps =>
             Some (Build_OutputTemplate p (mode plugin_options) (p :: ps) [])
         end.
Proof.
  induction protos as [|proto protos IH]; intros [ops exts] Hnd; cbn [fold_left List.filter fst].
  - split; [assumption|]. cbn [fst].
    destruct (Runtime.assoc ops k) as [[? ? ? ?]|]; [|reflexivity].
    cbn. rewrite app_nil_r. reflexivity.
  - assert (Hstep :
      let st' := collect_step plugin_options (ops, exts) proto in
      List.NoDup (map fst (fst st'))
      /\ Runtime.assoc (fst st') k
         = if kept plugin_options proto && String.eqb (package proto) k
           then Some (add_input_file
                        (default (Build_OutputTemplate proto (mode plugin_options) [] [])
                           (Runtime.assoc ops k)) proto)
           else Runtime.assoc ops k).
    { unfold collect_step, kept.
      destruct (String.eqb (package proto) "google.protobuf"
                && negb (include_google plugin_options)); cbn [negb andb fst].
      - split; [assumption|reflexivity].
      - destruct (file_message_type proto), (file_enum_type proto), (service proto);
          cbn [negb andb fst];
          try (split; [assumption|reflexivity]);
          (split; [apply dict_insert_NoDup; assumption|];
           rewrite assoc_dict_insert;
           destruct (String.eqb_spec (package proto) k) as [->|]; reflexivity). }
    cbn zeta in Hstep. destruct Hstep as [Hnd' Hk].
    destruct (IH _ Hnd') as [Hnd'' Hk'].
    split; [assumption|]. rewrite Hk', Hk.
    destruct (kept plugin_options proto && String.eqb (package proto) k).
    + destruct (Runtime.assoc ops k) as [[? ? ? ?]|]; cbn;
        rewrite <- ?app_assoc; reflexivity.
    + reflexivity.
Qed.

(** X23. The output packages have distinct names, and the package of a
    name holds exactly the files of the request with that package that
    are kept (not a skipped [google.protobuf] file, and with a message, an
    enumeration or a service), in request order, the first of them as its
    [package_proto_obj]. *)
Theorem collect_packages (plugin_options : PluginOptions)
    (protos : list FileDescriptorProto) (k : string) :
  List.NoDup (map fst (fst (collect plugin_options protos)))
  /\ Runtime.assoc (fst (collect plugin_options protos)) k
     = match List.filter (fun p => kept plugin_options p && String.eqb (package p) k)
               protos with
       | [] => None
       | p :: ps => Some (Build_OutputTemplate p (mode plugin_options) (p :: ps) [])
       end.
Proof.
  unfold collect.
  destruct (collect_fold plugin_options k protos ([], []) (List.NoDup_nil _)) as [Hnd Hk].
  split; [assumption|]. rewrite Hk. reflexivity.
Qed.

End OutputPackages.

Section Options.
Import Plugin.

Lemma lower_ascii_idem (a : ascii) : lower_ascii (lower_ascii a) = lower_ascii a.
Proof. destruct a as [[] [] [] [] [] [] [] []]; reflexivity. Qed.

Lemma lower_idem (s : string) : lower (lower s) = lower s.
Proof.
  induction s as [|a s IH]; [reflexivity|].
  cbn [lower]. rewrite lower_ascii_idem, IH. reflexivity.
Qed.

Lemma split_eq_spec (s k v : string) :
  split_eq s = Some (k, v) ->
  s = (k ++ "=" ++ v)%string /\ split_eq k = None
  /\ (lower s = s -> lower k = k /\ lower v = v).
Proof.
  revert k v. induction s as [|a s IH]; intros k v; cbn [split_eq]; [discriminate|].
  destruct (Ascii.eqb_spec a "="%char) as [->|Hne].
  - intros [= <- <-]. split; [reflexivity|]. split; [reflexivity|].
    cbn [lower]. intros [= H]. split; [reflexivity|assumption].
  - destruct (split_eq s) as [[k' v']|]; [|discriminate].
    cbn. intros [= <- <-].
    destruct (IH k' v' eq_refl) as (-> & Hk & Hl).
    split; [reflexivity|]. split.
    + cbn [split_eq]. destruct (Ascii.eqb_spec a "="%char); [contradiction|].
      rewrite Hk. reflexivity.
    + cbn [lower]. intros [= Ha H]. destruct (Hl H) as [Hk' Hv'].
      split; [rewrite Ha, Hk'; reflexivity|assumption].
Qed.

(** X24. The options dictionary has distinct keys; every key and every
    string value is in lower case, a key holds no [=], and every entry
    comes from one of the comma-separated options: [key=value] for a
    string value, the bare key for [True]. *)
Theorem options_lowered (args : string) :
  List.NoDup (map fst (options_of args))
  /\ forall k v,
       In (k, v) (options_of args) ->
       lower k = k
       /\ match v with
          | OptStr s =>
              lower s = s /\ split_eq k = None
              /\ In (k ++ "=" ++ s)%string (map lower (split_on ","%char args))
          | OptTrue => split_eq k = None /\ In k (map lower (split_on ","%char args))
          end.
Proof.
  unfold options_of.
  set (all_options := map lower (split_on ","%char args)).
  assert (Hlow : forall o, In o all_options -> lower o = o).
  { subst all_options. intros o Ho. apply in_map_iff in Ho.
    destruct Ho as (x & <- & _). apply lower_idem. }
  assert (H : forall l options,
            (forall o, In o l -> In o all_options) ->
            List.NoDup (map fst options) ->
            (forall k v, In (k, v) options ->
               lower k = k
               /\ match v with
                  | OptStr s => lower s = s /\ split_eq k = None
                                /\ In (k ++ "=" ++ s)%string all_options
                  | OptTrue => split_eq k = None /\ In k all_options
                  end) ->
            let r := fold_left
                       (fun options option =>
                          match split_eq option with
                          | Some (key, value) => dict_insert options key (OptStr value)
                          | None => dict_insert options option OptTrue
                          end) l options in
            List.NoDup (map fst r)
            /\ forall k v, In (k, v) r ->
                 lower k = k
                 /\ match v with
                    | OptStr s => lower s = s /\ split_eq k = None
                                  /\ In (k ++ "=" ++ s)%string all_options
                    | OptTrue => split_eq k = None /\ In k all_options
                    end).
  { induction l as [|o l IH]; intros options Hl Hnd Hall; cbn [fold_left].
    - split; assumption.
    - apply IH.
      + intros o' Ho'. apply Hl. right. assumption.
      + destruct (split_eq o) as [[key value]|]; apply dict_insert_NoDup; assumption.
      + assert (Ho : In o all_options) by (apply Hl; left; reflexivity).
        pose proof (Hlow o Ho) as Hlo.
        intros k v Hin. destruct (split_eq o) as [[key value]|] eqn:Es.
        * apply dict_insert_In in Hin. destruct Hin as [[= -> ->]|Hin]; [|auto].
          destruct (split_eq_spec _ _ _ Es) as (E & Hk & Hl').
          destruct (Hl' Hlo) as [Hkey Hvalue].
          repeat split; try assumption. rewrite <- E. assumption.
        * apply dict_insert_In in Hin. destruct Hin as [[= -> ->]|Hin]; [|auto].
          repeat split; assumption. }
  apply (H all_options []).
  - auto.
  - constructor.
  - intros k v [].
Qed.

End Options.

Section FromImports.
Import Plugin.

Lemma record_fold_from_imports (module : string) (rs : list reference) :
  forall tm,
    List.NoDup (map fst (_from_imports tm)) ->
    (forall names, Runtime.assoc (_from_imports tm) module = Some names ->
                   List.NoDup names) ->
    let tm' := fold_left record_reference rs tm in
    List.NoDup (map fst (_from_imports tm'))
    /\ match Runtime.assoc (_from_imports tm') module with
       | Some names =>
           List.NoDup names
           /\ forall n, In n names
                        <-> In n (default [] (Runtime.assoc (_from_imports tm) module))
                            \/ In (FromImport module n) rs
       | None =>
           Runtime.assoc (_from_imports tm) module = None
           /\ forall n, ~ In (FromImport module n) rs
       end.
Proof.
  induction rs as [|r rs IH]; intros tm Hnd Hnames; cbn [fold_left].
  - split; [assumption|].
    destruct (Runtime.assoc (_from_imports tm) module) as [names|] eqn:E.
    + split; [auto|]. intros n. cbn. tauto.
    + split; [reflexivity|]. intros n [].
  - set (tm1 := record_reference tm r).
    assert (H1 : List.NoDup (map fst (_from_imports tm1))
                 /\ (forall names, Runtime.assoc (_from_imports tm1) module = Some names ->
                                   List.NoDup names)
                 /\ (forall n, In n (default [] (Runtime.assoc (_from_imports tm1) module))
                               <-> In n (default [] (Runtime.assoc (_from_imports tm) module))
                                   \/ r = FromImport module n)
                 /\ (Runtime.assoc (_from_imports tm1) module = None ->
                     Runtime.assoc (_from_imports tm) module = None)).
    { subst tm1. destruct r as [m' n'|m' n'|line]; cbn [record_reference module_import
        from_import add_import snd _from_imports].
      - repeat split; try assumption; try tauto. intros [H|H]; [assumption|discriminate].
      - split; [apply dict_insert_NoDup; assumption|].
        rewrite assoc_dict_insert.
        destruct (String.eqb_spec m' module) as [->|Hne].
        + split; [|split].
          * intros names [= <-]. apply set_add_NoDup.
            destruct (Runtime.assoc (_from_imports tm) module) eqn:E; [auto|constructor].
          * intros n. cbn [default]. change (id ?x) with x. rewrite set_add_In.
            split; (intros [H|H]; [left; assumption|right; congruence]).
          * discriminate.
        + split; [assumption|]. split; [|auto].
          intros n. split; [tauto|]. intros [H|H]; [assumption|congruence].
      - repeat split; try assumption; try tauto. intros [H|H]; [assumption|discriminate]. }
    destruct H1 as (Hnd1 & Hnames1 & Hin1 & Hnone1).
    destruct (IH tm1 Hnd1 Hnames1) as [Hnd' Hm]. cbn zeta in Hm.
    split; [assumption|].
    destruct (Runtime.assoc (_from_imports (fold_left record_reference rs tm1)) module)
      as [names|].
    + destruct Hm as [Hn Hin]. split; [assumption|].
      intros n. rewrite Hin, Hin1. cbn [In]. intuition.
    + destruct Hm as [Hnone Hno]. split; [auto|].
      intros n [->|H]; [|exact (Hno n H)].
      specialize (Hin1 n). rewrite Hnone in Hin1. cbn in Hin1. tauto.
Qed.

(** X25. [_from_imports] has one entry per module, and the entry of a
    module lists, without repetition, exactly the names that were
    imported from it. *)
Theorem from_imports_grouped (package module : string) (rs : list reference) :
  List.NoDup (map fst (_from_imports (record_all package rs)))
  /\ match Runtime.assoc (_from_imports (record_all package rs)) module with
     | Some names =>
         List.NoDup names /\ forall n, In n names <-> In (FromImport module n) rs
     | None => forall n, ~ In (FromImport module n) rs
     end.
Proof.
  unfold record_all.
  destruct (record_fold_from_imports module rs (new_TypeManager package)) as [Hnd Hm].
  - constructor.
  - discriminate.
  - split; [assumption|]. cbn zeta in Hm.
    destruct (Runtime.assoc _ module) as [names|].
    + destruct Hm as [Hn Hin]. split; [assumption|].
      intros n. rewrite Hin. cbn. tauto.
    + apply Hm.
Qed.

End FromImports.

(** ** The plugin: type references *)

Section TypeNames.
Import Plugin.

Lemma upto_newline_one_line (s : string) : one_line s = true -> upto_newline s = s.
Proof.
  induction s as [|c r IH]; [reflexivity|]. cbn [one_line upto_newline].
  destruct (Ascii.eqb c "010"%char); [discriminate|]. cbn [negb andb].
  intros H. rewrite IH by assumption. reflexivity.
Qed.

Lemma package_tail_found (pkg : string) (u : ascii) (name : string) :
  no_upper pkg = true -> is_upper u = true -> one_line name = true ->
  package_tail (pkg ++ "." ++ String u name) = Some (pkg, String u name).
Proof.
  intros Hp Hu Hn.
  assert (Hun : Ascii.eqb u "010"%char = false).
  { destruct (Ascii.eqb_spec u "010"%char) as [->|]; [discriminate|reflexivity]. }
  induction pkg as [|c r IH].
  - change (package_tail (String "."%char (String u name)) = Some (""%string, String u name)).
    cbn [package_tail].
    change (is_upper "."%char) with false. cbv iota.
    rewrite Hu. cbv iota.
    destruct (Ascii.eqb_spec u "."%char) as [->|_]; [discriminate|].
    cbn [mbind option_bind]. rewrite Hun.
    change (Ascii.eqb "." ".") with true. cbv iota.
    cbn [upto_newline]. rewrite Hun, upto_newline_one_line by assumption. reflexivity.
  - change (package_tail (String c (r ++ "." ++ String u name))
            = Some (String c r, String u name)).
    cbn [package_tail].
    cbn [no_upper] in Hp. apply andb_prop in Hp. destruct Hp as [Hc Hr].
    apply negb_true_iff in Hc. rewrite Hc, (IH Hr). reflexivity.
Qed.

(** X26. [parse_source_type_name] splits [.package.Name] into the package
    and the name whenever the package is not empty and holds no capital
    letter and the name starts with a capital letter and has no line
    feed; the name may be a nested one such as [Outer.Inner]. *)
Theorem parse_source_type_name_splits (pkg : string) (u : ascii) (name : string) :
  pkg <> ""%string -> no_upper pkg = true -> is_upper u = true ->
  one_line name = true ->
  parse_source_type_name ("." ++ pkg ++ "." ++ String u name) = (pkg, String u name).
Proof.
  intros Hne Hp Hu Hn. unfold parse_source_type_name.
  destruct pkg as [|c r]; [contradiction|].
  change ("." ++ String c r ++ "." ++ String u name)%string
    with (String "."%char (String c (r ++ "." ++ String u name))).
  change (Ascii.eqb "." ".") with true. cbv iota.
  cbn [package_match].
  cbn [no_upper] in Hp. apply andb_prop in Hp. destruct Hp as [Hc Hr].
  apply negb_true_iff in Hc. rewrite Hc.
  rewrite (package_tail_found r u name Hr Hu Hn). reflexivity.
Qed.

Lemma parse_source_type_name_splits_witness :
  parse_source_type_name ("." ++ "my.pkg" ++ "." ++ String "M"%char "sg.Inner")
  = ("my.pkg"%string, String "M"%char "sg.Inner").
Proof.
  apply (parse_source_type_name_splits "my.pkg" "M"%char "sg.Inner");
    [discriminate|reflexivity|reflexivity|reflexivity].
Defined.

End TypeNames.

Section References.
Import Plugin.
Variable pascal_case : string -> string.
Variable safe_snake_case : string -> string.
Variable wrapped_type_name : string -> option string.

(** X27. A reference to a type of the package being compiled is the bare
    class name and records no import, unless the package starts with
    [cbiproto] or the reference is one that is unwrapped. *)
Theorem sibling_reference (tm : TypeManager) (source_type : string) (unwrap : bool)
    (package name : string) :
  parse_source_type_name source_type = (package, name) ->
  package <> ""%string ->
  tm_package tm = split_on "."%char package ->
  firstn 1 (tm_package tm) <> ["cbiproto"%string] ->
  (unwrap = true ->
   wrapped_type_name source_type = None
   /\ source_type <> ".google.protobuf.Duration"%string
   /\ source_type <> ".google.protobuf.Timestamp"%string) ->
  get_type_reference pascal_case safe_snake_case wrapped_type_name tm source_type unwrap
  = (pythonize_class_name pascal_case name, tm).
Proof.
  intros Hparse Hne Hpkg Hcb Hun.
  assert (Hres :
    (let '(source_package, source_type) := parse_source_type_name source_type in
     let py_package :=
       if String.eqb source_package "" then [] else split_on "."%char source_package in
     let py_type := pythonize_class_name pascal_case source_type in
     let compiling_google_protobuf :=
       bool_decide (tm_package tm = ["google"; "protobuf"]%string) in
     let importing_google_protobuf :=
       bool_decide (py_package = ["google"; "protobuf"]%string) in
     let py_package :=
       if importing_google_protobuf && negb compiling_google_protobuf
       then "cbiproto"%string :: "lib"%string :: py_package
       else py_package in
     if bool_decide (firstn 1 py_package = ["cbiproto"%string])
     then reference_absolute safe_snake_case tm py_package py_type
     else if bool_decide (py_package = tm_package tm)
     then reference_sibling tm py_type
     else if starts_with py_package (tm_package tm)
     then reference_descendent tm py_package py_type
     else if starts_with (tm_package tm) py_package
     then reference_ancestor tm py_package py_type
     else reference_cousin safe_snake_case tm py_package py_type)
    = (pythonize_class_name pascal_case name, tm)).
  { rewrite Hparse. cbv zeta.
    destruct (String.eqb_spec package "") as [|_]; [contradiction|].
    rewrite <- Hpkg.
    destruct (bool_decide (tm_package tm = ["google"; "protobuf"]%string)); cbn [andb negb].
    - rewrite bool_decide_eq_false_2 by assumption.
      rewrite bool_decide_eq_true_2 by reflexivity. reflexivity.
    - rewrite bool_decide_eq_false_2 by assumption.
      rewrite bool_decide_eq_true_2 by reflexivity. reflexivity. }
  unfold get_type_reference. destruct unwrap; [|exact Hres].
  destruct (Hun eq_refl) as (-> & Hd & Ht).
  destruct (String.eqb_spec source_type ".google.protobuf.Duration"); [contradiction|].
  destruct (String.eqb_spec source_type ".google.protobuf.Timestamp"); [contradiction|].
  exact Hres.
Qed.

End References.

Section ReferencesMore.
Import Plugin.

Lemma sibling_reference_witness :
  get_type_reference (fun s => s) (fun s => s) (fun _ => None)
    (new_TypeManager "my.pkg") ".my.pkg.Msg" true
  = (pythonize_class_name (fun s => s) "Msg", new_TypeManager "my.pkg").
Proof.
  apply (sibling_reference (fun s => s) (fun s => s) (fun _ => None)
           (new_TypeManager "my.pkg") ".my.pkg.Msg" true "my.pkg" "Msg").
  - reflexivity.
  - discriminate.
  - reflexivity.
  - discriminate.
  - intros _. repeat split; discriminate.
Defined.

(** X28. In a file without a package, a reference to a type without a
    package is not taken as a sibling, whether it is asked for unwrapped
    or not (the type being no wrapper): [self.package] is the tuple of
    the empty string and the package of the type is the empty tuple, so
    the reference is resolved as one to an ancestor, the import
    [from .. import Name as _Name] is recorded and the alias [_Name] is
    returned. *)
Theorem reference_without_package
    (pascal_case safe_snake_case : string -> string)
    (wrapped_type_name : string -> option string)
    (tm : TypeManager) (source_type name : string) (unwrap : bool) :
  parse_source_type_name source_type = (""%string, name) ->
  tm_package tm = [""%string] ->
  (unwrap = true -> wrapped_type_name source_type = None) ->
  get_type_reference pascal_case safe_snake_case wrapped_type_name tm source_type unwrap
  = (("_" ++ pythonize_class_name pascal_case name)%string,
     add_import tm
       ("from .. import " ++ pythonize_class_name pascal_case name ++ " as _"
        ++ pythonize_class_name pascal_case name)%string).
Proof.
  intros Hparse Hpkg Hwrap.
  assert (Hres :
    get_type_reference pascal_case safe_snake_case wrapped_type_name tm source_type false
    = (("_" ++ pythonize_class_name pascal_case name)%string,
       add_import tm
         ("from .. import " ++ pythonize_class_name pascal_case name ++ " as _"
          ++ pythonize_class_name pascal_case name)%string)).
  { unfold get_type_reference. rewrite Hparse. cbv zeta.
    change (String.eqb "" "") with true. cbv iota.
    rewrite (bool_decide_eq_false_2 ([] = ["google"; "protobuf"]%string)) by discriminate.
    cbn [andb firstn].
    rewrite (bool_decide_eq_false_2 ([] = ["cbiproto"%string])) by discriminate.
    rewrite (bool_decide_eq_false_2 ([] = tm_package tm)) by (rewrite Hpkg; discriminate).
    unfold starts_with. rewrite Hpkg. cbn [length firstn].
    rewrite (bool_decide_eq_false_2 ([] = [""%string])) by discriminate.
    rewrite (bool_decide_eq_true_2 (@nil string = [])) by reflexivity.
    unfold reference_ancestor. rewrite Hpkg. reflexivity. }
  destruct unwrap; [|exact Hres].
  rewrite <- Hres. unfold get_type_reference. rewrite (Hwrap eq_refl).
  destruct (String.eqb_spec source_type ".google.protobuf.Duration") as [->|_];
    [vm_compute in Hparse; discriminate Hparse|].
  destruct (String.eqb_spec source_type ".google.protobuf.Timestamp") as [->|_];
    [vm_compute in Hparse; discriminate Hparse|].
  reflexivity.
Qed.

Lemma reference_without_package_witness :
  get_type_reference (fun s => s) (fun s => s) (fun _ => None)
    (new_TypeManager "") ".Msg" true
  = (("_" ++ pythonize_class_name (fun s => s) "Msg")%string,
     add_import (new_TypeManager "")
       ("from .. import " ++ pythonize_class_name (fun s => s) "Msg" ++ " as _"
        ++ pythonize_class_name (fun s => s) "Msg")%string).
Proof.
  apply (reference_without_package (fun s => s) (fun s => s) (fun _ => None)
           (new_TypeManager "") ".Msg" "Msg" true); reflexivity.
Defined.

End ReferencesMore.

Section Formatting.
Import Plugin.

Lemma string_app_assoc (a b c : string) : ((a ++ b) ++ c = a ++ (b ++ c))%string.
Proof.
  induction a as [|x a IH]; [reflexivity|].
  change (String x ((a ++ b) ++ c) = String x (a ++ (b ++ c)))%string.
  rewrite IH. reflexivity.
Qed.

Lemma string_app_nil_r (a : string) : (a ++ "" = a)%string.
Proof.
  induction a as [|x a IH]; [reflexivity|].
  change (String x (a ++ "") = String x a)%string. rewrite IH. reflexivity.
Qed.

Lemma split_on_cons (c : ascii) (s : string) : exists h t, split_on c s = h :: t.
Proof.
  induction s as [|a s IH]; cbn [split_on]; [eauto|].
  destruct (Ascii.eqb a c); [eauto|].
  destruct (split_on c s); eauto.
Qed.

Lemma concat_cons_head (sep : string) (a : ascii) (h : string) (t : list string) :
  String.concat sep (String a h :: t) = String a (String.concat sep (h :: t)).
Proof. destruct t; reflexivity. Qed.

(** [sep.join(s.split(sep)) == s] for a separator of one character. *)
Lemma concat_split_on (c : ascii) (s : string) :
  String.concat (String c "") (split_on c s) = s.
Proof.
  induction s as [|a s IH]; [reflexivity|]. cbn [split_on].
  destruct (split_on_cons c s) as (h & t & E). rewrite E in *.
  destruct (Ascii.eqb_spec a c) as [->|Hne].
  - change (String.concat (String c "") ("" :: h :: t))
      with (String c (String.concat (String c "") (h :: t))).
    rewrite IH. reflexivity.
  - rewrite concat_cons_head, IH. reflexivity.
Qed.

Lemma repeat_str_flat (s : string) (n : Z) :
  n <= 0 \/ s = ""%string -> repeat_str s n = ""%string.
Proof.
  unfold repeat_str. intros [Hn| ->].
  - replace (Z.to_nat n) with 0%nat by lia. reflexivity.
  - induction (Z.to_nat n) as [|k IH]; [reflexivity|].
    cbn [repeat]. destruct k; [reflexivity|].
    cbn [repeat String.concat] in *. exact IH.
Qed.

Lemma concat_empty_cons (x : string) (xs : list string) :
  String.concat "" (x :: xs) = (x ++ String.concat "" xs)%string.
Proof. destruct xs; [symmetry; apply string_app_nil_r|reflexivity]. Qed.

Lemma writeline_flat (f : Formatter) (l : string) :
  _indent_level f <= 0 \/ _indent_str f = ""%string ->
  writeline f l
  = Build_Formatter (_indent_level f) (_indent_str f)
      (_buffer f ++ l ++ String "010"%char "").
Proof.
  intros Hf. unfold writeline, newline, write, indent.
  cbn [_indent_level _indent_str _buffer].
  rewrite repeat_str_flat by assumption.
  unfold write. cbn [_indent_level _indent_str _buffer].
  rewrite string_app_nil_r, string_app_assoc. reflexivity.
Qed.

Lemma writelines_fold_flat (lines : list string) :
  forall f,
    _indent_level f <= 0 \/ _indent_str f = ""%string ->
    fold_left writeline lines f
    = Build_Formatter (_indent_level f) (_indent_str f)
        (_buffer f
         ++ String.concat ""
              (map (fun l => (l ++ String "010"%char "")%string) lines)).
Proof.
  induction lines as [|l lines IH]; intros f Hf; cbn [fold_left map].
  - cbn [String.concat]. rewrite string_app_nil_r. destruct f; reflexivity.
  - rewrite writeline_flat by assumption.
    rewrite IH by (cbn [_indent_level _indent_str]; assumption).
    cbn [_indent_level _indent_str _buffer].
    rewrite concat_empty_cons, !string_app_assoc. reflexivity.
Qed.

Lemma concat_lines (c : ascii) (lines : list string) :
  lines <> [] ->
  String.concat "" (map (fun l => (l ++ String c "")%string) lines)
  = (String.concat (String c "") lines ++ String c "")%string.
Proof.
  induction lines as [|l lines IH]; [contradiction|]. intros _.
  cbn [map]. rewrite concat_empty_cons.
  destruct lines as [|l' lines].
  - cbn [map String.concat]. rewrite string_app_nil_r. reflexivity.
  - rewrite IH by discriminate.
    change (String.concat (String c "") (l :: l' :: lines))
      with (l ++ String c "" ++ String.concat (String c "") (l' :: lines))%string.
    rewrite !string_app_assoc. reflexivity.
Qed.

(** X29. With no indentation (a level of zero or below, or an empty
    indent string), [writelines] appends the text and one line feed,
    whatever lines the text holds, and leaves the indentation as it
    was. *)
Theorem writelines_flat (f : Formatter) (s : string) :
  _indent_level f <= 0 \/ _indent_str f = ""%string ->
  writelines f s
  = Build_Formatter (_indent_level f) (_indent_str f)
      (_buffer f ++ s ++ String "010"%char "").
Proof.
  intros Hf. unfold writelines. rewrite writelines_fold_flat by assumption.
  rewrite concat_lines.
  - rewrite concat_split_on. reflexivity.
  - destruct (split_on_cons "010"%char s) as (h & t & ->). discriminate.
Qed.

Lemma writelines_flat_witness :
  writelines (new_Formatter 0 "    ") "a"
  = Build_Formatter (_indent_level (new_Formatter 0 "    "))
      (_indent_str (new_Formatter 0 "    "))
      (_buffer (new_Formatter 0 "    ") ++ "a" ++ String "010"%char "").
Proof.
  apply (writelines_flat (new_Formatter 0 "    ") "a"). left. cbn. lia.
Defined.

End Formatting.

(** ** Packed repeated fields *)

Section Packed.
Import Wire Runtime.

Lemma varint_wire_value (t : proto_type) (n : Z) :
  varint_range t n ->
  exists x,
    (forall to_bytes, _preprocess_single to_bytes t None (VInt n) = encode_varint x)
    /\ - 2 ^ 64 <= x < 2 ^ 64
    /\ postprocess_varint t (x mod 2 ^ 64) = VInt n
    /\ type_in t [TYPE_FLOAT; TYPE_FIXED32; TYPE_SFIXED32] = false
    /\ type_in t [TYPE_DOUBLE; TYPE_FIXED64; TYPE_SFIXED64] = false.
Proof.
  intros Hr.
  assert (Hz : - 2 ^ 63 <= n < 2 ^ 63 -> 0 <= zigzag n < 2 ^ 64).
  { intros H. rewrite zigzag_spec. destruct (Z.geb_spec n 0); lia. }
  assert (H64 : - 2 ^ 63 <= n < 2 ^ 63 -> sign_extend 64 (n mod 2 ^ 64) = n).
  { intros H. rewrite sign_extend_spec by lia. rewrite Z.mod_mod by lia.
    destruct (Z.lt_ge_cases n 0).
    - replace (n mod 2 ^ 64) with (n + 2 ^ 64)
        by (apply Z.mod_unique with (q := -1); lia).
      destruct (Z.ltb_spec (n + 2 ^ 64) (2 ^ (64 - 1))); lia.
    - rewrite Z.mod_small by lia.
      destruct (Z.ltb_spec n (2 ^ (64 - 1))); lia. }
  assert (H32 : - 2 ^ 31 <= n < 2 ^ 31 -> sign_extend 32 (n mod 2 ^ 64) = n).
  { intros H. rewrite sign_extend_spec by lia.
    assert (E : (n mod 2 ^ 64) mod 2 ^ 32 = n mod 2 ^ 32).
    { apply Z.mod_mod_divide. exists (2 ^ 32). reflexivity. }
    rewrite E.
    destruct (Z.lt_ge_cases n 0).
    - replace (n mod 2 ^ 32) with (n + 2 ^ 32)
        by (apply Z.mod_unique with (q := -1); lia).
      destruct (Z.ltb_spec (n + 2 ^ 32) (2 ^ (32 - 1))); lia.
    - rewrite Z.mod_small by lia.
      destruct (Z.ltb_spec n (2 ^ (32 - 1))); lia. }
  destruct t; try contradiction; cbn [varint_range] in Hr.
  - exists n. repeat split; try reflexivity; try lia.
    unfold postprocess_varint. rewrite Z.mod_small by lia. reflexivity.
  - exists n. repeat split; try reflexivity; try lia.
    unfold postprocess_varint. rewrite (H32 Hr). reflexivity.
  - exists n. repeat split; try reflexivity; try lia.
    unfold postprocess_varint. rewrite (H64 Hr). reflexivity.
  - exists n. repeat split; try reflexivity; try lia.
    unfold postprocess_varint. rewrite Z.mod_small by lia. reflexivity.
  - exists n. repeat split; try reflexivity; try lia.
    unfold postprocess_varint. rewrite Z.mod_small by lia. reflexivity.
  - exists (zigzag n). specialize (Hz Hr). repeat split; try reflexivity; try lia.
    unfold postprocess_varint. rewrite Z.mod_small by lia.
    rewrite unzigzag_zigzag. reflexivity.
  - exists (zigzag n). specialize (Hz Hr). repeat split; try reflexivity; try lia.
    unfold postprocess_varint. rewrite Z.mod_small by lia.
    rewrite unzigzag_zigzag. reflexivity.
Qed.

Lemma unpack_encoded (from_bytes : MessageClass -> bytes -> outcome Message)
    (to_bytes : Message -> outcome bytes)
    (t : proto_type) (proto_meta : MessageClass) (field_number : Z) (field_name : string)
    (ns : list Z) :
  List.Forall (varint_range t) ns ->
  exists buf,
    concat_mapM (_preprocess_single to_bytes t None) (map VInt ns) = Ok buf
    /\ (length ns <= length buf)%nat
    /\ forall (pre : bytes) (fuel : nat),
         (length ns <= fuel)%nat ->
         unpack_loop from_bytes fuel proto_meta (proto_field field_number t) field_name
           (pre ++ buf) (len pre)
         = Ok (map VInt ns).
Proof.
  induction ns as [|n ns IH]; intros Hall.
  - exists []. split; [reflexivity|]. split; [cbn; lia|].
    intros pre fuel _. rewrite app_nil_r.
    destruct fuel; cbn [unpack_loop]; rewrite Z.ltb_irrefl; reflexivity.
  - inversion Hall as [|? ? Hn Hns]; subst.
    destruct (IH Hns) as (buf & Hbuf & Hlen & Hloop).
    destruct (varint_wire_value t n Hn) as (x & Hpre & Hx & Hpost & Hf32 & Hf64).
    destruct (encode_decode_raw x Hx) as (e & He & Hdec).
    assert (Hne : (1 <= length e)%nat).
    { specialize (Hdec [] []). apply decode_varint_advances in Hdec; [|unfold len; cbn [length]; lia].
      destruct Hdec as [[H1 _] _]. unfold len in H1. cbn [length] in H1. lia. }
    exists (e ++ buf). split; [|split].
    + unfold concat_mapM in *. cbn [map mapM].
      rewrite Hpre, He. cbn [mbind outcome_bind].
      destruct (mapM _ (map VInt ns)) as [chunks|]; cbn [mbind outcome_bind] in *;
        [|discriminate].
      injection Hbuf as <-. reflexivity.
    + rewrite length_app. cbn [length]. lia.
    + intros pre fuel Hfuel. destruct fuel as [|fuel]; [cbn in Hfuel; lia|].
      cbn [unpack_loop].
      destruct (Z.ltb_spec (len pre) (len (pre ++ e ++ buf))) as [_|Hge].
      2:{ rewrite !len_app in Hge. unfold len in Hge. lia. }
      cbn [proto_type_of proto_field]. rewrite Hf32, Hf64.
      rewrite Hdec. cbn [mbind outcome_bind].
      unfold _postprocess_single. cbn [proto_type_of proto_field].
      change (WIRE_VARINT =? WIRE_VARINT) with true. cbv iota.
      rewrite Hpost. cbn [mbind outcome_bind].
      replace (pre ++ e ++ buf) with ((pre ++ e) ++ buf) by (rewrite <- app_assoc; reflexivity).
      rewrite <- len_app.
      rewrite Hloop by (cbn in Hfuel; lia).
      reflexivity.
Qed.

(** X30. A packed repeated field: the concatenation of the varints that
    [serialize_to_bytes] writes for a list of integers in the range of the
    type is read back by the loop of [deserialize_from_bytes] as the same
    list. *)
Theorem packed_round_trip (t : proto_type) (ns : list Z) :
  List.Forall (varint_range t) ns ->
  forall to_bytes from_bytes proto_meta field_number field_name,
  exists buf,
    concat_mapM (_preprocess_single to_bytes t None) (map VInt ns) = Ok buf
    /\ unpack_loop from_bytes (length buf) proto_meta (proto_field field_number t)
         field_name buf 0
       = Ok (map VInt ns).
Proof.
  intros Hall to_bytes from_bytes proto_meta field_number field_name.
  destruct (unpack_encoded from_bytes to_bytes t proto_meta field_number field_name ns Hall)
    as (buf & Hbuf & Hlen & Hloop).
  exists buf. split; [assumption|].
  apply (Hloop [] (length buf)). assumption.
Qed.

Lemma packed_round_trip_witness :
  exists buf,
    concat_mapM (_preprocess_single (fun _ => Ok []) TYPE_SINT32 None)
      (map VInt [1; -2; 300]) = Ok buf
    /\ unpack_loop (fun _ _ => Raise Unmodelled) (length buf) (Build_MessageClass "Foo" [])
         (proto_field 4 TYPE_SINT32) "xs" buf 0
       = Ok (map VInt [1; -2; 300]).
Proof.
  apply (packed_round_trip TYPE_SINT32 [1; -2; 300]).
  repeat constructor; cbn; lia.
Defined.

End Packed.
